(** * Emergency / transit signal arbitration: scripts/ems_priority.py

    A shallow embedding of the per-tick control procedure of
    [scripts/ems_priority.py] (topology classification, signal-state
    construction, EMS claims, train hold budgets, anti-starvation fallback,
    resolution and ledger clean-up), followed by the properties the
    specification states about it.

    Conventions of the embedding:
    - identifiers (traffic lights, vehicles, lanes, edges) are strings;
    - link indices are Python ints, here [Z]; list indexing follows Python
      (negative indices count from the end, anything else raises);
    - distances and speeds are Python floats that the controller only
      compares against exactly representable constants or passes on; they
      are modelled as rationals [Q], and so is the simulation time where it
      is only copied into the event log;
    - where the code computes with the simulation time (the trip log's
      [arr - dep], the stamp [t + PULSE + 0.1] of [preempt_until] and its
      comparison with [t]), the time is an IEEE 754 binary64 number, here a
      primitive [float], whose operations round as Python's do;
    - Python sets of link indices are [gset Z], dicts are [gmap];
    - a raised exception (IndexError, KeyError, TraCIException) is [None];
    - the per-step CSV log is left out; the trip log and the write-only
      [preempt_until] dict never feed a decision and are modelled on their
      own. *)

From Stdlib Require Import PrimFloat.
From Stdlib Require Import QArith Lqa Ascii String.
From stdpp Require Import gmap strings list fin_maps sorting.

Local Open Scope Z_scope.
#[local] Set Warnings "-clear-no-such-hyp".
#[local] Set Warnings "-inexact-float".

(** ** Tunables *)

Definition EMS_DIST : Q := 75.
Definition TRAIN_WARN_DIST : Q := 180.
Definition TRAIN_HOLD_MAX : Z := 12.
Definition PULSE : Q := 8 # 10.

Definition Qltb (x y : Q) : bool := negb (Qle_bool y x).

(** ** The mover (TraCI) as seen by the controller *)

Definition tls_id := string.
Definition veh_id := string.

(** One entry of [traci.vehicle.getNextTLS]: (tlsID, tlsIndex, distance);
    the fourth component (the current signal state) is never read. *)
Record next_tls := NextTLS {
  nt_tls : tls_id;
  nt_link : Z;
  nt_dist : Q
}.

(** The static network: traffic-light ids, the controlled links of each
    (a list of (incoming lane, outgoing lane, via lane) triples per link
    index) and the edge each lane belongs to. *)
Record network := Network {
  tls_ids : list tls_id;
  getControlledLinks : tls_id -> list (list (string * string * string));
  getEdgeID : string -> string
}.

(** The mover's answers during one tick.  [getNextTLS] is [None] when the
    mover raises TraCIException (unknown vehicle). *)
Record snapshot := Snapshot {
  getTime : Q;
  getIDList : list veh_id;
  getTypeID : veh_id -> string;
  getNextTLS : veh_id -> option (list next_tls)
}.

Definition is_ems (s : snapshot) (v : veh_id) : bool :=
  bool_decide (getTypeID s v = "emergency").
Definition is_train (s : snapshot) (v : veh_id) : bool :=
  bool_decide (getTypeID s v = "train").

(** Commands sent to the mover, in the order they are issued. *)
Inductive command :=
| SetLaneChangeMode (v : veh_id) (mode : Z)
| SetSpeedMode (v : veh_id) (mode : Z)
| SlowDown (v : veh_id) (speed duration : Q)
| SetSpeed (v : veh_id) (speed : Q)
| SetRedYellowGreenState (t : tls_id) (state : string)
| SetPhaseDuration (t : tls_id) (d : Q).

(** ** analyze_tls *)

Record tls_info := TlsInfo {
  n : nat;
  rail_idxs : gset Z;
  road_idxs : gset Z;
  inc_edge_to_link_idxs : gmap string (list Z);
  is_crossing : bool
}.

(** The state of the classification loop: rail set, road set, edge index. *)
Definition analyze_acc : Type := gset Z * gset Z * gmap string (list Z).

(** Body of [for idx, triples in enumerate(ctrl)]; [triples[0][0]] raises
    on an empty link. *)
Definition analyze_link (net : network) (idx : nat)
    (triples : list (string * string * string)) (acc : analyze_acc)
    : option analyze_acc :=
  let '(rail, road, inc) := acc in
  match triples with
  | [] => None
  | (inc_lane, _, _) :: _ =>
      let inc_edge := getEdgeID net inc_lane in
      if String.prefix "rail_" inc_edge
      then Some (rail ∪ {[ Z.of_nat idx ]}, road, inc)
      else Some (rail, road ∪ {[ Z.of_nat idx ]},
                 <[ inc_edge := default [] (inc !! inc_edge) ++ [Z.of_nat idx] ]> inc)
  end.

Fixpoint analyze_links (net : network) (idx : nat)
    (ctrl : list (list (string * string * string))) (acc : analyze_acc)
    : option analyze_acc :=
  match ctrl with
  | [] => Some acc
  | triples :: rest =>
      match analyze_link net idx triples acc with
      | Some acc' => analyze_links net (S idx) rest acc'
      | None => None
      end
  end.

Definition analyze_tls (net : network) (tls : tls_id) : option tls_info :=
  let ctrl := getControlledLinks net tls in
  match analyze_links net 0 ctrl (∅, ∅, ∅) with
  | Some (rail, road, inc) =>
      Some {| n := length ctrl;
              rail_idxs := rail;
              road_idxs := road;
              inc_edge_to_link_idxs := inc;
              is_crossing := bool_decide (0 < size rail)%nat |}
  | None => None
  end.

(** [tls_meta = {tls: analyze_tls(tls) for tls in getIDList()}] *)
Fixpoint build_tls_meta (net : network) (ids : list tls_id)
    (acc : gmap tls_id tls_info) : option (gmap tls_id tls_info) :=
  match ids with
  | [] => Some acc
  | t :: rest =>
      match analyze_tls net t with
      | Some m => build_tls_meta net rest (<[ t := m ]> acc)
      | None => None
      end
  end.

Definition startup (net : network) : option (gmap tls_id tls_info) :=
  build_tls_meta net (tls_ids net) ∅.

(** ** build_state *)

Definition sig_r : ascii := "r"%char.
Definition sig_G : ascii := "G"%char.

(** Python list indexing on a list of length [len]. *)
Definition py_index (len : nat) (i : Z) : option nat :=
  if bool_decide (0 <= i < Z.of_nat len) then Some (Z.to_nat i)
  else if bool_decide (- Z.of_nat len <= i < 0) then Some (Z.to_nat (Z.of_nat len + i))
  else None.

(** [s[i] = c] *)
Definition set_item (s : list ascii) (i : Z) (c : ascii) : option (list ascii) :=
  match py_index (length s) i with
  | Some k => Some (<[ k := c ]> s)
  | None => None
  end.

(** [for i in idxs: s[i] = c] *)
Fixpoint set_items (s : list ascii) (idxs : list Z) (c : ascii) : option (list ascii) :=
  match idxs with
  | [] => Some s
  | i :: rest =>
      match set_item s i c with
      | Some s' => set_items s' rest c
      | None => None
      end
  end.

(** [build_state(n, greens, force_red)]; an empty [force_red] is falsy and
    skipped, which is the same as looping over it. *)
Definition build_state (n : nat) (greens force_red : gset Z) : option string :=
  match set_items (replicate n sig_r) (elements greens) sig_G with
  | Some s =>
      match set_items s (elements force_red) sig_r with
      | Some s' => Some (string_of_list_ascii s')
      | None => None
      end
  | None => None
  end.

(** ** The control loop body (one tick) *)

Inductive event_type := ems_preempt | train_request | road_keep_green | other.
Inductive event_source := src_ems | src_train | src_controller.

Definition event_type_name (e : event_type) : string :=
  match e with
  | ems_preempt => "ems_preempt"
  | train_request => "train_request"
  | road_keep_green => "road_keep_green"
  | other => "other"
  end.

Definition event_source_name (s : event_source) : string :=
  match s with
  | src_ems => "ems"
  | src_train => "train"
  | src_controller => "controller"
  end.

(** One row of events_log.csv: [t, event_type, source, tls_id, state]. *)
Record event := Event {
  ev_time : Q;
  ev_type : event_type;
  ev_source : event_source;
  ev_tls : tls_id;
  ev_state : string
}.

(** [d.setdefault(k, set()).add(i)] *)
Definition setdefault_add (d : gmap tls_id (gset Z)) (k : tls_id) (i : Z)
    : gmap tls_id (gset Z) :=
  <[ k := default ∅ (d !! k) ∪ {[ i ]} ]> d.

(** *** Step 1: EMS claims *)

Record ems_state := EmsState {
  ems_green : gmap tls_id (gset Z);
  blocked_tls : gset tls_id;
  ems_cmds : list command
}.

Definition ems_init : ems_state := EmsState ∅ ∅ [].

Definition ems_body (s : snapshot) (vid : veh_id) (st : ems_state) : option ems_state :=
  if negb (is_ems s vid) then Some st
  else
    match getNextTLS s vid with
    | None => None
    | Some [] => Some st
    | Some (NextTLS tls link dist :: _) =>
        if Qle_bool dist EMS_DIST
        then Some (EmsState (setdefault_add (ems_green st) tls link)
                            (blocked_tls st ∪ {[ tls ]})
                            (ems_cmds st ++ [SetLaneChangeMode vid 0; SetSpeedMode vid 0]))
        else Some st
    end.

Fixpoint ems_phase (s : snapshot) (vids : list veh_id) (st : ems_state)
    : option ems_state :=
  match vids with
  | [] => Some st
  | vid :: rest =>
      match ems_body s vid st with
      | Some st' => ems_phase s rest st'
      | None => None
      end
  end.

(** *** Step 2: trains near crossings *)

Record train_state := TrainState {
  train_near : gset tls_id;
  train_green : gmap tls_id (gset Z);
  train_hold_left : gmap (tls_id * veh_id) Z;
  train_cmds : list command
}.

(** [train_hold_left.get(key, TRAIN_HOLD_MAX)] *)
Definition hold_get (l : gmap (tls_id * veh_id) Z) (key : tls_id * veh_id) : Z :=
  default TRAIN_HOLD_MAX (l !! key).

(** The three distance bands of the graduated slowdown. *)
Definition slow_target (dist : Q) : Q :=
  if Qltb dist 25 then 1 # 10
  else if Qltb dist 70 then 3
  else 6.

Definition train_body (meta : gmap tls_id tls_info) (blocked : gset tls_id)
    (s : snapshot) (vid : veh_id) (st : train_state) : option train_state :=
  if negb (is_train s vid) then Some st
  else
    match getNextTLS s vid with
    | None => None
    | Some [] => Some st
    | Some (NextTLS tls link dist :: _) =>
        match meta !! tls with
        | None => Some st
        | Some m =>
            if negb (is_crossing m) then Some st
            else
              let near :=
                if Qltb dist TRAIN_WARN_DIST then train_near st ∪ {[ tls ]}
                else train_near st in
              let key := (tls, vid) in
              if bool_decide (tls ∈ blocked) && Qltb dist TRAIN_WARN_DIST
              then
                let left := hold_get (train_hold_left st) key in
                if bool_decide (0 < left)
                then Some (TrainState near (train_green st)
                             (<[ key := left - 1 ]> (train_hold_left st))
                             (train_cmds st ++ [SlowDown vid (slow_target dist) 3]))
                else Some (TrainState near
                             (setdefault_add (train_green st) tls link)
                             (train_hold_left st)
                             (train_cmds st ++ [SetSpeed vid (-1)]))
              else
                if Qltb dist TRAIN_WARN_DIST
                then Some (TrainState near
                             (setdefault_add (train_green st) tls link)
                             (train_hold_left st)
                             (train_cmds st ++ [SetSpeed vid (-1)]))
                else Some (TrainState near (train_green st)
                             (train_hold_left st) (train_cmds st))
        end
    end.

Fixpoint train_phase (meta : gmap tls_id tls_info) (blocked : gset tls_id)
    (s : snapshot) (vids : list veh_id) (st : train_state) : option train_state :=
  match vids with
  | [] => Some st
  | vid :: rest =>
      match train_body meta blocked s vid st with
      | Some st' => train_phase meta blocked s rest st'
      | None => None
      end
  end.

(** *** Step 3: anti-starvation at crossings *)

Definition road_eligible (blocked near : gset tls_id) (p : tls_id * tls_info) : Prop :=
  is_crossing (snd p) = true ∧ (fst p ∉ blocked) ∧ (fst p ∉ near).

Global Instance road_eligible_dec blocked near p : Decision (road_eligible blocked near p).
Proof. unfold road_eligible. apply _. Defined.

Definition crossing_road_green (meta : gmap tls_id tls_info)
    (blocked near : gset tls_id) : gmap tls_id (gset Z) :=
  road_idxs <$> filter (road_eligible blocked near) meta.

(** *** Step 4: resolution and forced states *)

Record decision := Decision_ {
  d_greens : gset Z;
  d_force_red : gset Z;
  d_event_type : event_type;
  d_source : event_source
}.

Definition resolve (m : tls_info) (eg tg crg : gmap tls_id (gset Z)) (tls : tls_id)
    : decision :=
  let greens0 : gset Z := ∅ in
  let greens1 := match crg !! tls with Some g => greens0 ∪ g | None => greens0 end in
  let greens2 := match tg !! tls with Some g => greens1 ∪ g | None => greens1 end in
  match eg !! tls with
  | Some g => Decision_ g (rail_idxs m) ems_preempt src_ems
  | None =>
      match tg !! tls with
      | Some _ => Decision_ greens2 ∅ train_request src_train
      | None =>
          match crg !! tls with
          | Some _ => Decision_ greens2 ∅ road_keep_green src_controller
          | None => Decision_ greens2 ∅ other src_controller
          end
      end
  end.

(** Body of [for tls_id in touched]; [tls_meta[tls_id]] raises KeyError on an
    unknown id and [build_state] raises IndexError on a bad link index. *)
Definition apply_one (meta : gmap tls_id tls_info) (t : Q)
    (eg tg crg : gmap tls_id (gset Z)) (tls : tls_id)
    : option (event * list command) :=
  match meta !! tls with
  | None => None
  | Some m =>
      let d := resolve m eg tg crg tls in
      match build_state (n m) (d_greens d) (d_force_red d) with
      | None => None
      | Some state =>
          Some (Event t (d_event_type d) (d_source d) tls state,
                [SetRedYellowGreenState tls state; SetPhaseDuration tls PULSE])
      end
  end.

Fixpoint apply_phase (meta : gmap tls_id tls_info) (t : Q)
    (eg tg crg : gmap tls_id (gset Z)) (touched : list tls_id)
    : option (list event * list command) :=
  match touched with
  | [] => Some ([], [])
  | tls :: rest =>
      match apply_one meta t eg tg crg tls with
      | None => None
      | Some (e, cs) =>
          match apply_phase meta t eg tg crg rest with
          | None => None
          | Some (es, cs') => Some (e :: es, cs ++ cs')
          end
      end
  end.

(** *** Step 5: clean the hold ledger *)

(** An entry survives iff [getNextTLS(train_id)] neither raises nor is empty. *)
Definition still_routed (s : snapshot) (p : (tls_id * veh_id) * Z) : Prop :=
  match getNextTLS s (snd (fst p)) with
  | Some (_ :: _) => True
  | _ => False
  end.

Global Instance still_routed_dec s p : Decision (still_routed s p).
Proof. unfold still_routed. destruct (getNextTLS s (snd (fst p))) as [[|? ?]|]; apply _. Defined.

Definition prune (s : snapshot) (l : gmap (tls_id * veh_id) Z)
    : gmap (tls_id * veh_id) Z :=
  filter (still_routed s) l.

(** *** The whole tick *)

Record tick_out := TickOut {
  out_ledger : gmap (tls_id * veh_id) Z;
  out_cmds : list command;
  out_events : list event
}.

Definition touched_of (eg tg crg : gmap tls_id (gset Z)) : gset tls_id :=
  dom eg ∪ dom tg ∪ dom crg.

Definition tick (meta : gmap tls_id tls_info) (ledger : gmap (tls_id * veh_id) Z)
    (s : snapshot) : option tick_out :=
  match ems_phase s (getIDList s) ems_init with
  | None => None
  | Some es =>
      match train_phase meta (blocked_tls es) s (getIDList s)
              (TrainState ∅ ∅ ledger (ems_cmds es)) with
      | None => None
      | Some ts =>
          let crg := crossing_road_green meta (blocked_tls es) (train_near ts) in
          let touched := touched_of (ems_green es) (train_green ts) crg in
          match apply_phase meta (getTime s) (ems_green es) (train_green ts) crg
                  (elements touched) with
          | None => None
          | Some (evs, cs) =>
              Some (TickOut (prune s (train_hold_left ts)) (train_cmds ts ++ cs) evs)
          end
      end
  end.

(** The loop: the ledger is the only state carried from tick to tick. *)
Fixpoint run (meta : gmap tls_id tls_info) (ledger : gmap (tls_id * veh_id) Z)
    (ss : list snapshot) : option (list tick_out) :=
  match ss with
  | [] => Some []
  | s :: rest =>
      match tick meta ledger s with
      | None => None
      | Some o =>
          match run meta (out_ledger o) rest with
          | None => None
          | Some os => Some (o :: os)
          end
      end
  end.

(** ** Trip tracking (the telemetry part of the loop body)

    [depart_times] is a Python dict read in insertion order, modelled as an
    association list with distinct keys; [veh_types] and [veh_routes] are
    only looked up by key; [arrived] is a set.  The two mover queries the
    code wraps in try/except are [None] when they raise.  [clock] is the
    value [t] of [traci.simulation.getTime()] as the double the loop
    computes with. *)

Record telemetry := Telemetry {
  clock : float;
  type_query : veh_id -> option string;   (* getTypeID inside try/except *)
  getRouteID : veh_id -> option string
}.

Record trip_state := TripState {
  depart_times : list (veh_id * float);
  veh_types : gmap veh_id string;
  veh_routes : gmap veh_id string;
  arrived : gset veh_id
}.

Definition trip_init : trip_state := TripState [] ∅ ∅ ∅.

(** One row of trip_log.csv:
    [veh_id, type, route, depart_time, arrival_time, travel_time]. *)
Record trip_row := TripRow {
  tr_veh : veh_id;
  tr_type : string;
  tr_route : string;
  tr_depart : float;
  tr_arrival : float;
  tr_travel : float
}.

(** [d.get(k)] on the insertion-ordered dict. *)
Fixpoint od_get (d : list (veh_id * float)) (k : veh_id) : option float :=
  match d with
  | [] => None
  | (k', a) :: rest => if bool_decide (k' = k) then Some a else od_get rest k
  end.

(** Body of the first loop: [if vid not in depart_times: ...]. *)
Definition first_seen (s : snapshot) (q : telemetry) (st : trip_state)
    (vid : veh_id) : trip_state :=
  match od_get (depart_times st) vid with
  | Some _ => st
  | None =>
      TripState (depart_times st ++ [(vid, clock q)])
                (<[ vid := default "unknown"%string (type_query q vid) ]> (veh_types st))
                (<[ vid := default "unknown"%string (getRouteID q vid) ]> (veh_routes st))
                (arrived st)
  end.

Definition record_departures (s : snapshot) (q : telemetry) (st : trip_state)
    : trip_state :=
  foldl (first_seen s q) st (getIDList s).

(** Body of the second loop, over [list(depart_times.keys())]; the three
    dicts are not modified by it, only [arrived] and the log are. *)
Definition log_arrival (s : snapshot) (q : telemetry) (st : trip_state)
    (acc : gset veh_id * list trip_row) (vid : veh_id)
    : gset veh_id * list trip_row :=
  let '(arr_set, rows) := acc in
  if bool_decide (vid ∉ getIDList s) && bool_decide (vid ∉ arr_set)
  then
    let dep := default 0%float (od_get (depart_times st) vid) in
    let arr := clock q in
    let vtype := default "unknown"%string (veh_types st !! vid) in
    let route := default "unknown"%string (veh_routes st !! vid) in
    (arr_set ∪ {[ vid ]},
     rows ++ [TripRow vid vtype route dep arr (arr - dep)%float])
  else acc.

Definition log_arrivals (s : snapshot) (q : telemetry) (st : trip_state)
    : trip_state * list trip_row :=
  let '(arr_set, rows) :=
    foldl (log_arrival s q st) (arrived st, []) (fst <$> depart_times st) in
  (TripState (depart_times st) (veh_types st) (veh_routes st) arr_set, rows).

(** The trip part of one tick. *)
Definition trip_step (s : snapshot) (q : telemetry) (st : trip_state)
    : trip_state * list trip_row :=
  log_arrivals s q (record_departures s q st).

(** The trip rows of a run, tick by tick. *)
Fixpoint trip_run (st : trip_state) (ticks : list (snapshot * telemetry))
    : trip_state * list (list trip_row) :=
  match ticks with
  | [] => (st, [])
  | (s, q) :: rest =>
      let '(st1, rows) := trip_step s q st in
      let '(st2, rowss) := trip_run st1 rest in
      (st2, rows :: rowss)
  end.

(** ** The preempt_until table (steps 4 and 5)

    Step 4 stamps every touched traffic light with [t + PULSE + 0.1]; step 5
    pops every entry with [t >= stamp].  Both are computed on doubles.  The
    table is never read by a decision. *)

(** [PULSE] as the double that is added to the clock. *)
Definition PULSE_double : float := 0.8%float.

(** [preempt_until[tls_id] = t + PULSE + 0.1] *)
Definition preempt_mark (t : float) (p : gmap tls_id float) (tls : tls_id)
    : gmap tls_id float :=
  <[ tls := (t + PULSE_double + 0.1)%float ]> p.

(** The entry is kept by step 5: not [t >= preempt_until[tls_id]]. *)
Definition preempt_live (t : float) (kv : tls_id * float) : Prop :=
  (snd kv <=? t)%float = false.

Global Instance preempt_live_dec t kv : Decision (preempt_live t kv).
Proof. unfold preempt_live. apply _. Defined.

(** The table after one tick whose events are [evs]. *)
Definition preempt_step (t : float) (evs : list event) (p : gmap tls_id float)
    : gmap tls_id float :=
  filter (preempt_live t) (foldl (preempt_mark t) p (ev_tls <$> evs)).

(** * Vocabulary of the properties *)

(** What the classifier guarantees about a record: both groups hold valid
    link indices, they do not overlap, and [is_crossing] says whether the
    rail group is inhabited. *)
Record meta_ok (m : tls_info) : Prop := MetaOk {
  rail_range : forall i, i ∈ rail_idxs m -> 0 <= i < Z.of_nat (n m);
  road_range : forall i, i ∈ road_idxs m -> 0 <= i < Z.of_nat (n m);
  rail_road_disjoint : forall i, i ∈ rail_idxs m -> i ∈ road_idxs m -> False;
  crossing_rail : is_crossing m = true <-> exists i, i ∈ rail_idxs m
}.

Definition groups_below (idx : nat) (rail road : gset Z) : Prop :=
  (forall i, i ∈ rail -> 0 <= i < Z.of_nat idx) /\
  (forall i, i ∈ road -> 0 <= i < Z.of_nat idx) /\
  (forall i, i ∈ rail -> i ∈ road -> False).

(** Membership in a green map [tls_id -> set(linkIdx)]. *)
Definition in_green (d : gmap tls_id (gset Z)) (t : tls_id) (i : Z) : Prop :=
  exists g, d !! t = Some g /\ i ∈ g.

(** Every key maps to an inhabited set (true of maps only ever filled by
    [setdefault(..).add(..)]). *)
Definition all_inhabited (d : gmap tls_id (gset Z)) : Prop :=
  forall t g, d !! t = Some g -> exists i, i ∈ g.

(** Vehicle [vid] is an emergency vehicle whose next traffic light is [t],
    approached on link [link], at most [EMS_DIST] away. *)
Definition ems_claim (s : snapshot) (vid : veh_id) (t : tls_id) (link : Z) : Prop :=
  is_ems s vid = true /\
  exists dist rest, getNextTLS s vid = Some (NextTLS t link dist :: rest) /\
                    Qle_bool dist EMS_DIST = true.

(** A command that sets the speed of vehicle [v]. *)
Definition slows (c : command) (v : veh_id) : Prop :=
  exists sp du, c = SlowDown v sp du.
Definition frees (c : command) (v : veh_id) : Prop :=
  exists sp, c = SetSpeed v sp.

(** The first entry of [getNextTLS(v)], when the call succeeds and the list
    is not empty. *)
Definition next_head (s : snapshot) (v : veh_id) : option next_tls :=
  match getNextTLS s v with
  | Some (h :: _) => Some h
  | _ => None
  end.

(** Vehicle [vid] is a train whose next traffic light [t] is a known
    crossing, approached on link [link] at distance [dist]. *)
Definition train_at (s : snapshot) (meta : gmap tls_id tls_info)
    (vid : veh_id) (t : tls_id) (link : Z) (dist : Q) : Prop :=
  is_train s vid = true /\
  next_head s vid = Some (NextTLS t link dist) /\
  exists m, meta !! t = Some m /\ is_crossing m = true.

(** The four things the loop body can do with one vehicle. *)
Inductive train_step (meta : gmap tls_id tls_info) (blocked : gset tls_id)
    (s : snapshot) (vid : veh_id) (st : train_state) : train_state -> Prop :=
| step_skip :
    (forall t l d, ~ train_at s meta vid t l d) ->
    train_step meta blocked s vid st st
| step_far t l d :
    train_at s meta vid t l d -> Qltb d TRAIN_WARN_DIST = false ->
    train_step meta blocked s vid st st
| step_hold t l d :
    train_at s meta vid t l d -> Qltb d TRAIN_WARN_DIST = true ->
    t ∈ blocked -> 0 < hold_get (train_hold_left st) (t, vid) ->
    train_step meta blocked s vid st
      (TrainState (train_near st ∪ {[ t ]}) (train_green st)
         (<[ (t, vid) := hold_get (train_hold_left st) (t, vid) - 1 ]> (train_hold_left st))
         (train_cmds st ++ [SlowDown vid (slow_target d) 3]))
| step_release t l d :
    train_at s meta vid t l d -> Qltb d TRAIN_WARN_DIST = true ->
    (t ∉ blocked \/ hold_get (train_hold_left st) (t, vid) <= 0) ->
    train_step meta blocked s vid st
      (TrainState (train_near st ∪ {[ t ]}) (setdefault_add (train_green st) t l)
         (train_hold_left st) (train_cmds st ++ [SetSpeed vid (-1)])).

(** A train inside the warn distance of a crossing. *)
Definition train_in_warn (s : snapshot) (meta : gmap tls_id tls_info)
    (vid : veh_id) (t : tls_id) (l : Z) : Prop :=
  exists d, train_at s meta vid t l d /\ Qltb d TRAIN_WARN_DIST = true.

(** Budgets recorded in the ledger stay within [0, TRAIN_HOLD_MAX]. *)
Definition ledger_ok (l : gmap (tls_id * veh_id) Z) : Prop :=
  forall k x, l !! k = Some x -> 0 <= x <= TRAIN_HOLD_MAX.

(** Between two ledgers, the budget of [k] was either left alone or strictly
    lowered to a recorded non-negative value. *)
Definition charged (l l' : gmap (tls_id * veh_id) Z) (k : tls_id * veh_id) : Prop :=
  exists x, l' !! k = Some x /\ 0 <= x < hold_get l k.
Definition kept_or_charged (l l' : gmap (tls_id * veh_id) Z) (k : tls_id * veh_id) : Prop :=
  l' !! k = l !! k \/ charged l l' k.

(** Reading the emitted state vector at a link index. *)
Definition green_at (st : string) (i : Z) : Prop :=
  String.get (Z.to_nat i) st = Some sig_G.
Definition red_at (st : string) (i : Z) : Prop :=
  String.get (Z.to_nat i) st = Some sig_r.

(** Road and rail are never green together in a state vector. *)
Definition exclusive (m : tls_info) (st : string) : Prop :=
  forall i j, i ∈ road_idxs m -> j ∈ rail_idxs m ->
              ~ (green_at st i /\ green_at st j).

(** What the mover guarantees about a tick's answers: every listed vehicle
    can be queried, and the traffic light and link index it reports exist. *)
Definition wf_snapshot (meta : gmap tls_id tls_info) (s : snapshot) : Prop :=
  forall vid, vid ∈ getIDList s ->
    is_Some (getNextTLS s vid) /\
    forall t link d, next_head s vid = Some (NextTLS t link d) ->
      exists m, meta !! t = Some m /\ 0 <= link < Z.of_nat (n m).

(** Trains inside the warn distance arrive on links of the rail group. *)
Definition trains_on_rail (meta : gmap tls_id tls_info) (s : snapshot) : Prop :=
  forall vid t l m, vid ∈ getIDList s -> train_in_warn s meta vid t l ->
                    meta !! t = Some m -> l ∈ rail_idxs m.

(** Some emergency vehicle claims [t] this tick. *)
Definition ems_blocked (s : snapshot) (t : tls_id) : Prop :=
  exists ev j, ev ∈ getIDList s /\ ems_claim s ev t j.

(** Train [v] is inside the warn distance of crossing [t] while an emergency
    vehicle claims [t]; vehicle ids are listed once. *)
Definition hold_scene (meta : gmap tls_id tls_info) (s : snapshot)
    (t : tls_id) (v : veh_id) : Prop :=
  NoDup (getIDList s) /\ v ∈ getIDList s /\
  (exists l, train_in_warn s meta v t l) /\ ems_blocked s t.

(** The tick slowed train [v] down on its way to [t]. *)
Definition is_slow_down (v : veh_id) (c : command) : bool :=
  match c with
  | SlowDown v' _ _ => bool_decide (v' = v)
  | _ => false
  end.

Definition heldb (s : snapshot) (o : tick_out) (t : tls_id) (v : veh_id) : bool :=
  existsb (is_slow_down v) (out_cmds o) &&
  match next_head s v with
  | Some h => bool_decide (nt_tls h = t)
  | None => false
  end.

Fixpoint held_flags (ss : list snapshot) (os : list tick_out)
    (t : tls_id) (v : veh_id) : list bool :=
  match ss, os with
  | s :: ss', o :: os' => heldb s o t v :: held_flags ss' os' t v
  | _, _ => []
  end.

(** Length of the longest run of consecutive [true]s. *)
Fixpoint streaks (cur best : nat) (bs : list bool) : nat :=
  match bs with
  | [] => Nat.max cur best
  | true :: rest => streaks (S cur) best rest
  | false :: rest => streaks 0 (Nat.max cur best) rest
  end.

Definition longest_streak (bs : list bool) : nat := streaks 0 0 bs.

(** The tick served the EMS claim on [t]: the one event of [t] is the
    ems_preempt decision whose green set [g] is the set of links claimed at
    [t] this tick; the vector was written, its rail links are red and the
    links of [g] outside the rail group are green.  Link by link: a link is
    'G' exactly when it is claimed and outside the rail group, and 'r'
    exactly when it is a rail link or unclaimed. *)
Definition ems_served (meta : gmap tls_id tls_info) (s : snapshot)
    (o : tick_out) (t : tls_id) : Prop :=
  exists m g st,
    meta !! t = Some m /\
    (forall j, j ∈ g <-> exists v, v ∈ getIDList s /\ ems_claim s v t j) /\
    build_state (n m) g (rail_idxs m) = Some st /\
    Event (getTime s) ems_preempt src_ems t st ∈ out_events o /\
    (forall e, e ∈ out_events o -> ev_tls e = t ->
               e = Event (getTime s) ems_preempt src_ems t st) /\
    SetRedYellowGreenState t st ∈ out_cmds o /\
    (forall j, j ∈ rail_idxs m -> red_at st j) /\
    (forall j, j ∈ g -> j ∉ rail_idxs m -> green_at st j) /\
    (forall j, 0 <= j < Z.of_nat (n m) ->
       (green_at st j <-> j ∈ g /\ (j ∉ rail_idxs m)) /\
       (red_at st j <-> j ∈ rail_idxs m \/ j ∉ g)).

(** What the vector logged for [t] shows on the link of train [v] while [t]
    is EMS-claimed: 'G' exactly when an emergency vehicle claims that very
    link and the link is outside the rail group, 'r' otherwise. *)
Definition train_link_shown (meta : gmap tls_id tls_info) (s : snapshot)
    (o : tick_out) (t : tls_id) (v : veh_id) : Prop :=
  forall l m e, train_in_warn s meta v t l -> meta !! t = Some m ->
    e ∈ out_events o -> ev_tls e = t ->
    (green_at (ev_state e) l <->
       (l ∉ rail_idxs m) /\ exists ev, ev ∈ getIDList s /\ ems_claim s ev t l) /\
    (red_at (ev_state e) l <->
       l ∈ rail_idxs m \/ ~ exists ev, ev ∈ getIDList s /\ ems_claim s ev t l).

(** The tick held train [v] before [t]: the budget left is [left_after],
    and the one speed command sent to [v] is the slowdown of its distance
    band (so [v] took no branch that adds a link to the train-green set). *)
Definition held_outcome (meta : gmap tls_id tls_info) (s : snapshot)
    (o : tick_out) (t : tls_id) (v : veh_id) (left_after : Z) : Prop :=
  out_ledger o !! (t, v) = Some left_after /\
  forall l d, train_at s meta v t l d ->
    SlowDown v (slow_target d) 3 ∈ out_cmds o /\
    forall c, c ∈ out_cmds o -> slows c v \/ frees c v ->
              c = SlowDown v (slow_target d) 3.

(** The tick released train [v] before [t]: the ledger entry is kept at
    [left_after], the one speed command sent to [v] is [setSpeed(v, -1)],
    and the link of [v] is in the train-green set of the tick. *)
Definition released_outcome (meta : gmap tls_id tls_info)
    (ledger : gmap (tls_id * veh_id) Z) (s : snapshot)
    (o : tick_out) (t : tls_id) (v : veh_id) (left_after : Z) : Prop :=
  out_ledger o !! (t, v) = Some left_after /\
  SetSpeed v (-1) ∈ out_cmds o /\
  (forall c, c ∈ out_cmds o -> slows c v \/ frees c v -> c = SetSpeed v (-1)) /\
  exists es ts,
    ems_phase s (getIDList s) ems_init = Some es /\
    train_phase meta (blocked_tls es) s (getIDList s)
      (TrainState ∅ ∅ ledger (ems_cmds es)) = Some ts /\
    forall l, train_in_warn s meta v t l -> in_green (train_green ts) t l.

(** The ledger a run enters its tick number [i] with (counting from 0). *)
Definition ledger_before (ledger : gmap (tls_id * veh_id) Z)
    (os : list tick_out) (i : nat) : gmap (tls_id * veh_id) Z :=
  match i with
  | O => ledger
  | S j => default ∅ (out_ledger <$> os !! j)
  end.

(** ** A small city used for the concrete runs *)

(** Crossing "X": link 0 from road edge main_in, link 1 from rail edge
    rail_a, link 2 from road edge side_in.  Traffic light "Z" reports no
    controlled links at all.  Lane ids are the edge id followed by "_0". *)
Definition city : network :=
  Network ["X"; "Z"]%string
    (fun t => if bool_decide (t = "X"%string)
              then [[("main_in_0", "main_out_0", "v0")];
                    [("rail_a_0", "rail_b_0", "v1")];
                    [("side_in_0", "side_out_0", "v2")]]%string
              else [])
    (fun lane => String.substring 0 (String.length lane - 2) lane).

Definition city_X : tls_info :=
  TlsInfo 3 {[ 1 ]} {[ 0; 2 ]}
    (<[ "side_in"%string := [2] ]> (<[ "main_in"%string := [0] ]> ∅)) true.
Definition city_Z : tls_info := TlsInfo 0 ∅ ∅ ∅ false.
Definition city_meta : gmap tls_id tls_info :=
  <[ "Z"%string := city_Z ]> (<[ "X"%string := city_X ]> ∅).

Definition type_of (types : list (veh_id * string)) (v : veh_id) : string :=
  default "passenger"%string
    ((fun p => snd (snd p)) <$> list_find (fun p => bool_decide (p.1 = v)) types).

Definition route_of (routes : list (veh_id * list next_tls)) (v : veh_id)
    : option (list next_tls) :=
  (fun p => snd (snd p)) <$> list_find (fun p => bool_decide (p.1 = v)) routes.

(** Ambulance e1 50 m before X on link 0; train t1 100 m before X on link 1. *)
Definition snap_ems_train : snapshot :=
  Snapshot 1 ["e1"; "t1"]%string
    (type_of [("e1", "emergency"); ("t1", "train")]%string)
    (route_of [("e1", [NextTLS "X" 0 50]); ("t1", [NextTLS "X" 1 100])]%string).

(** Ambulance e1 50 m before X, but approaching on link 1, the rail link. *)
Definition snap_ems_on_rail : snapshot :=
  Snapshot 1 ["e1"]%string
    (type_of [("e1", "emergency")]%string)
    (route_of [("e1", [NextTLS "X" 1 50])]%string).

(** A second network.  Crossing "Y" has two tracks: link 1 comes from edge
    rail_a, link 0 from edge n2c_rail, named the way scripts/soul_train.py
    names tracks ("_rail" inside the id) and not with the "rail_" prefix
    [analyze_tls] looks for; link 2 comes from road edge w2c.  So link 0
    lands in the road group. *)
Definition depot : network :=
  Network ["Y"]%string
    (fun t => if bool_decide (t = "Y"%string)
              then [[("n2c_rail_0", "c2s_rail_0", "v0")];
                    [("rail_a_0", "rail_b_0", "v1")];
                    [("w2c_0", "c2e_0", "v2")]]%string
              else [])
    (fun lane => String.substring 0 (String.length lane - 2) lane).

Definition depot_Y : tls_info :=
  TlsInfo 3 {[ 1 ]} {[ 0; 2 ]}
    (<[ "w2c"%string := [2] ]> (<[ "n2c_rail"%string := [0] ]> ∅)) true.
Definition depot_meta : gmap tls_id tls_info := <[ "Y"%string := depot_Y ]> ∅.

(** Two trains before Y, 100 m away: t1 on link 1, t2 on link 0. *)
Definition snap_two_trains : snapshot :=
  Snapshot 1 ["t1"; "t2"]%string
    (type_of [("t1", "train"); ("t2", "train")]%string)
    (route_of [("t1", [NextTLS "Y" 1 100]); ("t2", [NextTLS "Y" 0 100])]%string).

(** Ambulance e1 50 m and train t2 100 m before Y, both on link 0 (the
    track that is classified road). *)
Definition snap_shared_link : snapshot :=
  Snapshot 1 ["e1"; "t2"]%string
    (type_of [("e1", "emergency"); ("t2", "train")]%string)
    (route_of [("e1", [NextTLS "Y" 0 50]); ("t2", [NextTLS "Y" 0 100])]%string).

(** Only a passenger car near X. *)
Definition snap_idle : snapshot :=
  Snapshot 1 ["c1"]%string
    (type_of [("c1", "passenger")]%string)
    (route_of [("c1", [NextTLS "X" 0 30])]%string).

(** Train t1 has passed X; its next traffic light is now "W". *)
Definition snap_moved_on : snapshot :=
  Snapshot 2 ["t1"]%string
    (type_of [("t1", "train")]%string)
    (route_of [("t1", [NextTLS "W" 0 300])]%string).

(** What the controller is expected to do on these snapshots. *)
Definition ems_cmds_e1 : list command :=
  [SetLaneChangeMode "e1" 0; SetSpeedMode "e1" 0]%string.
Definition write_state (t : tls_id) (st : string) : list command :=
  [SetRedYellowGreenState t st; SetPhaseDuration t PULSE].
Definition write_X (st : string) : list command := write_state "X" st.
Definition key_X_t1 : tls_id * veh_id := ("X", "t1")%string.

(** [snap_ems_train] with budget left: t1 is slowed, X shows the EMS link only. *)
Definition out_hold (left_after : Z) : tick_out :=
  TickOut {[ key_X_t1 := left_after ]}
    (ems_cmds_e1 ++ [SlowDown "t1" 6 3] ++ write_X "Grr")
    [Event 1 ems_preempt src_ems "X" "Grr"].

(** [snap_ems_train] with the budget at zero: t1 is released, X is unchanged. *)
Definition out_release : tick_out :=
  TickOut {[ key_X_t1 := 0 ]}
    (ems_cmds_e1 ++ [SetSpeed "t1" (-1)] ++ write_X "Grr")
    [Event 1 ems_preempt src_ems "X" "Grr"].

(** [snap_ems_on_rail]: X is preempted for e1, yet every link is red. *)
Definition out_ems_on_rail : tick_out :=
  TickOut ∅ (ems_cmds_e1 ++ write_X "rrr")
    [Event 1 ems_preempt src_ems "X" "rrr"].

(** [snap_two_trains]: both trains are let through, Y shows links 0 and 1 green. *)
Definition out_two_trains : tick_out :=
  TickOut ∅
    ([SetSpeed "t1" (-1); SetSpeed "t2" (-1)] ++ write_state "Y" "GGr")
    [Event 1 train_request src_train "Y" "GGr"].

Definition out_idle : tick_out :=
  TickOut ∅ (write_X "GrG") [Event 1 road_keep_green src_controller "X" "GrG"].

Definition out_moved_on : tick_out :=
  TickOut {[ key_X_t1 := 5 ]} (write_X "GrG")
    [Event 2 road_keep_green src_controller "X" "GrG"].

(** Thirteen ticks in a row with the ambulance before X and the train in
    the warn zone: twelve holds, then the release. *)
Definition run13 : list snapshot := replicate 13 snap_ems_train.
Definition outs13 : list tick_out :=
  (out_hold <$> [11; 10; 9; 8; 7; 6; 5; 4; 3; 2; 1; 0]) ++ [out_release].

(** ** Vocabulary for the state vector and the classifier *)

(** Some index of [idxs] denotes position [k] of a list of length [len]
    under Python indexing. *)
Definition denotes (len : nat) (idxs : gset Z) (k : nat) : Prop :=
  exists i, i ∈ idxs /\ py_index len i = Some k.

(** The classification test of [analyze_tls] on one controlled link:
    [None] when the link has no connection (so [triples[0]] raises). *)
Definition link_is_rail (net : network)
    (triples : list (string * string * string)) : option bool :=
  match triples with
  | [] => None
  | (inc_lane, _, _) :: _ => Some (String.prefix "rail_" (getEdgeID net inc_lane))
  end.

(** The incoming edge of one controlled link. *)
Definition link_edge (net : network)
    (triples : list (string * string * string)) : option string :=
  match triples with
  | [] => None
  | (inc_lane, _, _) :: _ => Some (getEdgeID net inc_lane)
  end.

(** Link index [i] is listed under edge [e] in an edge index. *)
Definition edge_lists (inc : gmap string (list Z)) (e : string) (i : Z) : Prop :=
  exists l, inc !! e = Some l /\ i ∈ l.

(** Link number [idx] of [ctrl] is classified rail ([true]) or road
    ([false]). *)
Definition link_class (net : network)
    (ctrl : list (list (string * string * string))) (idx : nat) (b : bool) : Prop :=
  exists tr, ctrl !! idx = Some tr /\ link_is_rail net tr = Some b.

(** Link number [idx] of [ctrl] is a road link fed by edge [e]. *)
Definition road_link_of (net : network)
    (ctrl : list (list (string * string * string))) (idx : nat) (e : string) : Prop :=
  exists tr, ctrl !! idx = Some tr /\ link_is_rail net tr = Some false /\
             link_edge net tr = Some e.

(** Lists of an edge index built up to link number [idx]: never empty,
    strictly increasing, below [idx], and never under a "rail_" edge. *)
Definition edge_index_below (idx : nat) (inc : gmap string (list Z)) : Prop :=
  forall e l, inc !! e = Some l ->
    l <> [] /\ StronglySorted Z.lt l /\ String.prefix "rail_" e = false /\
    forall i, i ∈ l -> i < Z.of_nat idx.

(** ** Vocabulary for the ledger and the command trace *)

(** Every entry has a budget in [0, TRAIN_HOLD_MAX - 1] and tracks a
    crossing of [tls_meta]. *)
Definition ledger_sound (meta : gmap tls_id tls_info)
    (l : gmap (tls_id * veh_id) Z) : Prop :=
  forall t v x, l !! (t, v) = Some x ->
    0 <= x < TRAIN_HOLD_MAX /\
    exists m, meta !! t = Some m /\ is_crossing m = true.

(** Number of ticks, in a list of per-tick flags, in which the pair was held. *)
Definition held_count (bs : list bool) : nat := length (filter Is_true bs).

(** The command is one of the two writes of step 4. *)
Definition signal_write (c : command) : Prop :=
  (exists t st, c = SetRedYellowGreenState t st) \/
  (exists t, c = SetPhaseDuration t PULSE).

(** A third network: its only traffic light "P" is a plain road
    intersection with two links.  Ambulance e1 is 40 m before P on link 1. *)
Definition plain_P : tls_info := TlsInfo 2 ∅ {[ 0; 1 ]} ∅ false.
Definition plain_meta : gmap tls_id tls_info := <[ "P"%string := plain_P ]> ∅.
Definition snap_ems_plain : snapshot :=
  Snapshot 1 ["e1"]%string (type_of [("e1", "emergency")]%string)
    (route_of [("e1", [NextTLS "P" 1 40])]%string).
Definition out_ems_plain : tick_out :=
  TickOut ∅ (ems_cmds_e1 ++ write_state "P" "rG")
    [Event 1 ems_preempt src_ems "P" "rG"].

(** ** Vocabulary for the trip log *)

(** Simulation time, recorded type and recorded route of the first tick of
    a run that lists [vid]. *)
Fixpoint first_listing (ticks : list (snapshot * telemetry)) (vid : veh_id)
    : option (float * string * string) :=
  match ticks with
  | [] => None
  | (s, q) :: rest =>
      if bool_decide (vid ∈ getIDList s)
      then Some (clock q,
                 default "unknown"%string (type_query q vid),
                 default "unknown"%string (getRouteID q vid))
      else first_listing rest vid
  end.

(** What the three dicts say about [vid]. *)
Definition trip_record (st : trip_state) (vid : veh_id)
    : option (float * string * string) :=
  match od_get (depart_times st) vid with
  | Some t =>
      Some (t, default "unknown"%string (veh_types st !! vid),
               default "unknown"%string (veh_routes st !! vid))
  | None => None
  end.

(** The trip state after the ticks [pre]: the dicts record the first
    listing of every vehicle, keys are distinct. *)
Definition trip_inv (pre : list (snapshot * telemetry)) (st : trip_state) : Prop :=
  (forall vid, trip_record st vid = first_listing pre vid) /\
  NoDup (fst <$> depart_times st).

(** The first loop of a tick with answers [s], [q], after the ids [seen]
    have been processed. *)
Definition departures_upto (s : snapshot) (q : telemetry)
    (pre : list (snapshot * telemetry))
    (seen : list veh_id) (st : trip_state) : Prop :=
  (forall vid, trip_record st vid =
     match first_listing pre vid with
     | Some x => Some x
     | None =>
         if bool_decide (vid ∈ seen)
         then Some (clock q, default "unknown"%string (type_query q vid),
                    default "unknown"%string (getRouteID q vid))
         else None
     end) /\
  NoDup (fst <$> depart_times st).

(** The row the second loop writes for [vid]. *)
Definition arrival_row (q : telemetry) (st : trip_state) (vid : veh_id) : trip_row :=
  TripRow vid
    (default "unknown"%string (veh_types st !! vid))
    (default "unknown"%string (veh_routes st !! vid))
    (default 0%float (od_get (depart_times st) vid))
    (clock q)
    (clock q - default 0%float (od_get (depart_times st) vid))%float.

(** Two passenger cars for the trip log, in ticks at times 0.1, 0.2, 0.4
    and 0.5: c1 is listed at 0.1 and 0.2, c2 at 0.2 and 0.4; c1's route
    query raises.  The travel time of c1 is the double 0.4 - 0.1, which is
    0.30000000000000004 and not 0.3. *)
Definition car_probe (t : float) : telemetry :=
  Telemetry t (fun _ => Some "passenger"%string)
            (fun v => if bool_decide (v = "c2"%string) then Some "r_west"%string else None).
Definition car_list (t : Q) (ids : list veh_id) : snapshot :=
  Snapshot t ids (fun _ => "passenger"%string) (fun _ => Some []).
Definition trip_ticks : list (snapshot * telemetry) :=
  [(car_list (1 # 10) ["c1"]%string, car_probe 0.1);
   (car_list (2 # 10) ["c1"; "c2"]%string, car_probe 0.2);
   (car_list (4 # 10) ["c2"]%string, car_probe 0.4);
   (car_list (5 # 10) []%string, car_probe 0.5)].
Definition trip_row_c1 : trip_row :=
  TripRow "c1" "passenger" "unknown" 0.1 0.4 0.30000000000000004.
Definition trip_row_c2 : trip_row :=
  TripRow "c2" "passenger" "r_west" 0.2 0.5 0.3.
Definition trip_rows_expected : list (list trip_row) :=
  [[]; []; [trip_row_c1]; [trip_row_c2]].

(** The preempt_until table of a tick at 0.9 that writes "P", and the same
    entry with the stamp computed without rounding. *)
Definition event_P : event := Event (9 # 10) ems_preempt src_ems "P" "rG".
Definition preempt_P : gmap tls_id float := {[ "P"%string := 1.8000000000000003%float ]}.
Definition preempt_P_exact : gmap tls_id float := {[ "P"%string := 1.8%float ]}.

(** * Properties *)

Example build_state_ex1 : build_state 4 {[ 2 ]} {[ 3 ]} = Some "rrGr"%string.
Proof. vm_compute. reflexivity. Qed.
Example build_state_ex2 : build_state 4 {[ 2; -1 ]} {[ 3 ]} = Some "rrGr"%string.
Proof. vm_compute. reflexivity. Qed.
Example build_state_ex3 : build_state 4 {[ 4 ]} ∅ = None.
Proof. vm_compute. reflexivity. Qed.


(** ** Signal-state vectors *)

Section BuildState.

Lemma string_get_of_list (l : list ascii) (k : nat) :
  String.get k (string_of_list_ascii l) = l !! k.
Proof.
  revert k. induction l as [|a l IH]; intros [|k]; simpl; auto.
Qed.

Lemma py_index_lt len i k : py_index len i = Some k -> (k < len)%nat.
Proof.
  unfold py_index. repeat case_bool_decide; intros [= <-]; lia.
Qed.

Lemma py_index_nonneg len i :
  0 <= i < Z.of_nat len -> py_index len i = Some (Z.to_nat i).
Proof. intros H. unfold py_index. rewrite bool_decide_eq_true_2; auto. Qed.

Lemma set_item_length s i c s' : set_item s i c = Some s' -> length s' = length s.
Proof.
  unfold set_item. destruct (py_index _ _); intros [= <-]. apply length_insert.
Qed.

Lemma set_items_length idxs : forall s c s',
  set_items s idxs c = Some s' -> length s' = length s.
Proof.
  induction idxs as [|i idxs IH]; simpl; intros s c s' H.
  - by inversion H.
  - destruct (set_item s i c) as [s1|] eqn:E; [|done].
    rewrite (IH _ _ _ H). eapply set_item_length; eauto.
Qed.

(** A position that no index of the loop denotes keeps its content. *)
Lemma set_items_miss idxs : forall s c s' (k : nat),
  set_items s idxs c = Some s' ->
  (forall i, i ∈ idxs -> py_index (length s) i <> Some k) ->
  s' !! k = s !! k.
Proof.
  induction idxs as [|i idxs IH]; simpl; intros s c s' k H Hm.
  - by inversion H.
  - destruct (set_item s i c) as [s1|] eqn:E; [|done].
    pose proof (set_item_length _ _ _ _ E) as Hl.
    rewrite (IH s1 c s' k H).
    + unfold set_item in E. destruct (py_index (length s) i) as [j|] eqn:Ej; [|done].
      injection E as <-. apply list_lookup_insert_ne.
      intros ->. apply (Hm i); [left | done].
    + intros i' Hi'. rewrite Hl. apply Hm. by right.
Qed.

(** A position already holding [c] still holds it after the loop. *)
Lemma set_items_keep idxs : forall s c s' (k : nat),
  set_items s idxs c = Some s' -> s !! k = Some c -> s' !! k = Some c.
Proof.
  induction idxs as [|i idxs IH]; simpl; intros s c s' k H Hk.
  - by inversion H; subst.
  - destruct (set_item s i c) as [s1|] eqn:E; [|done].
    apply (IH s1 c s' k H).
    unfold set_item in E. destruct (py_index (length s) i) as [j|] eqn:Ej; [|done].
    injection E as <-. destruct (decide (j = k)) as [->|Hne].
    + apply list_lookup_insert_eq. eapply py_index_lt; eauto.
    + by rewrite list_lookup_insert_ne.
Qed.

(** A position some index of the loop denotes ends up holding [c]. *)
Lemma set_items_hit idxs : forall s c s' i (k : nat),
  set_items s idxs c = Some s' ->
  i ∈ idxs -> py_index (length s) i = Some k ->
  s' !! k = Some c.
Proof.
  induction idxs as [|i0 idxs IH]; simpl; intros s c s' i k H Hi Hk.
  - by apply elem_of_nil in Hi.
  - destruct (set_item s i0 c) as [s1|] eqn:E; [|done].
    pose proof (set_item_length _ _ _ _ E) as Hl.
    apply elem_of_cons in Hi as [->|Hi].
    + apply (set_items_keep idxs s1 c s' k H).
      unfold set_item in E. rewrite Hk in E. injection E as <-.
      apply list_lookup_insert_eq. eapply py_index_lt; eauto.
    + eapply IH; eauto. by rewrite Hl.
Qed.

Lemma set_items_ok idxs : forall s c,
  (forall i, i ∈ idxs -> 0 <= i < Z.of_nat (length s)) ->
  is_Some (set_items s idxs c).
Proof.
  induction idxs as [|i idxs IH]; simpl; intros s c H; [eauto|].
  unfold set_item. rewrite py_index_nonneg by (apply H; left).
  apply IH. intros i' Hi'. rewrite length_insert. apply H. by right.
Qed.

(** Every index the loop ran over was a legal Python index. *)
Lemma set_items_defined idxs : forall s c s' i,
  set_items s idxs c = Some s' -> i ∈ idxs -> is_Some (py_index (length s) i).
Proof.
  induction idxs as [|i0 idxs IH]; simpl; intros s c s' i H Hi.
  - by apply elem_of_nil in Hi.
  - destruct (set_item s i0 c) as [s1|] eqn:E; [|done].
    apply elem_of_cons in Hi as [->|Hi].
    + unfold set_item in E. destruct (py_index (length s) i0); eauto. done.
    + rewrite <- (set_item_length _ _ _ _ E). eapply IH; eauto.
Qed.

Lemma build_state_ok (len : nat) (greens force_red : gset Z) :
  (forall i, i ∈ greens -> 0 <= i < Z.of_nat len) ->
  (forall i, i ∈ force_red -> 0 <= i < Z.of_nat len) ->
  is_Some (build_state len greens force_red).
Proof.
  intros Hg Hr. unfold build_state.
  destruct (set_items_ok (elements greens) (replicate len sig_r) sig_G) as [s Hs].
  { intros i Hi. rewrite length_replicate. apply Hg. by apply elem_of_elements. }
  rewrite Hs.
  destruct (set_items_ok (elements force_red) s sig_r) as [s' Hs'].
  { intros i Hi. rewrite (set_items_length _ _ _ _ Hs), length_replicate.
    apply Hr. by apply elem_of_elements. }
  rewrite Hs'. eauto.
Qed.

(** Forced-red links are red in the emitted vector. *)
Lemma build_state_forced (len : nat) (greens force_red : gset Z) st i :
  build_state len greens force_red = Some st ->
  i ∈ force_red -> 0 <= i < Z.of_nat len ->
  String.get (Z.to_nat i) st = Some sig_r.
Proof.
  unfold build_state. intros H Hi Hr.
  destruct (set_items _ (elements greens) _) as [s|] eqn:Hs; [|done].
  destruct (set_items s (elements force_red) _) as [s'|] eqn:Hs'; [|done].
  injection H as <-. rewrite string_get_of_list.
  eapply set_items_hit; eauto.
  - by apply elem_of_elements.
  - rewrite (set_items_length _ _ _ _ Hs), length_replicate.
    by apply py_index_nonneg.
Qed.

(** A link outside the green set is red. *)
Lemma build_state_default (len : nat) (greens force_red : gset Z) st (k : nat) :
  build_state len greens force_red = Some st ->
  (k < len)%nat ->
  (forall i, i ∈ greens -> py_index len i <> Some k) ->
  String.get k st = Some sig_r.
Proof.
  unfold build_state. intros H Hk Hm.
  destruct (set_items _ (elements greens) _) as [s|] eqn:Hs; [|done].
  destruct (set_items s (elements force_red) _) as [s'|] eqn:Hs'; [|done].
  injection H as <-. rewrite string_get_of_list.
  assert (s !! k = Some sig_r) as Hsk.
  { rewrite (set_items_miss _ _ _ _ k Hs).
    - apply lookup_replicate_2. done.
    - intros i Hi. rewrite length_replicate. apply Hm. by apply elem_of_elements. }
  eapply set_items_keep; eauto.
Qed.

(** A green link that is not forced red is green in the emitted vector. *)
Lemma build_state_green (len : nat) (greens force_red : gset Z) st i :
  build_state len greens force_red = Some st ->
  i ∈ greens -> 0 <= i < Z.of_nat len ->
  (forall j, j ∈ force_red -> py_index len j <> Some (Z.to_nat i)) ->
  String.get (Z.to_nat i) st = Some sig_G.
Proof.
  unfold build_state. intros H Hi Hr Hm.
  destruct (set_items _ (elements greens) _) as [s|] eqn:Hs; [|done].
  destruct (set_items s (elements force_red) _) as [s'|] eqn:Hs'; [|done].
  injection H as <-. rewrite string_get_of_list.
  pose proof (set_items_length _ _ _ _ Hs) as Hl. rewrite length_replicate in Hl.
  rewrite (set_items_miss _ _ _ _ (Z.to_nat i) Hs').
  - eapply set_items_hit; eauto.
    + by apply elem_of_elements.
    + rewrite length_replicate. by apply py_index_nonneg.
  - intros j Hj. rewrite Hl. apply Hm. by apply elem_of_elements.
Qed.

End BuildState.

(** ** Topology classification *)

Section Classifier.
Variable net : network.

Lemma analyze_link_below idx triples rail road inc rail' road' inc' :
  analyze_link net idx triples (rail, road, inc) = Some (rail', road', inc') ->
  groups_below idx rail road -> groups_below (S idx) rail' road'.
Proof.
  unfold analyze_link, groups_below.
  destruct triples as [|[[inc_lane ?] ?] ?]; [done|].
  intros H (Hr & Hd & Hx).
  destruct (String.prefix _ _); injection H as <- <- <-;
    (split; [|split]); intros i; rewrite ?elem_of_union, ?elem_of_singleton;
    intros; repeat match goal with
      | H : _ \/ _ |- _ => destruct H
      end; subst; eauto;
    repeat match goal with
      | H : _ ∈ rail |- _ => apply Hr in H
      | H : _ ∈ road |- _ => apply Hd in H
      end; lia.
Qed.

Lemma analyze_links_below ctrl : forall idx rail road inc rail' road' inc',
  analyze_links net idx ctrl (rail, road, inc) = Some (rail', road', inc') ->
  groups_below idx rail road ->
  groups_below (idx + length ctrl) rail' road'.
Proof.
  induction ctrl as [|triples ctrl IH]; cbn [analyze_links length];
    intros idx rail road inc rail' road' inc' H P.
  - injection H as <- <- <-. by rewrite Nat.add_0_r.
  - destruct (analyze_link net idx triples (rail, road, inc)) as [[[r1 d1] i1]|] eqn:E; [|done].
    replace (idx + S (length ctrl))%nat with (S idx + length ctrl)%nat by lia.
    eapply IH; eauto. eapply analyze_link_below; eauto.
Qed.

Lemma analyze_tls_ok tls m : analyze_tls net tls = Some m -> meta_ok m.
Proof.
  unfold analyze_tls. intros H.
  destruct (analyze_links _ _ _ _) as [[[rail road] inc]|] eqn:E; [|done].
  injection H as <-.
  apply analyze_links_below in E as (Hr & Hd & Hx).
  2:{ unfold groups_below. split; [|split]; intros ? Hi; by apply not_elem_of_empty in Hi. }
  split; simpl; auto.
  rewrite bool_decide_eq_true. split.
  - intros Hs. apply size_pos_elem_of in Hs. exact Hs.
  - intros [i Hi]. destruct (decide (size rail = 0%nat)) as [Hz|]; [|lia].
    apply size_empty_iff in Hz. exfalso. revert Hi. rewrite elem_of_equiv_empty in Hz.
    apply Hz.
Qed.

Lemma build_tls_meta_sound ids : forall acc M,
  build_tls_meta net ids acc = Some M ->
  (forall t m, acc !! t = Some m -> analyze_tls net t = Some m) ->
  forall t m, M !! t = Some m -> analyze_tls net t = Some m.
Proof.
  induction ids as [|t0 ids IH]; simpl; intros acc M H Hacc.
  - injection H as <-. exact Hacc.
  - destruct (analyze_tls net t0) as [m0|] eqn:E; [|done].
    eapply IH; eauto. intros t m. rewrite lookup_insert.
    case_decide; subst; [intros [= <-]; done | apply Hacc].
Qed.

Lemma startup_sound M t m :
  startup net = Some M -> M !! t = Some m -> analyze_tls net t = Some m.
Proof.
  intros H. eapply build_tls_meta_sound; eauto. intros ? ?. by rewrite lookup_empty.
Qed.

Lemma startup_ok M t m : startup net = Some M -> M !! t = Some m -> meta_ok m.
Proof. intros H Ht. eapply analyze_tls_ok, startup_sound; eauto. Qed.

End Classifier.

(** ** Green maps: [tls_id -> set(linkIdx)] *)

Lemma in_green_setdefault_add (d : gmap tls_id (gset Z)) k i t j :
  in_green (setdefault_add d k i) t j <-> in_green d t j \/ (t = k /\ j = i).
Proof.
  unfold in_green, setdefault_add. split.
  - intros (g & Hg & Hj). rewrite lookup_insert in Hg. case_decide; subst.
    + injection Hg as <-. apply elem_of_union in Hj as [Hj|Hj].
      * left. destruct (d !! t) as [g|] eqn:E; simpl in Hj; [eauto|].
        by apply not_elem_of_empty in Hj.
      * right. by apply elem_of_singleton in Hj.
    + left. eauto.
  - intros [(g & Hg & Hj)|[-> ->]].
    + destruct (decide (k = t)) as [->|Hne].
      * eexists. rewrite lookup_insert_eq. split; [done|]. rewrite Hg. simpl.
        apply elem_of_union. by left.
      * exists g. by rewrite lookup_insert_ne.
    + eexists. rewrite lookup_insert_eq. split; [done|].
      apply elem_of_union. right. by apply elem_of_singleton.
Qed.

Lemma all_inhabited_setdefault_add (d : gmap tls_id (gset Z)) k i :
  all_inhabited d -> all_inhabited (setdefault_add d k i).
Proof.
  unfold all_inhabited, setdefault_add. intros H t g. rewrite lookup_insert.
  case_decide; subst.
  - intros [= <-]. exists i. apply elem_of_union. right. by apply elem_of_singleton.
  - apply H.
Qed.

Lemma all_inhabited_empty : all_inhabited ∅.
Proof. intros t g. by rewrite lookup_empty. Qed.

Lemma in_green_dom (d : gmap tls_id (gset Z)) t :
  all_inhabited d -> (t ∈ dom d <-> exists i, in_green d t i).
Proof.
  intros H. rewrite elem_of_dom. unfold in_green. split.
  - intros [g Hg]. destruct (H _ _ Hg) as [i Hi]. eauto.
  - intros (i & g & Hg & _). eauto.
Qed.

(** ** Step 1: EMS claims *)

Section EmsPhase.
Variable s : snapshot.

(** The loop body either leaves the state alone (no claim by [vid]) or
    records the one claim [vid] makes. *)
Lemma ems_body_cases vid st st' :
  ems_body s vid st = Some st' ->
  (st' = st /\ forall t j, ~ ems_claim s vid t j) \/
  (exists t j, ems_claim s vid t j /\
     (forall t' j', ems_claim s vid t' j' -> t' = t /\ j' = j) /\
     st' = EmsState (setdefault_add (ems_green st) t j)
                    (blocked_tls st ∪ {[ t ]})
                    (ems_cmds st ++ [SetLaneChangeMode vid 0; SetSpeedMode vid 0])).
Proof.
  unfold ems_body, ems_claim. intros H.
  destruct (is_ems s vid) eqn:Ee; simpl in H.
  2:{ left. split; [congruence|]. intros t j [? _]. done. }
  destruct (getNextTLS s vid) as [[|[t0 l0 d0] rest]|] eqn:En; [| |done].
  { left. split; [congruence|]. intros t j (_ & d & r & ? & _). done. }
  destruct (Qle_bool d0 EMS_DIST) eqn:Ed.
  - right. exists t0, l0. split; [|split].
    + split; eauto.
    + intros t' j' (_ & d & r & ? & _). by simplify_eq.
    + congruence.
  - left. split; [congruence|]. intros t j (_ & d & r & ? & ?). simplify_eq. congruence.
Qed.

Lemma ems_body_spec vid st st' :
  ems_body s vid st = Some st' ->
  (forall t j, in_green (ems_green st') t j <->
               in_green (ems_green st) t j \/ ems_claim s vid t j) /\
  (forall t, t ∈ blocked_tls st' <->
             t ∈ blocked_tls st \/ exists j, ems_claim s vid t j) /\
  (all_inhabited (ems_green st) -> all_inhabited (ems_green st')) /\
  (forall c v, c ∈ ems_cmds st' -> (slows c v \/ frees c v) -> c ∈ ems_cmds st).
Proof.
  intros H. destruct (ems_body_cases _ _ _ H) as [[-> Hno]|(t0 & l0 & Hc & Hu & ->)].
  - split_and!; auto.
    + intros t j. split; [auto|]. intros [?|?]; [done|]. by destruct (Hno t j).
    + intros t. split; [auto|]. intros [?|[j ?]]; [done|]. by destruct (Hno t j).
  - simpl. split_and!.
    + intros t j. rewrite in_green_setdefault_add. split.
      * intros [?|[-> ->]]; auto.
      * intros [?|Hc']; [by left|]. right. by apply Hu.
    + intros t. rewrite elem_of_union, elem_of_singleton. split.
      * intros [?| ->]; eauto.
      * intros [?|[j Hc']]; [by left|]. right. by destruct (Hu _ _ Hc').
    + apply all_inhabited_setdefault_add.
    + intros c v Hc' Hs. apply elem_of_app in Hc' as [Hc'|Hc']; [done|].
      exfalso. unfold slows, frees in Hs.
      apply elem_of_cons in Hc' as [->|Hc'];
        [|apply elem_of_cons in Hc' as [->|Hc']; [|by apply elem_of_nil in Hc']];
        destruct Hs as [(? & ? & ?)|(? & ?)]; discriminate.
Qed.

Lemma ems_phase_spec vids : forall st st',
  ems_phase s vids st = Some st' ->
  (forall t j, in_green (ems_green st') t j <->
               in_green (ems_green st) t j \/ exists vid, vid ∈ vids /\ ems_claim s vid t j) /\
  (forall t, t ∈ blocked_tls st' <->
             t ∈ blocked_tls st \/ exists vid j, vid ∈ vids /\ ems_claim s vid t j) /\
  (all_inhabited (ems_green st) -> all_inhabited (ems_green st')) /\
  (forall c v, c ∈ ems_cmds st' -> (slows c v \/ frees c v) -> c ∈ ems_cmds st).
Proof.
  induction vids as [|vid vids IH]; cbn [ems_phase]; intros st st' H.
  - injection H as <-. split_and!; auto.
    + intros t j. split; [auto|]. intros [?|(v & Hv & _)]; [done|].
      by apply elem_of_nil in Hv.
    + intros t. split; [auto|]. intros [?|(v & j & Hv & _)]; [done|].
      by apply elem_of_nil in Hv.
  - destruct (ems_body s vid st) as [st1|] eqn:E; [|done].
    destruct (ems_body_spec _ _ _ E) as (B1 & B2 & B3 & B4).
    destruct (IH _ _ H) as (I1 & I2 & I3 & I4).
    split; [|split; [|split]].
    + intros t j. rewrite I1, B1. setoid_rewrite elem_of_cons. naive_solver.
    + intros t. rewrite I2, B2. setoid_rewrite elem_of_cons. naive_solver.
    + auto.
    + eauto.
Qed.

Lemma ems_phase_ok vids : forall st,
  (forall vid, vid ∈ vids -> is_Some (getNextTLS s vid)) ->
  is_Some (ems_phase s vids st).
Proof.
  induction vids as [|vid vids IH]; cbn [ems_phase]; intros st H; [eauto|].
  destruct (H vid) as [l Hl]; [left|].
  assert (is_Some (ems_body s vid st)) as [st1 ->].
  { unfold ems_body. rewrite Hl. destruct (negb _); [eauto|].
    destruct l as [|[? ? d] ?]; [eauto|]. destruct (Qle_bool d EMS_DIST); eauto. }
  apply IH. intros v Hv. apply H. by right.
Qed.

End EmsPhase.

(** ** Step 2: trains *)

Section TrainPhase.
Variable meta : gmap tls_id tls_info.
Variable blocked : gset tls_id.
Variable s : snapshot.

Lemma train_at_fun vid t l d t' l' d' :
  train_at s meta vid t l d -> train_at s meta vid t' l' d' ->
  t' = t /\ l' = l /\ d' = d.
Proof. intros (_ & H1 & _) (_ & H2 & _). rewrite H1 in H2. by simplify_eq. Qed.

Lemma train_body_step vid st st' :
  train_body meta blocked s vid st = Some st' -> train_step meta blocked s vid st st'.
Proof.
  unfold train_body. intros H.
  destruct (is_train s vid) eqn:Et; simpl in H.
  2:{ injection H as <-. apply step_skip. intros t l d (? & _). congruence. }
  destruct (getNextTLS s vid) as [[|[t l d] rest]|] eqn:En; [| |done].
  { injection H as <-. apply step_skip. intros t l d (_ & Hh & _).
    unfold next_head in Hh. by rewrite En in Hh. }
  assert (next_head s vid = Some (NextTLS t l d)) as Hh.
  { unfold next_head. by rewrite En. }
  destruct (meta !! t) as [m|] eqn:Em.
  2:{ injection H as <-. apply step_skip. intros t' l' d' (_ & Hh' & m' & Hm' & _).
      rewrite Hh in Hh'. simplify_eq. }
  destruct (is_crossing m) eqn:Ec; simpl in H.
  2:{ injection H as <-. apply step_skip. intros t' l' d' (_ & Hh' & m' & Hm' & Hc').
      rewrite Hh in Hh'. simplify_eq. congruence. }
  assert (train_at s meta vid t l d) as Hat by (split; eauto).
  destruct (Qltb d TRAIN_WARN_DIST) eqn:Ew.
  - destruct (bool_decide (t ∈ blocked)) eqn:Eb; simpl in H.
    + apply bool_decide_eq_true in Eb.
      destruct (bool_decide (0 < hold_get (train_hold_left st) (t, vid))) eqn:El;
        injection H as <-.
      * apply bool_decide_eq_true in El. by eapply step_hold.
      * apply bool_decide_eq_false in El. eapply step_release; eauto. right. lia.
    + apply bool_decide_eq_false in Eb. injection H as <-.
      eapply step_release; eauto.
  - rewrite andb_false_r in H. injection H as <-. destruct st.
    by eapply step_far.
Qed.

Lemma train_body_ok vid st :
  is_Some (getNextTLS s vid) -> is_Some (train_body meta blocked s vid st).
Proof.
  intros [l Hl]. unfold train_body. rewrite Hl.
  repeat (case_match; eauto).
Qed.

Lemma train_phase_ok vids : forall st,
  (forall vid, vid ∈ vids -> is_Some (getNextTLS s vid)) ->
  is_Some (train_phase meta blocked s vids st).
Proof.
  induction vids as [|vid vids IH]; cbn [train_phase]; intros st H; [eauto|].
  destruct (train_body_ok vid st) as [st1 ->]; [apply H; left|].
  apply IH. intros v Hv. apply H. by right.
Qed.

Lemma train_phase_app l1 : forall l2 st,
  train_phase meta blocked s (l1 ++ l2) st =
  match train_phase meta blocked s l1 st with
  | Some st1 => train_phase meta blocked s l2 st1
  | None => None
  end.
Proof.
  induction l1 as [|v l1 IH]; intros l2 st; cbn [train_phase app]; [done|].
  destruct (train_body meta blocked s v st); [apply IH | done].
Qed.

(** Where the members of [train_near] and [train_green] come from. *)
Lemma train_phase_spec vids : forall st st',
  train_phase meta blocked s vids st = Some st' ->
  (forall t, t ∈ train_near st' <->
             t ∈ train_near st \/ exists vid l, vid ∈ vids /\ train_in_warn s meta vid t l) /\
  (forall t j, in_green (train_green st') t j ->
               in_green (train_green st) t j \/
               exists vid, vid ∈ vids /\ train_in_warn s meta vid t j) /\
  (all_inhabited (train_green st) -> all_inhabited (train_green st')).
Proof.
  induction vids as [|vid vids IH]; cbn [train_phase]; intros st st' H.
  - injection H as <-. split_and!; auto.
    intros t. split; [auto|]. intros [?|(v & l & Hv & _)]; [done|].
    by apply elem_of_nil in Hv.
  - destruct (train_body meta blocked s vid st) as [st1|] eqn:E; [|done].
    destruct (IH _ _ H) as (I1 & I2 & I3). clear IH H.
    apply train_body_step in E.
    assert ((forall t, t ∈ train_near st1 <->
                t ∈ train_near st \/ exists l, train_in_warn s meta vid t l) /\
            (forall t j, in_green (train_green st1) t j ->
                in_green (train_green st) t j \/ train_in_warn s meta vid t j) /\
            (all_inhabited (train_green st) -> all_inhabited (train_green st1)))
      as (B1 & B2 & B3).
    { inversion E as [Hno|t l d Hat Hw|t l d Hat Hw Hb Hl|t l d Hat Hw Hl]; subst; simpl.
      - split_and!; auto. intros t. split; [auto|].
        intros [?|(l & d & Hat & _)]; [done|]. by destruct (Hno _ _ _ Hat).
      - split_and!; auto. intros t'. split; [auto|].
        intros [?|(l' & d' & Hat' & Hw')]; [done|].
        destruct (train_at_fun _ _ _ _ _ _ _ Hat Hat') as (-> & -> & ->). congruence.
      - split_and!; auto. intros t'. rewrite elem_of_union, elem_of_singleton. split.
        + intros [?| ->]; [by left|]. right. exists l, d. done.
        + intros [?|(l' & d' & Hat' & Hw')]; [by left|].
          destruct (train_at_fun _ _ _ _ _ _ _ Hat Hat') as (-> & -> & ->). by right.
      - split_and!.
        + intros t'. rewrite elem_of_union, elem_of_singleton. split.
          * intros [?| ->]; [by left|]. right. exists l, d. done.
          * intros [?|(l' & d' & Hat' & Hw')]; [by left|].
            destruct (train_at_fun _ _ _ _ _ _ _ Hat Hat') as (-> & -> & ->). by right.
        + intros t' j. rewrite in_green_setdefault_add.
          intros [?|[-> ->]]; [by left|]. right. exists d. done.
        + apply all_inhabited_setdefault_add. }
    split_and!.
    + intros t. rewrite I1, B1. setoid_rewrite elem_of_cons. naive_solver.
    + intros t j Hj. destruct (I2 _ _ Hj) as [Hj'|(v & Hv & Hw)].
      * destruct (B2 _ _ Hj') as [?|?]; [by left|]. right. exists vid. split; [left|done].
      * right. exists v. split; [by right|done].
    + auto.
Qed.

End TrainPhase.

(** ** The hold ledger during step 2 *)

Lemma kept_or_charged_trans l1 l2 l3 k :
  kept_or_charged l1 l2 k -> kept_or_charged l2 l3 k -> kept_or_charged l1 l3 k.
Proof.
  unfold kept_or_charged, charged, hold_get.
  intros [E1|(x1 & E1 & B1)] [E2|(x2 & E2 & B2)].
  - left. congruence.
  - right. exists x2. rewrite <- E1. done.
  - right. exists x1. split; [congruence|done].
  - right. exists x2. split; [done|]. rewrite E1 in B2. simpl in B2. lia.
Qed.

Lemma charged_trans_l l1 l2 l3 k :
  charged l1 l2 k -> kept_or_charged l2 l3 k -> charged l1 l3 k.
Proof.
  unfold kept_or_charged, charged, hold_get.
  intros (x1 & E1 & B1) [E2|(x2 & E2 & B2)].
  - exists x1. split; [congruence|done].
  - exists x2. split; [done|]. rewrite E1 in B2. simpl in B2. lia.
Qed.

Lemma charged_trans_r l1 l2 l3 k :
  kept_or_charged l1 l2 k -> charged l2 l3 k -> charged l1 l3 k.
Proof.
  unfold kept_or_charged, charged, hold_get.
  intros [E1|(x1 & E1 & B1)] (x2 & E2 & B2).
  - exists x2. rewrite <- E1. done.
  - exists x2. split; [done|]. rewrite E1 in B2. simpl in B2. lia.
Qed.

Section TrainLedger.
Variable meta : gmap tls_id tls_info.
Variable blocked : gset tls_id.
Variable s : snapshot.

(** What one loop iteration does to the ledger and the command trace. *)
Lemma train_step_ledger vid st st' :
  train_step meta blocked s vid st st' ->
  exists ext, train_cmds st' = train_cmds st ++ ext /\
    (forall c v, c ∈ ext -> slows c v \/ frees c v -> v = vid) /\
    (forall c, c ∈ ext -> slows c vid \/ frees c vid) /\
    (forall k, kept_or_charged (train_hold_left st) (train_hold_left st') k) /\
    (forall t v, v <> vid ->
       train_hold_left st' !! (t, v) = train_hold_left st !! (t, v)) /\
    (forall c t l d, c ∈ ext -> slows c vid ->
       next_head s vid = Some (NextTLS t l d) ->
       charged (train_hold_left st) (train_hold_left st') (t, vid)) /\
    (ledger_ok (train_hold_left st) -> ledger_ok (train_hold_left st')) /\
    (forall t j, in_green (train_green st) t j -> in_green (train_green st') t j).
Proof.
  intros E.
  inversion E as [Hno|t l d Hat Hw|t l d Hat Hw Hb Hl|t l d Hat Hw Hl]; subst.
  - exists []. rewrite app_nil_r. split_and!; auto; try by left.
    all: intros; exfalso; eapply elem_of_nil; eauto.
  - exists []. rewrite app_nil_r. split_and!; auto; try by left.
    all: intros; exfalso; eapply elem_of_nil; eauto.
  - eexists. split; [reflexivity|]. simpl.
    assert (charged (train_hold_left st)
              (<[(t, vid):=hold_get (train_hold_left st) (t, vid) - 1]> (train_hold_left st))
              (t, vid)) as Hch.
    { eexists. rewrite lookup_insert_eq. split; [done|lia]. }
    split_and!; auto.
    + intros c v Hc Hs. apply list_elem_of_singleton in Hc as ->.
      destruct Hs as [(? & ? & ?)|(? & ?)]; congruence.
    + intros c Hc. apply list_elem_of_singleton in Hc as ->. left. eexists _, _. done.
    + intros k. destruct (decide (k = (t, vid))) as [->|Hne]; [by right|].
      left. by rewrite lookup_insert_ne.
    + intros t' v Hv. rewrite lookup_insert_ne; [done|congruence].
    + intros c t' l' d' _ _ Hh. destruct Hat as (_ & Hh0 & _).
      rewrite Hh0 in Hh. by simplify_eq.
    + intros Hok k x. rewrite lookup_insert. case_decide; [|apply Hok].
      intros [= <-]. subst k. unfold hold_get in *.
      destruct (train_hold_left st !! (t, vid)) as [y|] eqn:Ey; simpl in *.
      * apply Hok in Ey. lia.
      * unfold TRAIN_HOLD_MAX. lia.
  - eexists. split; [reflexivity|]. simpl. split_and!; auto; try by left.
    + intros c v Hc Hs. apply list_elem_of_singleton in Hc as ->.
      destruct Hs as [(? & ? & ?)|(? & ?)]; congruence.
    + intros c Hc. apply list_elem_of_singleton in Hc as ->. right. eexists. done.
    + intros c t' l' d' Hc (? & ? & ->). by apply list_elem_of_singleton in Hc.
    + intros t' j Hj. apply in_green_setdefault_add. by left.
Qed.

Lemma train_phase_ledger vids : forall st st',
  train_phase meta blocked s vids st = Some st' ->
  exists ext, train_cmds st' = train_cmds st ++ ext /\
    (forall c v, c ∈ ext -> slows c v \/ frees c v -> v ∈ vids) /\
    (forall c, c ∈ ext -> exists v, slows c v \/ frees c v) /\
    (forall k, kept_or_charged (train_hold_left st) (train_hold_left st') k) /\
    (forall t v, v ∉ vids ->
       train_hold_left st' !! (t, v) = train_hold_left st !! (t, v)) /\
    (forall c v t l d, c ∈ ext -> slows c v ->
       next_head s v = Some (NextTLS t l d) ->
       charged (train_hold_left st) (train_hold_left st') (t, v)) /\
    (ledger_ok (train_hold_left st) -> ledger_ok (train_hold_left st')) /\
    (forall t j, in_green (train_green st) t j -> in_green (train_green st') t j).
Proof.
  induction vids as [|vid vids IH]; cbn [train_phase]; intros st st' H.
  - injection H as <-. exists []. rewrite app_nil_r. split_and!; auto; try by left.
    all: intros; exfalso; eapply elem_of_nil; eauto.
  - destruct (train_body meta blocked s vid st) as [st1|] eqn:E; [|done].
    apply train_body_step, train_step_ledger in E
      as (e1 & C1 & O1 & K1 & M1 & U1 & H1 & L1 & G1).
    destruct (IH _ _ H) as (e2 & C2 & O2 & K2 & M2 & U2 & H2 & L2 & G2).
    exists (e1 ++ e2). split_and!; auto.
    + by rewrite C2, C1, app_assoc.
    + intros c v Hc Hs. apply elem_of_app in Hc as [Hc|Hc].
      * rewrite (O1 _ _ Hc Hs). left.
      * right. eauto.
    + intros c Hc. apply elem_of_app in Hc as [Hc|Hc]; eauto.
    + intros k. eapply kept_or_charged_trans; eauto.
    + intros t v Hv. apply not_elem_of_cons in Hv as [Hne Hv].
      rewrite (U2 _ _ Hv). by apply U1.
    + intros c v t l d Hc Hs Hh. apply elem_of_app in Hc as [Hc|Hc].
      * assert (v = vid) as -> by (eapply O1; eauto).
        eapply charged_trans_l; eauto.
      * eapply charged_trans_r; eauto.
Qed.

(** With distinct vehicle ids, the loop meets [v] exactly once; around that
    one iteration the budgets of [v] and the commands sent to [v] are left
    alone. *)
Lemma train_phase_unique vids v st st' :
  NoDup vids -> v ∈ vids ->
  train_phase meta blocked s vids st = Some st' ->
  exists st1 st2 ext1 ext2,
    train_step meta blocked s v st1 st2 /\
    (forall t, train_hold_left st1 !! (t, v) = train_hold_left st !! (t, v)) /\
    (forall t, train_hold_left st' !! (t, v) = train_hold_left st2 !! (t, v)) /\
    train_cmds st1 = train_cmds st ++ ext1 /\
    train_cmds st' = train_cmds st2 ++ ext2 /\
    (forall c, c ∈ ext1 ++ ext2 -> ~ (slows c v \/ frees c v)) /\
    (forall t j, in_green (train_green st2) t j -> in_green (train_green st') t j).
Proof.
  intros Hnd Hv H.
  apply list_elem_of_split in Hv as (l1 & l2 & ->).
  apply NoDup_app in Hnd as (_ & Hd1 & Hd2).
  apply NoDup_cons in Hd2 as [Hd2 _].
  assert (v ∉ l1) as Hn1. { intros Hin. apply (Hd1 _ Hin). left. }
  rewrite train_phase_app in H.
  destruct (train_phase meta blocked s l1 st) as [st1|] eqn:E1; [|done].
  cbn [train_phase] in H.
  destruct (train_body meta blocked s v st1) as [st2|] eqn:E; [|done].
  apply train_phase_ledger in E1 as (e1 & C1 & O1 & _ & _ & U1 & _).
  apply train_phase_ledger in H as (e2 & C2 & O2 & _ & _ & U2 & _ & _ & G2).
  exists st1, st2, e1, e2. split_and!; auto.
  - by apply train_body_step.
  - intros c Hc Hs. apply elem_of_app in Hc as [Hc|Hc]; eauto.
Qed.

End TrainLedger.

(** ** Steps 3 to 5 *)

Lemma crossing_road_green_lookup (meta : gmap tls_id tls_info)
    (blocked near : gset tls_id) t g :
  crossing_road_green meta blocked near !! t = Some g <->
  exists m, meta !! t = Some m /\ is_crossing m = true /\
            (t ∉ blocked) /\ (t ∉ near) /\ g = road_idxs m.
Proof.
  unfold crossing_road_green. rewrite lookup_fmap, fmap_Some.
  setoid_rewrite map_lookup_filter_Some. unfold road_eligible. simpl.
  naive_solver.
Qed.

Lemma prune_lookup (s : snapshot) (l : gmap (tls_id * veh_id) Z) t v x :
  prune s l !! (t, v) = Some x <->
  l !! (t, v) = Some x /\ exists h, next_head s v = Some h.
Proof.
  unfold prune. rewrite map_lookup_filter_Some. unfold still_routed, next_head. simpl.
  destruct (getNextTLS s v) as [[|h ?]|]; naive_solver.
Qed.

Lemma prune_ledger_ok (s : snapshot) l : ledger_ok l -> ledger_ok (prune s l).
Proof.
  intros H k x Hk. unfold prune in Hk. apply map_lookup_filter_Some in Hk as [Hk _].
  eauto.
Qed.

Section ApplyPhase.
Variable meta : gmap tls_id tls_info.
Variable tm : Q.
Variables eg tg crg : gmap tls_id (gset Z).

Lemma apply_phase_spec touched : forall evs cs,
  apply_phase meta tm eg tg crg touched = Some (evs, cs) ->
  (forall e, e ∈ evs <->
     exists t cs0, t ∈ touched /\ apply_one meta tm eg tg crg t = Some (e, cs0)) /\
  (forall c v, c ∈ cs -> ~ (slows c v \/ frees c v)).
Proof.
  induction touched as [|t touched IH]; cbn [apply_phase]; intros evs cs H.
  - injection H as <- <-. split.
    + intros e. split; [intros He; by apply elem_of_nil in He|].
      intros (t & ? & Ht & _). by apply elem_of_nil in Ht.
    + intros c v Hc. by apply elem_of_nil in Hc.
  - destruct (apply_one meta tm eg tg crg t) as [[e0 c0]|] eqn:E; [|done].
    destruct (apply_phase meta tm eg tg crg touched) as [[es cs']|] eqn:E'; [|done].
    injection H as <- <-. destruct (IH _ _ eq_refl) as [I1 I2]. split.
    + intros e. rewrite elem_of_cons, I1. setoid_rewrite elem_of_cons. split.
      * intros [->|(t' & c' & ? & ?)]; eauto 6.
      * intros (t' & c' & [->|?] & Ha); [left; congruence|right; eauto].
    + intros c v Hc. apply elem_of_app in Hc as [Hc|Hc]; [|eauto].
      unfold apply_one in E. destruct (meta !! t); [|done].
      destruct (build_state _ _ _); [|done]. injection E as <- <-.
      unfold slows, frees.
      apply elem_of_cons in Hc as [->|Hc];
        [|apply elem_of_cons in Hc as [->|Hc]; [|by apply elem_of_nil in Hc]];
        intros [(? & ? & ?)|(? & ?)]; discriminate.
Qed.

Lemma apply_phase_ok touched :
  (forall t, t ∈ touched -> is_Some (apply_one meta tm eg tg crg t)) ->
  is_Some (apply_phase meta tm eg tg crg touched).
Proof.
  induction touched as [|t touched IH]; cbn [apply_phase]; intros H; [eauto|].
  destruct (H t) as [[e c] ->]; [left|].
  destruct IH as [[es cs] ->]; [|eauto]. intros t' Ht'. apply H. by right.
Qed.

End ApplyPhase.

(** ** Unfolding one tick *)

Lemma tick_inv meta ledger s o :
  tick meta ledger s = Some o ->
  exists es ts evs cs,
    ems_phase s (getIDList s) ems_init = Some es /\
    train_phase meta (blocked_tls es) s (getIDList s)
      (TrainState ∅ ∅ ledger (ems_cmds es)) = Some ts /\
    apply_phase meta (getTime s) (ems_green es) (train_green ts)
      (crossing_road_green meta (blocked_tls es) (train_near ts))
      (elements (touched_of (ems_green es) (train_green ts)
         (crossing_road_green meta (blocked_tls es) (train_near ts)))) = Some (evs, cs) /\
    o = TickOut (prune s (train_hold_left ts)) (train_cmds ts ++ cs) evs.
Proof.
  unfold tick. intros H. cbv zeta in H.
  destruct (ems_phase _ _ _) as [es|] eqn:E1; [|done].
  destruct (train_phase _ _ _ _ _) as [ts|] eqn:E2; [|done].
  destruct (apply_phase _ _ _ _ _ _) as [[evs cs]|] eqn:E3; [|done].
  injection H as <-. exists es, ts, evs, cs. done.
Qed.

(** ** The concrete city *)

Example city_startup : startup city = Some city_meta.
Proof. vm_compute. reflexivity. Qed.

(** ** One tick, phase by phase *)

Section Tick.
Variable meta : gmap tls_id tls_info.
Variable s : snapshot.

(** Step 1 run from the empty maps. *)
Lemma ems_phase_init es :
  ems_phase s (getIDList s) ems_init = Some es ->
  (forall t j, in_green (ems_green es) t j <->
               exists vid, vid ∈ getIDList s /\ ems_claim s vid t j) /\
  (forall t, t ∈ blocked_tls es <-> ems_blocked s t) /\
  (forall t, t ∈ dom (ems_green es) <-> ems_blocked s t) /\
  (forall c v, c ∈ ems_cmds es -> ~ (slows c v \/ frees c v)).
Proof.
  intros H. apply ems_phase_spec in H as (I1 & I2 & I3 & I4).
  assert (forall t j, in_green (ems_green es) t j <->
               exists vid, vid ∈ getIDList s /\ ems_claim s vid t j) as G.
  { intros t j. rewrite I1. split; [|eauto]. intros [(g & Hg & _)|?]; [|done].
    simpl in Hg. by rewrite lookup_empty in Hg. }
  split_and!; auto.
  - intros t. rewrite I2. unfold ems_blocked. split.
    + intros [Hb|?]; [|done]. simpl in Hb. by apply not_elem_of_empty in Hb.
    + eauto.
  - intros t. rewrite in_green_dom by (apply I3, all_inhabited_empty).
    unfold ems_blocked. setoid_rewrite G. naive_solver.
  - intros c v Hc Hs. apply (I4 _ _ Hc) in Hs. simpl in Hs. by apply elem_of_nil in Hs.
Qed.

(** Step 2 run from the empty sets. *)
Lemma train_phase_init blocked ledger cmds ts :
  train_phase meta blocked s (getIDList s) (TrainState ∅ ∅ ledger cmds) = Some ts ->
  (forall t, t ∈ train_near ts <->
             exists vid l, vid ∈ getIDList s /\ train_in_warn s meta vid t l) /\
  (forall t j, in_green (train_green ts) t j ->
               exists vid, vid ∈ getIDList s /\ train_in_warn s meta vid t j) /\
  (forall t, t ∈ dom (train_green ts) -> t ∈ train_near ts).
Proof.
  intros H. apply train_phase_spec in H as (I1 & I2 & I3). simpl in *.
  assert (forall t j, in_green (train_green ts) t j ->
               exists vid, vid ∈ getIDList s /\ train_in_warn s meta vid t j) as G.
  { intros t j Hj. destruct (I2 _ _ Hj) as [(g & Hg & _)|?]; [|done].
    by rewrite lookup_empty in Hg. }
  split_and!; auto.
  - intros t. rewrite I1. split; [|eauto]. intros [Hb|?]; [|done].
    by apply not_elem_of_empty in Hb.
  - intros t Ht. apply in_green_dom in Ht as [j Hj]; [|apply I3, all_inhabited_empty].
    apply I1. right. destruct (G _ _ Hj) as (vid & ? & ?). eauto.
Qed.

End Tick.

(** ** Resolution *)

Section Resolve.
Variable m : tls_info.
Variables eg tg crg : gmap tls_id (gset Z).
Variable t : tls_id.

Lemma resolve_ems g :
  eg !! t = Some g ->
  resolve m eg tg crg t = Decision_ g (rail_idxs m) ems_preempt src_ems.
Proof. intros H. unfold resolve. by rewrite H. Qed.

Lemma resolve_train g :
  eg !! t = None -> tg !! t = Some g -> crg !! t = None ->
  resolve m eg tg crg t = Decision_ g ∅ train_request src_train.
Proof.
  intros H1 H2 H3. unfold resolve. rewrite H1, H2, H3. f_equal.
  apply (left_id_L ∅ (∪)).
Qed.

Lemma resolve_road g :
  eg !! t = None -> tg !! t = None -> crg !! t = Some g ->
  resolve m eg tg crg t = Decision_ g ∅ road_keep_green src_controller.
Proof.
  intros H1 H2 H3. unfold resolve. rewrite H1, H2, H3. f_equal.
  apply (left_id_L ∅ (∪)).
Qed.

Lemma resolve_not_other :
  t ∈ touched_of eg tg crg -> d_event_type (resolve m eg tg crg t) <> other.
Proof.
  unfold touched_of, resolve. rewrite !elem_of_union, !elem_of_dom.
  intros H.
  destruct (eg !! t) eqn:E1, (tg !! t) eqn:E2, (crg !! t) eqn:E3; simpl; try done.
  exfalso. destruct H as [[[? H]|[? H]]|[? H]]; congruence.
Qed.

(** The green set of a decision only draws on the three maps. *)
Lemma resolve_greens j :
  j ∈ d_greens (resolve m eg tg crg t) ->
  in_green eg t j \/ in_green tg t j \/ in_green crg t j.
Proof.
  unfold resolve, in_green.
  destruct (eg !! t) as [g1|]; simpl; [eauto|].
  destruct (tg !! t) as [g2|], (crg !! t) as [g3|]; simpl;
    rewrite ?elem_of_union; intros H; repeat destruct H as [H|H];
    try (by apply not_elem_of_empty in H); eauto 6.
Qed.

Lemma resolve_force_red j :
  j ∈ d_force_red (resolve m eg tg crg t) -> j ∈ rail_idxs m.
Proof.
  unfold resolve.
  destruct (eg !! t), (tg !! t), (crg !! t); simpl; auto;
    intros H; by apply not_elem_of_empty in H.
Qed.

End Resolve.

(** ** The events of a tick *)

Lemma apply_one_inv meta tm (eg tg crg : gmap tls_id (gset Z)) t e cs :
  apply_one meta tm eg tg crg t = Some (e, cs) ->
  exists m st,
    meta !! t = Some m /\
    build_state (n m) (d_greens (resolve m eg tg crg t))
                (d_force_red (resolve m eg tg crg t)) = Some st /\
    e = Event tm (d_event_type (resolve m eg tg crg t))
              (d_source (resolve m eg tg crg t)) t st /\
    cs = [SetRedYellowGreenState t st; SetPhaseDuration t PULSE].
Proof.
  unfold apply_one. intros H.
  destruct (meta !! t) as [m|]; [|done].
  destruct (build_state _ _ _) as [st|] eqn:E; [|done].
  injection H as <- <-. eauto 10.
Qed.

(** Every logged state vector is also the one written to the traffic light. *)
Lemma apply_phase_writes meta tm (eg tg crg : gmap tls_id (gset Z)) touched :
  forall evs cs,
  apply_phase meta tm eg tg crg touched = Some (evs, cs) ->
  forall e, e ∈ evs -> SetRedYellowGreenState (ev_tls e) (ev_state e) ∈ cs.
Proof.
  induction touched as [|t touched IH]; cbn [apply_phase]; intros evs cs H e He.
  - injection H as <- <-. by apply elem_of_nil in He.
  - destruct (apply_one meta tm eg tg crg t) as [[e0 c0]|] eqn:E; [|done].
    destruct (apply_phase meta tm eg tg crg touched) as [[es cs']|] eqn:E'; [|done].
    injection H as <- <-. apply elem_of_app.
    apply elem_of_cons in He as [->|He]; [left|right; eauto].
    apply apply_one_inv in E as (m & st & _ & _ & -> & ->). simpl. left.
Qed.

(** The pieces of a successful tick. *)
Lemma tick_view meta ledger s o :
  tick meta ledger s = Some o ->
  exists es ts cs,
    ems_phase s (getIDList s) ems_init = Some es /\
    train_phase meta (blocked_tls es) s (getIDList s)
      (TrainState ∅ ∅ ledger (ems_cmds es)) = Some ts /\
    out_ledger o = prune s (train_hold_left ts) /\
    out_cmds o = train_cmds ts ++ cs /\
    (forall c v, c ∈ cs -> ~ (slows c v \/ frees c v)) /\
    (forall e, e ∈ out_events o ->
       SetRedYellowGreenState (ev_tls e) (ev_state e) ∈ out_cmds o) /\
    (forall e, e ∈ out_events o <->
       exists t m st,
         t ∈ touched_of (ems_green es) (train_green ts)
               (crossing_road_green meta (blocked_tls es) (train_near ts)) /\
         meta !! t = Some m /\
         let d := resolve m (ems_green es) (train_green ts)
                    (crossing_road_green meta (blocked_tls es) (train_near ts)) t in
         build_state (n m) (d_greens d) (d_force_red d) = Some st /\
         e = Event (getTime s) (d_event_type d) (d_source d) t st).
Proof.
  intros H. apply tick_inv in H as (es & ts & evs & cs & E1 & E2 & E3 & ->).
  exists es, ts, cs. simpl.
  pose proof (apply_phase_writes _ _ _ _ _ _ _ _ E3) as W.
  apply apply_phase_spec in E3 as [A1 A2].
  split_and!; auto.
  - intros e He. apply elem_of_app. right. auto.
  - intros e. rewrite A1. setoid_rewrite elem_of_elements. split.
    + intros (t & cs0 & Ht & Ha).
      apply apply_one_inv in Ha as (m & st & ? & ? & ? & _). eauto 10.
    + intros (t & m & st & Ht & Hm & Hb & ->). exists t. eexists. split; [done|].
      unfold apply_one. rewrite Hm, Hb. done.
Qed.

Lemma wf_head meta s vid t j d :
  wf_snapshot meta s -> vid ∈ getIDList s ->
  next_head s vid = Some (NextTLS t j d) ->
  exists m, meta !! t = Some m /\ 0 <= j < Z.of_nat (n m).
Proof. intros Hwf Hv Hh. destruct (Hwf vid Hv) as [_ Hw]. eauto. Qed.

Lemma ems_claim_head s vid t j :
  ems_claim s vid t j -> exists d, next_head s vid = Some (NextTLS t j d).
Proof.
  intros (_ & d & r & Hn & _). exists d. unfold next_head. by rewrite Hn.
Qed.

(** Under the mover's guarantees and the classifier's, a tick never raises. *)
Lemma tick_ok meta ledger s :
  (forall t m, meta !! t = Some m -> meta_ok m) ->
  wf_snapshot meta s ->
  is_Some (tick meta ledger s).
Proof.
  intros Hm Hwf. unfold tick.
  destruct (ems_phase_ok s (getIDList s) ems_init) as [es Ees].
  { intros vid Hv. by apply Hwf. }
  rewrite Ees.
  destruct (train_phase_ok meta (blocked_tls es) s (getIDList s)
              (TrainState ∅ ∅ ledger (ems_cmds es))) as [ts Ets].
  { intros vid Hv. by apply Hwf. }
  rewrite Ets. cbv zeta.
  destruct (ems_phase_init _ _ Ees) as (G1 & _ & D1 & _).
  destruct (train_phase_init _ _ _ _ _ _ Ets) as (N1 & G2 & N3).
  set (crg := crossing_road_green meta (blocked_tls es) (train_near ts)).
  assert (forall t j, in_green (ems_green es) t j \/ in_green (train_green ts) t j \/
                      in_green crg t j ->
            exists m, meta !! t = Some m /\ 0 <= j < Z.of_nat (n m)) as Hr.
  { intros t j [Hj|[Hj|Hj]].
    - apply G1 in Hj as (vid & Hv & Hc). apply ems_claim_head in Hc as [d Hh].
      eapply wf_head; eauto.
    - apply G2 in Hj as (vid & Hv & d & (_ & Hh & _) & _).
      eapply wf_head; eauto.
    - destruct Hj as (g & Hg & Hj). apply crossing_road_green_lookup in Hg
        as (m & Hmt & _ & _ & _ & ->).
      exists m. split; [done|]. by apply (road_range m (Hm _ _ Hmt)). }
  destruct (apply_phase_ok meta (getTime s) (ems_green es) (train_green ts) crg
              (elements (touched_of (ems_green es) (train_green ts) crg)))
    as [[evs cs] ->]; [|eauto].
  intros t Ht. apply elem_of_elements in Ht.
  assert (exists m, meta !! t = Some m) as [m Hmt].
  { unfold touched_of in Ht. rewrite !elem_of_union in Ht.
    destruct Ht as [[Hd|Hd]|Hd].
    - apply D1 in Hd as (ev & j & Hv & Hc). apply ems_claim_head in Hc as [d Hh].
      destruct (wf_head _ _ _ _ _ _ Hwf Hv Hh) as (m & ? & _). eauto.
    - apply N3, N1 in Hd as (vid & l & _ & d & (_ & _ & m & ? & _) & _). eauto.
    - apply elem_of_dom in Hd as [g Hg].
      apply crossing_road_green_lookup in Hg as (m & ? & _). eauto. }
  unfold apply_one. rewrite Hmt.
  destruct (build_state_ok (n m) (d_greens (resolve m (ems_green es) (train_green ts) crg t))
              (d_force_red (resolve m (ems_green es) (train_green ts) crg t)))
    as [st ->]; [| |eauto].
  - intros j Hj. apply resolve_greens in Hj. apply Hr in Hj as (m' & Hm' & ?).
    by simplify_eq.
  - intros j Hj. apply resolve_force_red in Hj. by apply (rail_range m (Hm _ _ Hmt)).
Qed.

(** ** Concrete ticks in the small city *)

Example tick_ems_train : tick city_meta ∅ snap_ems_train = Some (out_hold 11).
Proof. vm_compute. reflexivity. Qed.

Example tick_last_hold :
  tick city_meta {[ key_X_t1 := 1 ]} snap_ems_train = Some (out_hold 0).
Proof. vm_compute. reflexivity. Qed.

Example tick_release :
  tick city_meta {[ key_X_t1 := 0 ]} snap_ems_train = Some out_release.
Proof. vm_compute. reflexivity. Qed.

Example depot_startup : startup depot = Some depot_meta.
Proof. vm_compute. reflexivity. Qed.

Example tick_two_trains : tick depot_meta ∅ snap_two_trains = Some out_two_trains.
Proof. vm_compute. reflexivity. Qed.

Example tick_idle : tick city_meta ∅ snap_idle = Some out_idle.
Proof. vm_compute. reflexivity. Qed.

Example tick_moved_on :
  tick city_meta {[ key_X_t1 := 5 ]} snap_moved_on = Some out_moved_on.
Proof. vm_compute. reflexivity. Qed.

Lemma red_not_green st i : red_at st i -> ~ green_at st i.
Proof. unfold red_at, green_at. intros -> [=]. Qed.

(** * The claims *)

(** ** C10: the tag [other] is never logged *)

(** C10. Every event record a tick emits carries one of the tags
    ems_preempt, train_request, road_keep_green: the touched intersections
    are the keys of the three green maps, so the final [else] branch of the
    resolution is never taken. *)
Theorem C10_event_tag_never_other meta ledger s o e :
  tick meta ledger s = Some o -> e ∈ out_events o ->
  ev_type e = ems_preempt \/ ev_type e = train_request \/ ev_type e = road_keep_green.
Proof.
  intros H He. apply tick_view in H as (es & ts & cs & _ & _ & _ & _ & _ & _ & Hev).
  apply Hev in He as (t & m & st & Ht & _ & _ & ->). simpl.
  pose proof (resolve_not_other m _ _ _ _ Ht) as Hno.
  destruct (d_event_type _); auto. done.
Qed.

Lemma C10_witness :
  tick city_meta ∅ snap_idle = Some out_idle /\
  Event 1 road_keep_green src_controller "X" "GrG" ∈ out_events out_idle /\
  (road_keep_green = ems_preempt \/ road_keep_green = train_request \/
   road_keep_green = road_keep_green).
Proof.
  split; [vm_compute; reflexivity|]. split; [left|].
  apply (C10_event_tag_never_other city_meta ∅ snap_idle out_idle
           (Event 1 road_keep_green src_controller "X" "GrG")).
  - vm_compute; reflexivity.
  - left.
Defined.

(** ** C9: an intersection without controlled links *)

(** C9 (as amended). The classifier does not reject an intersection that
    reports zero controlled links: [analyze_tls] returns the record with
    n = 0, empty rail and road groups, an empty edge index and
    is_crossing = False, and raises nothing. *)
Theorem C9_zero_links_give_empty_record net t :
  getControlledLinks net t = [] ->
  analyze_tls net t = Some (TlsInfo 0 ∅ ∅ ∅ false).
Proof. intros H. unfold analyze_tls. rewrite H. reflexivity. Qed.

Lemma C9_witness :
  getControlledLinks city "Z" = [] /\
  analyze_tls city "Z" = Some (TlsInfo 0 ∅ ∅ ∅ false).
Proof.
  split; [reflexivity|].
  apply (C9_zero_links_give_empty_record city "Z"). reflexivity.
Defined.

(** Startup of the small city succeeds although "Z" reports no controlled
    links, and "Z" gets the empty record: no configuration error is raised. *)
Lemma C9_counterexample :
  getControlledLinks city "Z" = [] /\
  startup city = Some city_meta /\
  city_meta !! "Z"%string = Some (TlsInfo 0 ∅ ∅ ∅ false).
Proof. split; [reflexivity|]. split; vm_compute; reflexivity. Qed.

(** ** C8: what the ledger clean-up removes *)

(** C8 (as amended). The clean-up keeps exactly the entries whose train can
    still be queried and reports a non-empty list of upcoming traffic
    lights; it never compares the reported traffic light with the one the
    entry tracks.  So an entry is removed iff its train has vanished or has
    no upcoming traffic light, and a surviving entry's train reports some
    next traffic light, not necessarily the tracked one. *)
Theorem C8_prune_keeps_routed_trains (s : snapshot)
    (l : gmap (tls_id * veh_id) Z) t v x :
  prune s l !! (t, v) = Some x <->
  l !! (t, v) = Some x /\ exists h, next_head s v = Some h.
Proof. apply prune_lookup. Qed.

(** Train t1 now reports "W" as its next traffic light, yet the entry that
    tracks ("X", t1) survives the clean-up, both in [prune] alone and in the
    ledger a whole tick returns. *)
Lemma C8_counterexample :
  next_head snap_moved_on "t1" = Some (NextTLS "W" 0 300) /\
  prune snap_moved_on {[ key_X_t1 := 5 ]} !! key_X_t1 = Some 5 /\
  (out_ledger <$> tick city_meta {[ key_X_t1 := 5 ]} snap_moved_on)
    = Some {[ key_X_t1 := 5 ]}.
Proof. split; [reflexivity|]. split; vm_compute; reflexivity. Qed.

(** ** C1: road and rail are not green together *)

(** A link outside the green set, for green sets of valid indices. *)
Lemma build_state_outside (len : nat) (greens force_red : gset Z) st i :
  build_state len greens force_red = Some st ->
  (forall j, j ∈ greens -> 0 <= j < Z.of_nat len) ->
  0 <= i < Z.of_nat len -> i ∉ greens ->
  red_at st i.
Proof.
  intros H Hg Hi Hn. unfold red_at. eapply build_state_default; eauto; [lia|].
  intros j Hj. rewrite py_index_nonneg by auto. intros [= E].
  apply Hn. assert (j = i) as -> by (specialize (Hg j Hj); lia). done.
Qed.

(** C1 (as amended). Provided every train inside the warn distance of a
    crossing approaches it on a link of that crossing's rail group (the
    controller does not check this), no state vector written in a tick has a
    road-group link and a rail-group link both 'G': under an EMS claim the
    whole rail group is forced red, a train request greens train links only,
    and the fallback greens road links only (it is disabled by any train
    inside the warn distance). *)
Theorem C1_exclusive_if_trains_on_rail net meta ledger s o e m :
  startup net = Some meta ->
  trains_on_rail meta s ->
  tick meta ledger s = Some o ->
  e ∈ out_events o ->
  meta !! ev_tls e = Some m ->
  exclusive m (ev_state e).
Proof.
  intros Hst Hrail H He Hm.
  apply tick_view in H as (es & ts & cs & Ees & Ets & _ & _ & _ & _ & Hev).
  apply Hev in He as (t & m' & st & Ht & Hm' & Hb & ->). simpl in *.
  simplify_eq. rename m' into m.
  pose proof (startup_ok _ _ _ _ Hst Hm') as Hok.
  destruct (train_phase_init _ _ _ _ _ _ Ets) as (N1 & G2 & N3).
  set (crg := crossing_road_green meta (blocked_tls es) (train_near ts)) in *.
  intros i j Hi Hj [Gi Gj].
  destruct (ems_green es !! t) as [g|] eqn:Eg.
  - (* EMS: the rail group is forced red *)
    rewrite (resolve_ems m _ _ _ _ _ Eg) in Hb. simpl in Hb.
    eapply red_not_green; [|exact Gj].
    eapply build_state_forced; eauto. by apply (rail_range m Hok).
  - destruct (train_green ts !! t) as [g2|] eqn:Et.
    + (* train request: only rail links are green *)
      assert (crg !! t = None) as Ec.
      { destruct (crg !! t) as [g3|] eqn:Ec; [|done].
        apply crossing_road_green_lookup in Ec as (? & _ & _ & _ & Hnear & _).
        destruct Hnear. apply N3. apply elem_of_dom. eauto. }
      rewrite (resolve_train m _ _ _ _ _ Eg Et Ec) in Hb. simpl in Hb.
      assert (forall k, k ∈ g2 -> k ∈ rail_idxs m) as Hg2.
      { intros k Hk. destruct (G2 t k) as (vid & Hv & Hw); [exists g2; done|].
        eapply Hrail; eauto. }
      eapply red_not_green; [|exact Gi].
      eapply build_state_outside; eauto.
      * intros k Hk. apply (rail_range m Hok). auto.
      * by apply (road_range m Hok).
      * intros Hk. apply (rail_road_disjoint m Hok i); auto.
    + (* fallback (or nothing): only road links are green *)
      eapply red_not_green; [|exact Gj].
      assert (forall k, k ∈ d_greens (resolve m (ems_green es) (train_green ts) crg t) ->
                        k ∈ road_idxs m) as Hg3.
      { intros k Hk. apply resolve_greens in Hk as [(? & ? & _)|[(? & ? & _)|(g3 & Hg3 & Hk)]];
          [congruence|congruence|].
        apply crossing_road_green_lookup in Hg3 as (m2 & ? & _ & _ & _ & ->).
        by simplify_eq. }
      eapply build_state_outside; eauto.
      * intros k Hk. apply (road_range m Hok). auto.
      * by apply (rail_range m Hok).
      * intros Hk. apply (rail_road_disjoint m Hok j); auto.
Qed.

Lemma snap_ems_train_on_rail : trains_on_rail city_meta snap_ems_train.
Proof.
  intros vid t l m Hv (d & (Ht & Hh & _) & _) Hm.
  apply elem_of_cons in Hv as [->|Hv]; [vm_compute in Ht; done|].
  apply list_elem_of_singleton in Hv as ->.
  vm_compute in Hh. injection Hh as <- <- <-.
  vm_compute in Hm. injection Hm as <-. vm_compute. done.
Qed.

Lemma C1_witness :
  startup city = Some city_meta /\
  trains_on_rail city_meta snap_ems_train /\
  tick city_meta ∅ snap_ems_train = Some (out_hold 11) /\
  Event 1 ems_preempt src_ems "X" "Grr" ∈ out_events (out_hold 11) /\
  city_meta !! "X"%string = Some city_X /\
  exclusive city_X "Grr".
Proof.
  assert (startup city = Some city_meta) as H1 by (vm_compute; reflexivity).
  assert (tick city_meta ∅ snap_ems_train = Some (out_hold 11)) as H2
    by (vm_compute; reflexivity).
  assert (Event 1 ems_preempt src_ems "X" "Grr" ∈ out_events (out_hold 11)) as H3
    by left.
  assert (city_meta !! "X"%string = Some city_X) as H4 by (vm_compute; reflexivity).
  split_and!; auto using snap_ems_train_on_rail.
  exact (C1_exclusive_if_trains_on_rail city city_meta ∅ snap_ems_train (out_hold 11)
           (Event 1 ems_preempt src_ems "X" "Grr") city_X
           H1 snap_ems_train_on_rail H2 H3 H4).
Defined.

(** Two trains wait before crossing Y, one on track rail_a (link 1, rail
    group) and one on track n2c_rail (link 0, which the "rail_" prefix test
    put in the road group): the controller writes "GGr", a road-group link
    and a rail-group link green together. *)
Lemma C1_counterexample :
  startup depot = Some depot_meta /\
  tick depot_meta ∅ snap_two_trains = Some out_two_trains /\
  Event 1 train_request src_train "Y" "GGr" ∈ out_events out_two_trains /\
  depot_meta !! "Y"%string = Some depot_Y /\
  is_crossing depot_Y = true /\
  0 ∈ road_idxs depot_Y /\ 1 ∈ rail_idxs depot_Y /\
  green_at "GGr" 0 /\ green_at "GGr" 1 /\
  ~ exclusive depot_Y "GGr".
Proof.
  assert (0 ∈ road_idxs depot_Y) as H0 by (vm_compute; done).
  assert (1 ∈ rail_idxs depot_Y) as H1 by (vm_compute; done).
  split_and!; try (vm_compute; reflexivity); auto; [left|].
  intros H. apply (H 0 1 H0 H1). split; reflexivity.
Qed.

(** ** Events of touched intersections *)

Lemma apply_phase_total meta tm (eg tg crg : gmap tls_id (gset Z)) touched :
  forall evs cs,
  apply_phase meta tm eg tg crg touched = Some (evs, cs) ->
  forall t, t ∈ touched -> is_Some (apply_one meta tm eg tg crg t).
Proof.
  induction touched as [|t0 touched IH]; cbn [apply_phase]; intros evs cs H t Ht.
  - by apply elem_of_nil in Ht.
  - destruct (apply_one meta tm eg tg crg t0) as [[e0 c0]|] eqn:E; [|done].
    destruct (apply_phase meta tm eg tg crg touched) as [[es cs']|] eqn:E'; [|done].
    apply elem_of_cons in Ht as [->|Ht]; [rewrite E; eauto|]. eauto.
Qed.

(** A touched intersection gets its event, with the state vector built from
    its resolved decision. *)
Lemma tick_touched meta ledger s o es ts t :
  tick meta ledger s = Some o ->
  ems_phase s (getIDList s) ems_init = Some es ->
  train_phase meta (blocked_tls es) s (getIDList s)
    (TrainState ∅ ∅ ledger (ems_cmds es)) = Some ts ->
  t ∈ touched_of (ems_green es) (train_green ts)
        (crossing_road_green meta (blocked_tls es) (train_near ts)) ->
  exists m st,
    meta !! t = Some m /\
    let d := resolve m (ems_green es) (train_green ts)
               (crossing_road_green meta (blocked_tls es) (train_near ts)) t in
    build_state (n m) (d_greens d) (d_force_red d) = Some st /\
    Event (getTime s) (d_event_type d) (d_source d) t st ∈ out_events o.
Proof.
  intros H Ees Ets Ht.
  apply tick_inv in H as (es' & ts' & evs & cs & E1 & E2 & E3 & ->).
  rewrite Ees in E1. injection E1 as <-. rewrite Ets in E2. injection E2 as <-.
  destruct (apply_phase_total _ _ _ _ _ _ _ _ E3 t) as [[e c] Ha].
  { by apply elem_of_elements. }
  destruct (apply_one_inv _ _ _ _ _ _ _ _ Ha) as (m & st & Hm & Hb & He & _).
  exists m, st. split; [done|]. simpl. rewrite <- He. split; [done|].
  apply apply_phase_spec in E3 as [A1 _]. apply (proj2 (A1 e)).
  exists t, c. split; [by apply elem_of_elements|exact Ha].
Qed.

(** One event per intersection and tick. *)
Lemma tick_event_unique meta ledger s o e1 e2 :
  tick meta ledger s = Some o ->
  e1 ∈ out_events o -> e2 ∈ out_events o -> ev_tls e1 = ev_tls e2 -> e1 = e2.
Proof.
  intros H H1 H2 Ht.
  apply tick_view in H as (es & ts & cs & _ & _ & _ & _ & _ & _ & Hev).
  apply Hev in H1 as (t1 & m1 & st1 & _ & Hm1 & Hb1 & ->).
  apply Hev in H2 as (t2 & m2 & st2 & _ & Hm2 & Hb2 & ->).
  simpl in *. subst t2. rewrite Hm1 in Hm2. injection Hm2 as <-.
  rewrite Hb1 in Hb2. by injection Hb2 as <-.
Qed.

(** ** C4: an EMS claim beats a train request *)



(** ** Serving an EMS claim *)

Lemma tick_ems_served meta ledger s o t :
  (forall t m, meta !! t = Some m -> meta_ok m) ->
  wf_snapshot meta s ->
  tick meta ledger s = Some o ->
  ems_blocked s t ->
  ems_served meta s o t.
Proof.
  intros Hok Hwf Ho Hbl.
  destruct (tick_view _ _ _ _ Ho) as (es & ts & cs & Ees & Ets & _ & _ & _ & Hw & _).
  destruct (ems_phase_init _ _ Ees) as (G1 & _ & D1 & _).
  assert (t ∈ dom (ems_green es)) as Hd by (by apply D1).
  destruct (tick_touched _ _ _ _ _ _ t Ho Ees Ets) as (m & st & Hm & Hb & Hin).
  { unfold touched_of. rewrite !elem_of_union. auto. }
  apply elem_of_dom in Hd as [g Hg].
  rewrite (resolve_ems m _ _ _ _ _ Hg) in Hb, Hin. simpl in Hb, Hin.
  assert (forall j, j ∈ g <-> exists v, v ∈ getIDList s /\ ems_claim s v t j) as Hgc.
  { intros j. rewrite <- G1. unfold in_green. rewrite Hg. naive_solver. }
  assert (forall j, j ∈ g -> 0 <= j < Z.of_nat (n m)) as Hgr.
  { intros j Hj. apply Hgc in Hj as (v & Hv' & Hc').
    apply ems_claim_head in Hc' as [d Hh].
    destruct (wf_head _ _ _ _ _ _ Hwf Hv' Hh) as (m' & ? & ?). by simplify_eq. }
  assert (forall j, j ∈ rail_idxs m -> red_at st j) as Hrail.
  { intros j Hj. eapply build_state_forced; eauto.
    by apply (rail_range m (Hok _ _ Hm)). }
  assert (forall j, j ∈ g -> j ∉ rail_idxs m -> green_at st j) as Hgreen.
  { intros j Hj Hnr. eapply build_state_green; eauto.
    intros k Hk. pose proof (rail_range m (Hok _ _ Hm) k Hk) as Hkr.
    rewrite py_index_nonneg by done. intros [= E].
    apply Hnr. assert (k = j) as -> by (specialize (Hgr j Hj); lia). done. }
  assert (forall j, 0 <= j < Z.of_nat (n m) -> j ∉ g -> red_at st j) as Hout.
  { intros j Hj Hng. eapply build_state_outside; eauto. }
  exists m, g, st. split_and!; auto.
  - intros e He Hte. eapply tick_event_unique; eauto.
  - apply (Hw _ Hin).
  - intros j Hj. destruct (decide (j ∈ rail_idxs m)) as [Hr|Hr];
      [|destruct (decide (j ∈ g)) as [Hjg|Hjg]].
    + pose proof (Hrail j Hr) as Hred. split; split; auto.
      * intros Hgr'. by destruct (red_not_green _ _ Hred).
      * intros [_ ?]. done.
    + pose proof (Hgreen j Hjg Hr) as Hgr'. split; split; auto.
      * intros Hred. by destruct (red_not_green _ _ Hred).
      * intros [?|?]; done.
    + pose proof (Hout j Hj Hjg) as Hred. split; split; auto.
      * intros Hgr'. by destruct (red_not_green _ _ Hred).
      * intros [? _]. done.
Qed.

(** The link of a train in the warn zone of an EMS-claimed crossing. *)
Lemma tick_train_link_shown meta ledger s o t v :
  (forall t m, meta !! t = Some m -> meta_ok m) ->
  wf_snapshot meta s ->
  tick meta ledger s = Some o ->
  ems_blocked s t -> v ∈ getIDList s ->
  train_link_shown meta s o t v.
Proof.
  intros Hok Hwf Ho Hbl Hv l m e (d & (_ & Hh & _) & _) Hm He Ht.
  destruct (tick_ems_served meta ledger s o t Hok Hwf Ho Hbl)
    as (m' & g & st & Hm' & Hg & _ & _ & Hu & _ & _ & _ & Hex).
  assert (m' = m) as -> by congruence.
  rewrite (Hu e He Ht). simpl.
  destruct (wf_head _ _ _ _ _ _ Hwf Hv Hh) as (m' & Hm'' & Hl).
  assert (m' = m) as -> by congruence.
  destruct (Hex l Hl) as [Hgr Hred]. rewrite Hgr, Hred, !Hg.
  split; [split; intros [? ?]; done|done].
Qed.

(** ** C2: emergency vehicles get their link *)

(** C2 (as amended). For every emergency vehicle listed this tick whose next
    traffic light [t] is at most EMS_DIST away, the tick logs and writes the
    ems_preempt decision for [t]: its green set [g] is exactly the set of
    links claimed at [t] by emergency vehicles this tick (so the vehicle's
    own link and those of all other claimants are in it together), and
    every rail-group link is red in the written vector.  A link is 'G' in
    that vector exactly when it is claimed and lies outside the rail group:
    the vehicle's own link is green if and only if it is not a rail link,
    and is red when it is one, because the rail group is forced red after
    the greens are set. *)
Theorem C2_ems_claim_is_served net meta ledger s vid t link :
  startup net = Some meta ->
  wf_snapshot meta s ->
  vid ∈ getIDList s ->
  ems_claim s vid t link ->
  exists o m g st,
    tick meta ledger s = Some o /\
    meta !! t = Some m /\
    (forall j, j ∈ g <-> exists v, v ∈ getIDList s /\ ems_claim s v t j) /\
    link ∈ g /\
    build_state (n m) g (rail_idxs m) = Some st /\
    Event (getTime s) ems_preempt src_ems t st ∈ out_events o /\
    (forall e, e ∈ out_events o -> ev_tls e = t ->
               e = Event (getTime s) ems_preempt src_ems t st) /\
    SetRedYellowGreenState t st ∈ out_cmds o /\
    (forall j, j ∈ rail_idxs m -> red_at st j) /\
    (forall j, j ∈ g -> j ∉ rail_idxs m -> green_at st j) /\
    (forall j, 0 <= j < Z.of_nat (n m) ->
       (green_at st j <-> j ∈ g /\ (j ∉ rail_idxs m)) /\
       (red_at st j <-> j ∈ rail_idxs m \/ j ∉ g)) /\
    (green_at st link <-> link ∉ rail_idxs m) /\
    (red_at st link <-> link ∈ rail_idxs m).
Proof.
  intros Hst Hwf Hv Hc.
  assert (forall t m, meta !! t = Some m -> meta_ok m) as Hok
    by (intros; eapply startup_ok; eauto).
  destruct (tick_ok meta ledger s Hok Hwf) as [o Ho].
  destruct (tick_ems_served meta ledger s o t Hok Hwf Ho)
    as (m & g & st & Hm & Hg & Hb & He & Hu & Hw & Hr & Hgr & Hex).
  { exists vid, link. done. }
  assert (link ∈ g) as Hlg by (apply Hg; eauto).
  assert (0 <= link < Z.of_nat (n m)) as Hl.
  { destruct (ems_claim_head _ _ _ _ Hc) as [d Hh].
    destruct (wf_head _ _ _ _ _ _ Hwf Hv Hh) as (m' & ? & ?). by simplify_eq. }
  destruct (Hex link Hl) as [Hlgr Hlred].
  exists o, m, g, st. split_and!; auto.
  - rewrite Hlgr. split; [by intros [_ ?]|done].
  - rewrite Hlred. split; [intros [?|?]; done|by left].
Qed.

Lemma snap_ems_train_wf : wf_snapshot city_meta snap_ems_train.
Proof.
  intros vid Hv.
  apply elem_of_cons in Hv as [->|Hv];
    [|apply list_elem_of_singleton in Hv as ->];
    (split; [vm_compute; eauto|]);
    intros t l d Hh; vm_compute in Hh; injection Hh as <- <- <-;
    exists city_X; (split; [vm_compute; reflexivity|vm_compute; split; congruence]).
Qed.

Lemma snap_ems_train_claim : ems_claim snap_ems_train "e1" "X" 0.
Proof.
  split; [vm_compute; reflexivity|]. exists 50%Q, []. split; vm_compute; reflexivity.
Qed.

Lemma C2_witness :
  startup city = Some city_meta /\
  wf_snapshot city_meta snap_ems_train /\
  "e1"%string ∈ getIDList snap_ems_train /\
  ems_claim snap_ems_train "e1" "X" 0 /\
  exists o m g st,
    tick city_meta ∅ snap_ems_train = Some o /\
    city_meta !! "X"%string = Some m /\
    (forall j, j ∈ g <->
       exists v, v ∈ getIDList snap_ems_train /\ ems_claim snap_ems_train v "X" j) /\
    0 ∈ g /\
    build_state (n m) g (rail_idxs m) = Some st /\
    Event (getTime snap_ems_train) ems_preempt src_ems "X" st ∈ out_events o /\
    (forall e, e ∈ out_events o -> ev_tls e = "X"%string ->
               e = Event (getTime snap_ems_train) ems_preempt src_ems "X" st) /\
    SetRedYellowGreenState "X" st ∈ out_cmds o /\
    (forall j, j ∈ rail_idxs m -> red_at st j) /\
    (forall j, j ∈ g -> j ∉ rail_idxs m -> green_at st j) /\
    (forall j, 0 <= j < Z.of_nat (n m) ->
       (green_at st j <-> j ∈ g /\ (j ∉ rail_idxs m)) /\
       (red_at st j <-> j ∈ rail_idxs m \/ j ∉ g)) /\
    (green_at st 0 <-> 0 ∉ rail_idxs m) /\
    (red_at st 0 <-> 0 ∈ rail_idxs m).
Proof.
  assert (startup city = Some city_meta) as H1 by (vm_compute; reflexivity).
  assert ("e1"%string ∈ getIDList snap_ems_train) as H3 by left.
  split; [exact H1|]. split; [exact snap_ems_train_wf|]. split; [exact H3|].
  split; [exact snap_ems_train_claim|].
  exact (C2_ems_claim_is_served city city_meta ∅ snap_ems_train "e1" "X" 0
           H1 snap_ems_train_wf H3 snap_ems_train_claim).
Defined.

Lemma snap_ems_on_rail_wf : wf_snapshot city_meta snap_ems_on_rail.
Proof.
  intros vid Hv. apply list_elem_of_singleton in Hv as ->.
  split; [vm_compute; eauto|].
  intros t l d Hh; vm_compute in Hh; injection Hh as <- <- <-.
  exists city_X. split; [vm_compute; reflexivity|vm_compute; split; congruence].
Qed.

Lemma snap_ems_on_rail_claim : ems_claim snap_ems_on_rail "e1" "X" 1.
Proof.
  split; [vm_compute; reflexivity|]. exists 50%Q, []. split; vm_compute; reflexivity.
Qed.

(** An ambulance 50 m before X on link 1, which is the rail link of X: all
    conditions of the claim hold, the decision is ems_preempt with green set
    {1}, and the vector written and logged is "rrr".  The vehicle's link is
    red, not green. *)
Lemma C2_counterexample :
  startup city = Some city_meta /\
  wf_snapshot city_meta snap_ems_on_rail /\
  "e1"%string ∈ getIDList snap_ems_on_rail /\
  ems_claim snap_ems_on_rail "e1" "X" 1 /\
  Qle_bool 50 EMS_DIST = true /\
  tick city_meta ∅ snap_ems_on_rail = Some out_ems_on_rail /\
  out_events out_ems_on_rail = [Event 1 ems_preempt src_ems "X" "rrr"] /\
  SetRedYellowGreenState "X" "rrr" ∈ out_cmds out_ems_on_rail /\
  red_at "rrr" 1 /\ ~ green_at "rrr" 1.
Proof.
  split_and!; try (vm_compute; reflexivity).
  - apply snap_ems_on_rail_wf.
  - left.
  - apply snap_ems_on_rail_claim.
  - unfold out_ems_on_rail, ems_cmds_e1. simpl. do 2 right. left.
  - intros [=].
Qed.

(** ** C7: the road group is green when nothing is around *)

(** C7. At a crossing that no emergency vehicle claims and no train is
    within the warn distance of, the tick logs and writes the
    road_keep_green decision: green set = the whole road group, forced-red
    set empty, every road link 'G' and every rail link 'r' in the vector. *)
Theorem C7_idle_crossing_keeps_road_green net meta ledger s t m :
  startup net = Some meta ->
  wf_snapshot meta s ->
  meta !! t = Some m -> is_crossing m = true ->
  ~ ems_blocked s t ->
  (forall vid l, vid ∈ getIDList s -> ~ train_in_warn s meta vid t l) ->
  exists o es ts st,
    tick meta ledger s = Some o /\
    ems_phase s (getIDList s) ems_init = Some es /\
    train_phase meta (blocked_tls es) s (getIDList s)
      (TrainState ∅ ∅ ledger (ems_cmds es)) = Some ts /\
    resolve m (ems_green es) (train_green ts)
      (crossing_road_green meta (blocked_tls es) (train_near ts)) t
      = Decision_ (road_idxs m) ∅ road_keep_green src_controller /\
    build_state (n m) (road_idxs m) ∅ = Some st /\
    Event (getTime s) road_keep_green src_controller t st ∈ out_events o /\
    (forall e, e ∈ out_events o -> ev_tls e = t ->
               e = Event (getTime s) road_keep_green src_controller t st) /\
    SetRedYellowGreenState t st ∈ out_cmds o /\
    (forall i, i ∈ road_idxs m -> green_at st i) /\
    (forall j, j ∈ rail_idxs m -> red_at st j).
Proof.
  intros Hst Hwf Hm Hc Hne Hnt.
  assert (forall t m, meta !! t = Some m -> meta_ok m) as Hok
    by (intros; eapply startup_ok; eauto).
  destruct (tick_ok meta ledger s Hok Hwf) as [o Ho].
  destruct (tick_view _ _ _ _ Ho) as (es & ts & cs & Ees & Ets & _ & _ & _ & Hw & _).
  destruct (ems_phase_init _ _ Ees) as (_ & B1 & D1 & _).
  destruct (train_phase_init _ _ _ _ _ _ Ets) as (N1 & _ & N3).
  set (crg := crossing_road_green meta (blocked_tls es) (train_near ts)) in *.
  assert (t ∉ train_near ts) as Hnn.
  { intros Hn. apply N1 in Hn as (vid & l & Hv & Hw'). by apply (Hnt vid l). }
  assert (crg !! t = Some (road_idxs m)) as Ecrg.
  { apply crossing_road_green_lookup. exists m. split_and!; auto.
    intros Hb. by apply B1 in Hb. }
  assert (ems_green es !! t = None) as Eeg.
  { apply not_elem_of_dom. intros Hd. by apply D1 in Hd. }
  assert (train_green ts !! t = None) as Etg.
  { apply not_elem_of_dom. intros Hd. by apply N3 in Hd. }
  destruct (tick_touched _ _ _ _ _ _ t Ho Ees Ets) as (m' & st & Hm' & Hb & Hin).
  { unfold touched_of. rewrite !elem_of_union. right. apply elem_of_dom. eauto. }
  rewrite Hm in Hm'. injection Hm' as <-. fold crg in Hb, Hin.
  rewrite (resolve_road m _ _ _ _ _ Eeg Etg Ecrg) in Hb, Hin. simpl in Hb, Hin.
  exists o, es, ts, st. split_and!; auto.
  - by apply resolve_road.
  - intros e He Hte. eapply tick_event_unique; eauto.
  - apply (Hw _ Hin).
  - intros i Hi. eapply build_state_green; [exact Hb|exact Hi| |].
    + by apply (road_range m (Hok _ _ Hm)).
    + intros j Hj. by apply not_elem_of_empty in Hj.
  - intros j Hj. eapply build_state_outside; [exact Hb| | |].
    + apply (road_range m (Hok _ _ Hm)).
    + by apply (rail_range m (Hok _ _ Hm)).
    + intros Hr. by apply (rail_road_disjoint m (Hok _ _ Hm) j).
Qed.

Lemma snap_idle_wf : wf_snapshot city_meta snap_idle.
Proof.
  intros vid Hv. apply list_elem_of_singleton in Hv as ->.
  split; [vm_compute; eauto|].
  intros t l d Hh; vm_compute in Hh; injection Hh as <- <- <-.
  exists city_X. split; [vm_compute; reflexivity|vm_compute; split; congruence].
Qed.

Lemma snap_idle_no_ems : ~ ems_blocked snap_idle "X".
Proof.
  intros (ev & j & Hv & He & _). apply list_elem_of_singleton in Hv as ->.
  vm_compute in He. discriminate.
Qed.

Lemma snap_idle_no_train vid l :
  vid ∈ getIDList snap_idle -> ~ train_in_warn snap_idle city_meta vid "X" l.
Proof.
  intros Hv (d & (Ht & _) & _). apply list_elem_of_singleton in Hv as ->.
  vm_compute in Ht. discriminate.
Qed.

Lemma C7_witness :
  startup city = Some city_meta /\
  wf_snapshot city_meta snap_idle /\
  city_meta !! "X"%string = Some city_X /\ is_crossing city_X = true /\
  ~ ems_blocked snap_idle "X" /\
  (forall vid l, vid ∈ getIDList snap_idle ->
                 ~ train_in_warn snap_idle city_meta vid "X" l) /\
  exists o es ts st,
    tick city_meta ∅ snap_idle = Some o /\
    ems_phase snap_idle (getIDList snap_idle) ems_init = Some es /\
    train_phase city_meta (blocked_tls es) snap_idle (getIDList snap_idle)
      (TrainState ∅ ∅ ∅ (ems_cmds es)) = Some ts /\
    resolve city_X (ems_green es) (train_green ts)
      (crossing_road_green city_meta (blocked_tls es) (train_near ts)) "X"
      = Decision_ (road_idxs city_X) ∅ road_keep_green src_controller /\
    build_state (n city_X) (road_idxs city_X) ∅ = Some st /\
    Event (getTime snap_idle) road_keep_green src_controller "X" st ∈ out_events o /\
    (forall e, e ∈ out_events o -> ev_tls e = "X"%string ->
               e = Event (getTime snap_idle) road_keep_green src_controller "X" st) /\
    SetRedYellowGreenState "X" st ∈ out_cmds o /\
    (forall i, i ∈ road_idxs city_X -> green_at st i) /\
    (forall j, j ∈ rail_idxs city_X -> red_at st j).
Proof.
  assert (startup city = Some city_meta) as H1 by (vm_compute; reflexivity).
  assert (city_meta !! "X"%string = Some city_X) as H3 by (vm_compute; reflexivity).
  assert (is_crossing city_X = true) as H4 by reflexivity.
  split_and!; auto using snap_idle_wf, snap_idle_no_ems, snap_idle_no_train.
  exact (C7_idle_crossing_keeps_road_green city city_meta ∅ snap_idle "X" city_X
           H1 snap_idle_wf H3 H4 snap_idle_no_ems snap_idle_no_train).
Defined.

(** ** The ledger across a tick *)

Lemma is_slow_down_slows v c : is_slow_down v c = true <-> slows c v.
Proof.
  unfold is_slow_down, slows. destruct c; try (split; [done|intros (? & ? & ?); done]).
  rewrite bool_decide_eq_true. split.
  - intros ->. eauto.
  - intros (? & ? & [= <-]). done.
Qed.

Lemma heldb_spec s o t v :
  heldb s o t v = true <->
  (exists c, c ∈ out_cmds o /\ slows c v) /\
  exists l d, next_head s v = Some (NextTLS t l d).
Proof.
  unfold heldb. rewrite andb_true_iff, existsb_exists.
  setoid_rewrite <- list_elem_of_In. setoid_rewrite is_slow_down_slows.
  destruct (next_head s v) as [[t' l' d']|]; simpl.
  - rewrite bool_decide_eq_true. split.
    + intros [? ->]. eauto.
    + intros [? (l & d & [= -> -> ->])]. done.
  - split; [intros [_ [=]]|intros [_ (? & ? & [=])]].
Qed.

(** What a tick does to the ledger: budgets stay in range, and a pair that
    was held this tick has a strictly smaller budget afterwards. *)
Lemma tick_ledger meta ledger s o :
  tick meta ledger s = Some o ->
  (ledger_ok ledger -> ledger_ok (out_ledger o)) /\
  (forall t v, heldb s o t v = true ->
     hold_get (out_ledger o) (t, v) < hold_get ledger (t, v)).
Proof.
  intros H.
  destruct (tick_view _ _ _ _ H) as (es & ts & cs & Ees & Ets & -> & Hc & Hcs & _ & _).
  destruct (ems_phase_init _ _ Ees) as (_ & _ & _ & Hec).
  apply train_phase_ledger in Ets
    as (ext & Hext & _ & _ & _ & _ & Hch & Hok & _). simpl in *.
  split.
  - intros Hl. by apply prune_ledger_ok, Hok.
  - intros t v Hh. apply heldb_spec in Hh as [(c & Hin & Hs) (l & d & Hhd)].
    rewrite Hc, Hext in Hin. rewrite !elem_of_app in Hin.
    destruct Hin as [[Hin|Hin]|Hin].
    + destruct (Hec _ v Hin). by left.
    + destruct (Hch _ _ _ _ _ Hin Hs Hhd) as (x & Hx & Hlt).
      unfold hold_get at 1.
      rewrite (proj2 (prune_lookup s (train_hold_left ts) t v x)); [simpl; lia|].
      split; eauto.
    + destruct (Hcs _ v Hin). by left.
Qed.

(** A pair held this tick leaves the tick with a recorded, non-negative
    budget below the one it entered with. *)
Lemma tick_held_charged meta ledger s o t v :
  tick meta ledger s = Some o -> heldb s o t v = true ->
  exists x, out_ledger o !! (t, v) = Some x /\ 0 <= x < hold_get ledger (t, v).
Proof.
  intros H Hh.
  destruct (tick_view _ _ _ _ H) as (es & ts & cs & Ees & Ets & -> & Hc & Hcs & _ & _).
  destruct (ems_phase_init _ _ Ees) as (_ & _ & _ & Hec).
  apply train_phase_ledger in Ets as (ext & Hext & _ & _ & _ & _ & Hch & _). simpl in *.
  apply heldb_spec in Hh as [(c & Hin & Hs) (l & d & Hhd)].
  rewrite Hc, Hext in Hin. rewrite !elem_of_app in Hin.
  destruct Hin as [[Hin|Hin]|Hin].
  - destruct (Hec _ v Hin). by left.
  - destruct (Hch _ _ _ _ _ Hin Hs Hhd) as (x & Hx & Hlt).
    exists x. split; [|done]. apply prune_lookup. eauto.
  - destruct (Hcs _ v Hin). by left.
Qed.

Lemma hold_get_bounds l k : ledger_ok l -> 0 <= hold_get l k <= TRAIN_HOLD_MAX.
Proof.
  intros H. unfold hold_get. destruct (l !! k) as [x|] eqn:E; simpl.
  - eauto.
  - unfold TRAIN_HOLD_MAX. lia.
Qed.

(** ** C3: holds are bounded *)

Lemma run_streaks meta t v : forall ss ledger os cur best,
  run meta ledger ss = Some os ->
  ledger_ok ledger ->
  Z.of_nat cur + hold_get ledger (t, v) <= TRAIN_HOLD_MAX ->
  Z.of_nat best <= TRAIN_HOLD_MAX ->
  Z.of_nat (streaks cur best (held_flags ss os t v)) <= TRAIN_HOLD_MAX.
Proof.
  induction ss as [|s ss IH]; intros ledger os cur best H Hok Hcur Hbest.
  - injection H as <-. simpl.
    pose proof (hold_get_bounds ledger (t, v) Hok). lia.
  - cbn [run] in H.
    destruct (tick meta ledger s) as [o|] eqn:Et; [|done].
    destruct (run meta (out_ledger o) ss) as [os'|] eqn:Er; [|done].
    injection H as <-. cbn [held_flags].
    destruct (tick_ledger _ _ _ _ Et) as [Hok' Hdec].
    pose proof (hold_get_bounds ledger (t, v) Hok).
    pose proof (hold_get_bounds (out_ledger o) (t, v) (Hok' Hok)).
    destruct (heldb s o t v) eqn:Eh; cbn [streaks].
    + eapply IH; eauto. specialize (Hdec t v Eh). lia.
    + eapply IH; eauto; lia.
Qed.

(** C3. Starting from the empty ledger of [main], in any run of the loop and
    for any (intersection, train) pair, the longest stretch of consecutive
    ticks in which the train is sent a slowdown on its way to that
    intersection is at most TRAIN_HOLD_MAX = 12 ticks long: an absent entry
    counts as 12, every held tick strictly lowers the pair's recorded
    budget (it is kept by the clean-up, since the train still reports a
    next traffic light), and a slowdown is only issued while the budget is
    positive. *)
Theorem C3_consecutive_holds_bounded meta ss os t v :
  run meta ∅ ss = Some os ->
  Z.of_nat (longest_streak (held_flags ss os t v)) <= TRAIN_HOLD_MAX.
Proof.
  intros H. unfold longest_streak. eapply run_streaks; eauto.
  - intros k x Hk. by rewrite lookup_empty in Hk.
  - unfold hold_get. rewrite lookup_empty. simpl. lia.
  - unfold TRAIN_HOLD_MAX. lia.
Qed.

Example run13_outs : run city_meta ∅ run13 = Some outs13.
Proof. vm_compute. reflexivity. Qed.

(** In the thirteen-tick run the bound is reached: twelve held ticks. *)
Example run13_streak : longest_streak (held_flags run13 outs13 "X" "t1") = 12%nat.
Proof. vm_compute. reflexivity. Qed.

Lemma C3_witness :
  run city_meta ∅ run13 = Some outs13 /\
  Z.of_nat (longest_streak (held_flags run13 outs13 "X" "t1")) <= TRAIN_HOLD_MAX.
Proof.
  split; [vm_compute; reflexivity|].
  apply (C3_consecutive_holds_bounded city_meta run13 outs13 "X" "t1").
  vm_compute; reflexivity.
Defined.

(** ** A train in the warn zone of a claimed crossing *)

Lemma hold_get_lookup (l l' : gmap (tls_id * veh_id) Z) k :
  l' !! k = l !! k -> hold_get l' k = hold_get l k.
Proof. unfold hold_get. by intros ->. Qed.

(** With distinct ids, what a tick does with a train inside the warn
    distance of a crossing: exactly one of the hold and release branches. *)
Lemma tick_train_in_warn meta ledger s o t v l d :
  NoDup (getIDList s) -> v ∈ getIDList s ->
  train_at s meta v t l d -> Qltb d TRAIN_WARN_DIST = true ->
  tick meta ledger s = Some o ->
  exists es ts c,
    ems_phase s (getIDList s) ems_init = Some es /\
    train_phase meta (blocked_tls es) s (getIDList s)
      (TrainState ∅ ∅ ledger (ems_cmds es)) = Some ts /\
    c ∈ out_cmds o /\
    (forall c', c' ∈ out_cmds o -> slows c' v \/ frees c' v -> c' = c) /\
    ((t ∈ blocked_tls es /\ 0 < hold_get ledger (t, v) /\
      c = SlowDown v (slow_target d) 3 /\
      out_ledger o !! (t, v) = Some (hold_get ledger (t, v) - 1)) \/
     ((t ∉ blocked_tls es \/ hold_get ledger (t, v) <= 0) /\
      c = SetSpeed v (-1) /\
      out_ledger o !! (t, v) = ledger !! (t, v) /\
      in_green (train_green ts) t l)).
Proof.
  intros Hnd Hv Hat Hw H.
  destruct (tick_view _ _ _ _ H) as (es & ts & cs & Ees & Ets & Hl & Hc & Hcs & _ & _).
  destruct (ems_phase_init _ _ Ees) as (_ & _ & _ & Hec).
  destruct (train_phase_unique _ _ _ _ _ _ _ Hnd Hv Ets)
    as (st1 & st2 & e1 & e2 & Hstep & L1 & L2 & C1 & C2 & Hno & G2).
  simpl in L1, C1.
  assert (exists h, next_head s v = Some h) as Hh by (destruct Hat as (_ & ? & _); eauto).
  assert (forall x, train_hold_left ts !! (t, v) = Some x ->
                    out_ledger o !! (t, v) = Some x) as Hkeep.
  { intros x Hx. rewrite Hl. apply prune_lookup. eauto. }
  assert (forall c c', train_cmds st2 = train_cmds st1 ++ [c] ->
            (slows c v \/ frees c v) ->
            c ∈ out_cmds o /\
            (c' ∈ out_cmds o -> slows c' v \/ frees c' v -> c' = c)) as Hcmd.
  { intros c c' E Hsc. rewrite Hc, C2, E, C1. split.
    - rewrite !elem_of_app. left. left. right. left.
    - rewrite !elem_of_app. intros [[[[Hin|Hin]|Hin]|Hin]|Hin] Hs.
      + destruct (Hec _ v Hin Hs).
      + destruct (Hno c'); [apply elem_of_app; by left|done].
      + by apply list_elem_of_singleton in Hin.
      + destruct (Hno c'); [apply elem_of_app; by right|done].
      + destruct (Hcs _ v Hin Hs). }
  exists es, ts.
  inversion Hstep as [Hn|t' l' d' Hat' Hw'|t' l' d' Hat' Hw' Hb Hlt|t' l' d' Hat' Hw' Hlt];
    subst.
  - destruct (Hn _ _ _ Hat).
  - destruct (train_at_fun _ _ _ _ _ _ _ _ _ Hat Hat') as (-> & -> & ->). congruence.
  - destruct (train_at_fun _ _ _ _ _ _ _ _ _ Hat Hat') as (-> & -> & ->).
    exists (SlowDown v (slow_target d) 3).
    rewrite (hold_get_lookup _ _ _ (L1 t)) in *.
    split_and!; auto.
    + eapply (Hcmd _ (SlowDown v (slow_target d) 3)); [done|]. left. eexists _, _. done.
    + intros c'. eapply Hcmd; [done|]. left. eexists _, _. done.
    + left. split_and!; auto. apply Hkeep. rewrite L2. simpl.
      by rewrite lookup_insert_eq.
  - destruct (train_at_fun _ _ _ _ _ _ _ _ _ Hat Hat') as (-> & -> & ->).
    exists (SetSpeed v (-1)).
    rewrite (hold_get_lookup _ _ _ (L1 t)) in *.
    split_and!; auto.
    + eapply (Hcmd _ (SetSpeed v (-1))); [done|]. right. eexists. done.
    + intros c'. eapply Hcmd; [done|]. right. eexists. done.
    + right. split_and!; auto.
      * rewrite Hl. destruct (ledger !! (t, v)) as [x|] eqn:Ex.
        -- apply prune_lookup. rewrite L2. simpl. rewrite L1. eauto.
        -- apply eq_None_not_Some. intros [x Hx].
           apply prune_lookup in Hx as [Hx _]. rewrite L2 in Hx. simpl in Hx.
           rewrite L1 in Hx. congruence.
      * apply G2. simpl. apply in_green_setdefault_add. by right.
Qed.

Lemma hold_scene_blocked meta s t v es :
  hold_scene meta s t v ->
  ems_phase s (getIDList s) ems_init = Some es -> t ∈ blocked_tls es.
Proof.
  intros (_ & _ & _ & Hb) Ees.
  destruct (ems_phase_init _ _ Ees) as (_ & B1 & _). by apply B1.
Qed.

Lemma tick_scene_hold meta ledger s o t v :
  hold_scene meta s t v -> tick meta ledger s = Some o ->
  0 < hold_get ledger (t, v) ->
  held_outcome meta s o t v (hold_get ledger (t, v) - 1).
Proof.
  intros Hsc H Hpos. pose proof Hsc as (Hnd & Hv & (l & d & Hat & Hw) & Hbl).
  destruct (tick_train_in_warn _ _ _ _ _ _ _ _ Hnd Hv Hat Hw H)
    as (es & ts & c & Ees & Ets & Hc & Hu & [(_ & _ & -> & Hl)|([Hnb|Hle] & _)]).
  - split; [done|]. intros l' d' Hat'.
    destruct (train_at_fun _ _ _ _ _ _ _ _ _ Hat Hat') as (_ & -> & ->). auto.
  - destruct Hnb. eapply hold_scene_blocked; eauto.
  - lia.
Qed.

Lemma tick_scene_release meta ledger s o t v x :
  hold_scene meta s t v -> tick meta ledger s = Some o ->
  ledger !! (t, v) = Some x -> x <= 0 ->
  released_outcome meta ledger s o t v x.
Proof.
  intros Hsc H Hx Hle. pose proof Hsc as (Hnd & Hv & (l & d & Hat & Hw) & Hbl).
  assert (hold_get ledger (t, v) = x) as Hg by (unfold hold_get; by rewrite Hx).
  destruct (tick_train_in_warn _ _ _ _ _ _ _ _ Hnd Hv Hat Hw H)
    as (es & ts & c & Ees & Ets & Hc & Hu & [(_ & Hpos & _)|(_ & -> & Hl & Hin)]).
  - lia.
  - split_and!; auto; [congruence|]. exists es, ts. split_and!; auto.
    intros l' (d' & Hat' & _).
    destruct (train_at_fun _ _ _ _ _ _ _ _ _ Hat Hat') as (_ & -> & _). done.
Qed.

Lemma ledger_before_cons ledger o os i :
  ledger_before ledger (o :: os) (S i) = ledger_before (out_ledger o) os i.
Proof. by destruct i. Qed.

(** The run of a train that stays in the warn zone of a claimed crossing,
    entered with [b] ticks of budget. *)
Lemma run_scene meta t v :
  (forall t m, meta !! t = Some m -> meta_ok m) ->
  forall ss ledger b,
  Forall (wf_snapshot meta) ss ->
  Forall (fun s => hold_scene meta s t v) ss ->
  0 <= b -> hold_get ledger (t, v) = b -> (b = 0 -> ledger !! (t, v) = Some 0) ->
  exists os, run meta ledger ss = Some os /\
    forall i s o, ss !! i = Some s -> os !! i = Some o ->
      ems_served meta s o t /\
      train_link_shown meta s o t v /\
      (Z.of_nat i < b -> held_outcome meta s o t v (b - 1 - Z.of_nat i)) /\
      (b <= Z.of_nat i ->
         released_outcome meta (ledger_before ledger os i) s o t v 0).
Proof.
  intros Hok. induction ss as [|s ss IH]; intros ledger b Hwf Hsc Hb Hg Hz.
  - exists []. split; [done|]. intros i s o Hi. by rewrite lookup_nil in Hi.
  - apply Forall_cons in Hwf as [Hwf1 Hwf]. apply Forall_cons in Hsc as [Hsc1 Hsc].
    destruct (tick_ok meta ledger s Hok Hwf1) as [o Ho].
    assert (ems_served meta s o t) as Hserved.
    { eapply tick_ems_served; eauto. by destruct Hsc1 as (_ & _ & _ & ?). }
    assert (train_link_shown meta s o t v) as Hshown.
    { destruct Hsc1 as (_ & ? & _ & ?). eapply tick_train_link_shown; eauto. }
    destruct (decide (0 < b)) as [Hpos|Hnpos].
    + pose proof (tick_scene_hold _ _ _ _ _ _ Hsc1 Ho ltac:(lia)) as Hheld.
      rewrite Hg in Hheld. pose proof Hheld as [Hl _].
      destruct (IH (out_ledger o) (b - 1) Hwf Hsc) as (os & Hrun & Hall).
      { lia. } { unfold hold_get. by rewrite Hl. }
      { intros E. rewrite Hl. f_equal. done. }
      exists (o :: os). cbn [run]. rewrite Ho, Hrun. split; [done|].
      intros [|i] s' o' Hs' Ho'; simpl in Hs', Ho'.
      * injection Hs' as <-. injection Ho' as <-. split_and!; auto.
        -- intros _. by replace (b - 1 - Z.of_nat 0) with (b - 1) by lia.
        -- lia.
      * destruct (Hall i s' o' Hs' Ho') as (S1 & S0 & S2 & S3). split_and!; auto.
        -- intros Hi. replace (b - 1 - Z.of_nat (S i)) with (b - 1 - 1 - Z.of_nat i) by lia.
           apply S2. lia.
        -- intros Hi. rewrite ledger_before_cons. apply S3. lia.
    + assert (b = 0) as -> by lia. specialize (Hz eq_refl).
      pose proof (tick_scene_release _ _ _ _ _ _ 0 Hsc1 Ho Hz ltac:(lia)) as Hrel.
      pose proof Hrel as [Hl _].
      destruct (IH (out_ledger o) 0 Hwf Hsc) as (os & Hrun & Hall); auto.
      { unfold hold_get. by rewrite Hl. }
      exists (o :: os). cbn [run]. rewrite Ho, Hrun. split; [done|].
      intros [|i] s' o' Hs' Ho'; simpl in Hs', Ho'.
      * injection Hs' as <-. injection Ho' as <-. split_and!; auto. lia.
      * destruct (Hall i s' o' Hs' Ho') as (S1 & S0 & S2 & S3). split_and!; auto.
        -- lia.
        -- intros Hi. rewrite ledger_before_cons. apply S3. lia.
Qed.

(** ** C5: twelve graduated holds, then the release *)

(** C5 (as amended). A train stays within the warn distance of a crossing
    that emergency vehicles keep claiming, and enters with a hold budget of
    12 (vehicle ids listed once per tick).  In each of the first 12 ticks
    the budget goes down by one (11, 10, ..., 0) and the only speed command
    sent to the train is the slowdown of its distance band (below 25 m:
    0.1, below 70 m: 3.0, otherwise 6.0, over 3 s), so its link is not
    added to the train-green set.  From the 13th tick on the train is
    released with setSpeed(-1), the ledger entry stays at 0, and its link
    is put in the train-green set.  In every one of these ticks the
    crossing still resolves to the EMS claim: the written green set is the
    EMS link set and every rail link is red, so the release does not make
    the train's link green.  In the vector of every one of these ticks,
    held or released, the train's link is 'G' exactly when an emergency
    vehicle claims that same link and the link is outside the rail group,
    and 'r' otherwise; for a train on a rail-group link it is always 'r'. *)
Theorem C5_holds_then_release net meta ledger ss t v :
  startup net = Some meta ->
  Forall (wf_snapshot meta) ss ->
  Forall (fun s => hold_scene meta s t v) ss ->
  hold_get ledger (t, v) = TRAIN_HOLD_MAX ->
  exists os, run meta ledger ss = Some os /\
    forall i s o, ss !! i = Some s -> os !! i = Some o ->
      ems_served meta s o t /\
      train_link_shown meta s o t v /\
      ((i < 12)%nat -> held_outcome meta s o t v (11 - Z.of_nat i)) /\
      ((12 <= i)%nat ->
         released_outcome meta (ledger_before ledger os i) s o t v 0).
Proof.
  intros Hst Hwf Hsc Hg.
  assert (forall t m, meta !! t = Some m -> meta_ok m) as Hok
    by (intros; eapply startup_ok; eauto).
  destruct (run_scene meta t v Hok ss ledger 12 Hwf Hsc) as (os & Hrun & Hall); auto.
  { lia. } { lia. }
  exists os. split; [done|]. intros i s o Hs Ho.
  destruct (Hall i s o Hs Ho) as (S1 & S0 & S2 & S3). split_and!; auto.
  - intros Hi. replace (11 - Z.of_nat i) with (12 - 1 - Z.of_nat i) by lia.
    apply S2. lia.
  - intros Hi. apply S3. lia.
Qed.

Lemma snap_ems_train_scene : hold_scene city_meta snap_ems_train "X" "t1".
Proof.
  split_and!.
  - apply NoDup_cons. split; [|apply NoDup_singleton].
    intros Hin. apply list_elem_of_singleton in Hin. discriminate.
  - right. left.
  - exists 1, 100%Q. split; [|vm_compute; reflexivity]. split_and!.
    + vm_compute; reflexivity.
    + vm_compute; reflexivity.
    + exists city_X. split; vm_compute; reflexivity.
  - exists "e1"%string, 0. split; [left|apply snap_ems_train_claim].
Qed.

Lemma C5_witness :
  startup city = Some city_meta /\
  Forall (wf_snapshot city_meta) run13 /\
  Forall (fun s => hold_scene city_meta s "X" "t1") run13 /\
  hold_get ∅ ("X", "t1")%string = TRAIN_HOLD_MAX /\
  exists os, run city_meta ∅ run13 = Some os /\
    forall i s o, run13 !! i = Some s -> os !! i = Some o ->
      ems_served city_meta s o "X" /\
      train_link_shown city_meta s o "X" "t1" /\
      ((i < 12)%nat -> held_outcome city_meta s o "X" "t1" (11 - Z.of_nat i)) /\
      ((12 <= i)%nat ->
         released_outcome city_meta (ledger_before ∅ os i) s o "X" "t1" 0).
Proof.
  assert (startup city = Some city_meta) as H1 by (vm_compute; reflexivity).
  assert (Forall (wf_snapshot city_meta) run13) as H2
    by (apply Forall_replicate, snap_ems_train_wf).
  assert (Forall (fun s => hold_scene city_meta s "X" "t1") run13) as H3
    by (apply Forall_replicate, snap_ems_train_scene).
  assert (hold_get ∅ ("X", "t1")%string = TRAIN_HOLD_MAX) as H4 by reflexivity.
  split; [exact H1|]. split; [exact H2|]. split; [exact H3|]. split; [exact H4|].
  exact (C5_holds_then_release city city_meta ∅ run13 "X" "t1" H1 H2 H3 H4).
Defined.

(** The thirteenth tick of the run releases t1 (setSpeed -1), yet X shows
    "Grr": the train's link 1 is red, not green regardless of the EMS
    claim. *)
Lemma C5_counterexample :
  run city_meta ∅ run13 = Some outs13 /\
  outs13 !! 12%nat = Some out_release /\
  SetSpeed "t1" (-1) ∈ out_cmds out_release /\
  out_events out_release = [Event 1 ems_preempt src_ems "X" "Grr"] /\
  red_at "Grr" 1 /\ ~ green_at "Grr" 1.
Proof.
  split_and!; try (vm_compute; reflexivity).
  - unfold out_release, ems_cmds_e1. simpl. do 2 right. left.
  - intros [=].
Qed.

(** When the ambulance claims the very link the train arrives on, and that
    link is outside the rail group, the train's link is green in every
    tick, held or released: the thirteenth tick releases t2 and writes
    "Grr". *)
Example released_train_on_claimed_link :
  exists os o,
    run depot_meta ∅ (replicate 13 snap_shared_link) = Some os /\
    os !! 12%nat = Some o /\
    SetSpeed "t2" (-1) ∈ out_cmds o /\
    out_events o = [Event 1 ems_preempt src_ems "Y" "Grr"] /\
    green_at "Grr" 0.
Proof.
  eexists _, _. split; [vm_compute; reflexivity|].
  split; [reflexivity|]. split_and!.
  - cbn. do 2 right. left.
  - reflexivity.
  - reflexivity.
Qed.

(** ** C6: after the budget is used up *)

Section Exhausted.
Variable meta : gmap tls_id tls_info.
Variable blocked : gset tls_id.
Variable s : snapshot.
Variables (t : tls_id) (v : veh_id) (x : Z).
Hypothesis Hx : x <= 0.

Lemma train_phase_exhausted_ledger vids st st' :
  train_phase meta blocked s vids st = Some st' ->
  train_hold_left st !! (t, v) = Some x ->
  train_hold_left st' !! (t, v) = Some x.
Proof.
  intros H Hl. apply train_phase_ledger in H as (_ & _ & _ & _ & K & _).
  destruct (K (t, v)) as [E|(y & _ & Hy)]; [congruence|].
  unfold hold_get in Hy. rewrite Hl in Hy. simpl in Hy. lia.
Qed.

Lemma train_phase_exhausted_release vids st st' l :
  train_phase meta blocked s vids st = Some st' ->
  train_hold_left st !! (t, v) = Some x ->
  v ∈ vids -> train_in_warn s meta v t l ->
  SetSpeed v (-1) ∈ train_cmds st' /\ in_green (train_green st') t l.
Proof.
  intros H Hl Hv (d & Hat & Hw).
  apply list_elem_of_split in Hv as (l1 & l2 & ->).
  rewrite train_phase_app in H.
  destruct (train_phase meta blocked s l1 st) as [st1|] eqn:E1; [|done].
  cbn [train_phase] in H.
  destruct (train_body meta blocked s v st1) as [st2|] eqn:E; [|done].
  pose proof (train_phase_exhausted_ledger _ _ _ E1 Hl) as Hl1.
  apply train_phase_ledger in H as (e2 & C2 & _ & _ & _ & _ & _ & _ & G2).
  apply train_body_step in E.
  inversion E as [Hn|t' l' d' Hat' Hw'|t' l' d' Hat' Hw' Hb Hlt|t' l' d' Hat' Hw' Hlt];
    subst.
  - destruct (Hn _ _ _ Hat).
  - destruct (train_at_fun _ _ _ _ _ _ _ _ _ Hat Hat') as (-> & -> & ->). congruence.
  - destruct (train_at_fun _ _ _ _ _ _ _ _ _ Hat Hat') as (-> & -> & ->).
    unfold hold_get in Hlt. rewrite Hl1 in Hlt. simpl in Hlt. lia.
  - destruct (train_at_fun _ _ _ _ _ _ _ _ _ Hat Hat') as (-> & -> & ->). split.
    + rewrite C2. simpl. rewrite !elem_of_app. left. right. left.
    + apply G2. simpl. apply in_green_setdefault_add. by right.
Qed.

End Exhausted.

(** C6 (as amended). Once the ledger holds 0 for an (intersection, train)
    pair, a tick never slows the train down for that pair again; whenever
    the train is within the warn distance of the crossing it is released
    with setSpeed(-1) and its link is put in the train-green set (which an
    EMS claim still overrides when the state is written).  The entry is not
    removed on release: it stays at 0 for as long as the train reports an
    upcoming traffic light, and only the clean-up drops it, when the train
    reports none or has vanished. *)
Theorem C6_exhausted_pair_is_released_not_removed meta ledger s o t v :
  ledger !! (t, v) = Some 0 ->
  tick meta ledger s = Some o ->
  heldb s o t v = false /\
  ((out_ledger o !! (t, v) = Some 0 /\ is_Some (next_head s v)) \/
   (out_ledger o !! (t, v) = None /\ next_head s v = None)) /\
  forall l, v ∈ getIDList s -> train_in_warn s meta v t l ->
    SetSpeed v (-1) ∈ out_cmds o /\
    exists es ts,
      ems_phase s (getIDList s) ems_init = Some es /\
      train_phase meta (blocked_tls es) s (getIDList s)
        (TrainState ∅ ∅ ledger (ems_cmds es)) = Some ts /\
      in_green (train_green ts) t l.
Proof.
  intros Hl H.
  destruct (tick_view _ _ _ _ H) as (es & ts & cs & Ees & Ets & Ho & Hc & _).
  pose proof (train_phase_exhausted_ledger meta (blocked_tls es) s t v 0 ltac:(lia)
                _ _ _ Ets Hl) as Hts.
  split_and!.
  - destruct (heldb s o t v) eqn:Eh; [|done].
    destruct (tick_held_charged _ _ _ _ _ _ H Eh) as (y & _ & Hy).
    unfold hold_get in Hy. rewrite Hl in Hy. simpl in Hy. lia.
  - rewrite Ho. destruct (next_head s v) as [h|] eqn:Eh.
    + left. split; [|eauto]. apply prune_lookup. eauto.
    + right. split; [|done]. apply eq_None_not_Some. intros [y Hy].
      apply prune_lookup in Hy as (_ & h & Hh). congruence.
  - intros l Hv Hw.
    destruct (train_phase_exhausted_release meta (blocked_tls es) s t v 0 ltac:(lia)
                _ _ _ l Ets Hl Hv Hw) as [Hcmd Hin].
    split; [|eauto]. rewrite Hc. apply elem_of_app. by left.
Qed.

Lemma C6_witness :
  ({[ key_X_t1 := 0 ]} : gmap (tls_id * veh_id) Z) !! ("X", "t1")%string = Some 0 /\
  tick city_meta {[ key_X_t1 := 0 ]} snap_ems_train = Some out_release /\
  heldb snap_ems_train out_release "X" "t1" = false /\
  ((out_ledger out_release !! ("X", "t1")%string = Some 0 /\
    is_Some (next_head snap_ems_train "t1")) \/
   (out_ledger out_release !! ("X", "t1")%string = None /\
    next_head snap_ems_train "t1" = None)) /\
  forall l, "t1"%string ∈ getIDList snap_ems_train ->
    train_in_warn snap_ems_train city_meta "t1" "X" l ->
    SetSpeed "t1" (-1) ∈ out_cmds out_release /\
    exists es ts,
      ems_phase snap_ems_train (getIDList snap_ems_train) ems_init = Some es /\
      train_phase city_meta (blocked_tls es) snap_ems_train (getIDList snap_ems_train)
        (TrainState ∅ ∅ {[ key_X_t1 := 0 ]} (ems_cmds es)) = Some ts /\
      in_green (train_green ts) "X" l.
Proof.
  assert (({[ key_X_t1 := 0 ]} : gmap (tls_id * veh_id) Z) !! ("X", "t1")%string = Some 0)
    as H1 by (vm_compute; reflexivity).
  assert (tick city_meta {[ key_X_t1 := 0 ]} snap_ems_train = Some out_release) as H2
    by (vm_compute; reflexivity).
  split; [exact H1|]. split; [exact H2|].
  exact (C6_exhausted_pair_is_released_not_removed city_meta {[ key_X_t1 := 0 ]}
           snap_ems_train out_release "X" "t1" H1 H2).
Defined.

(** With one tick of budget left, the tick that brings the budget to zero
    still slows t1 down: no release, link 1 red, and the entry is kept at 0.
    In the next tick t1 is released, link 1 is still red under the EMS
    claim, and the entry is still in the ledger. *)
Lemma C6_counterexample :
  tick city_meta {[ key_X_t1 := 1 ]} snap_ems_train = Some (out_hold 0) /\
  out_ledger (out_hold 0) !! key_X_t1 = Some 0 /\
  heldb snap_ems_train (out_hold 0) "X" "t1" = true /\
  (forall c, c ∈ out_cmds (out_hold 0) -> ~ frees c "t1") /\
  out_events (out_hold 0) = [Event 1 ems_preempt src_ems "X" "Grr"] /\
  ~ green_at "Grr" 1 /\
  tick city_meta (out_ledger (out_hold 0)) snap_ems_train = Some out_release /\
  out_ledger out_release !! key_X_t1 = Some 0 /\
  out_events out_release = [Event 1 ems_preempt src_ems "X" "Grr"].
Proof.
  split_and!; try (vm_compute; reflexivity).
  - intros c Hc [sp ->]. unfold out_hold, ems_cmds_e1, write_X in Hc. simpl in Hc.
    repeat (apply elem_of_cons in Hc as [Hc|Hc]; [discriminate|]).
    by apply elem_of_nil in Hc.
  - intros [=].
Qed.

(** * Further properties of the code *)

(** ** build_state *)

Lemma py_index_is_Some len i :
  is_Some (py_index len i) <-> - Z.of_nat len <= i < Z.of_nat len.
Proof.
  unfold py_index. repeat case_bool_decide; split; intros Hs;
    try lia; try (by eexists); by destruct Hs as [? [=]].
Qed.

Lemma set_items_defined_iff idxs : forall s c,
  is_Some (set_items s idxs c) <->
  forall i, i ∈ idxs -> is_Some (py_index (length s) i).
Proof.
  induction idxs as [|i0 idxs IH]; intros s c; cbn [set_items].
  - split; [|eauto]. intros _ i Hi. by apply elem_of_nil in Hi.
  - unfold set_item. destruct (py_index (length s) i0) as [k|] eqn:E.
    + rewrite IH, length_insert. split.
      * intros H i Hi. apply elem_of_cons in Hi as [->|Hi]; [rewrite E; eauto|auto].
      * intros H i Hi. apply H. by right.
    + split; [intros [? [=]]|]. intros H. destruct (H i0) as [? Hk]; [left|].
      congruence.
Qed.

(** X1. [build_state] raises (IndexError) exactly when some index of
    [greens] or [force_red] is not a legal Python index of a list of length
    [n], that is, lies outside [-n, n). *)
Theorem X1_build_state_defined (len : nat) (greens force_red : gset Z) :
  is_Some (build_state len greens force_red) <->
  (forall i, i ∈ greens -> - Z.of_nat len <= i < Z.of_nat len) /\
  (forall i, i ∈ force_red -> - Z.of_nat len <= i < Z.of_nat len).
Proof.
  unfold build_state. split.
  - intros [st H].
    destruct (set_items _ (elements greens) _) as [s|] eqn:Hs; [|done].
    destruct (set_items s (elements force_red) _) as [s'|] eqn:Hs'; [|done].
    pose proof (set_items_length _ _ _ _ Hs) as Hl. rewrite length_replicate in Hl.
    split; intros i Hi; apply py_index_is_Some.
    + rewrite <- (length_replicate len sig_r).
      eapply set_items_defined_iff; [rewrite Hs; eauto|by apply elem_of_elements].
    + rewrite <- Hl.
      eapply set_items_defined_iff; [rewrite Hs'; eauto|by apply elem_of_elements].
  - intros [Hg Hr].
    destruct (proj2 (set_items_defined_iff (elements greens) (replicate len sig_r) sig_G))
      as [s Hs].
    { intros i Hi. rewrite length_replicate. apply py_index_is_Some, Hg.
      by apply elem_of_elements. }
    rewrite Hs.
    pose proof (set_items_length _ _ _ _ Hs) as Hl. rewrite length_replicate in Hl.
    destruct (proj2 (set_items_defined_iff (elements force_red) s sig_r)) as [s' Hs'].
    { intros i Hi. rewrite Hl. apply py_index_is_Some, Hr. by apply elem_of_elements. }
    rewrite Hs'. eauto.
Qed.

Lemma string_length_of_list (l : list ascii) :
  String.length (string_of_list_ascii l) = length l.
Proof. induction l; simpl; auto. Qed.

Lemma denotes_elements len (idxs : gset Z) k :
  denotes len idxs k <-> Exists (fun i => py_index len i = Some k) (elements idxs).
Proof.
  unfold denotes. rewrite Exists_exists. setoid_rewrite elem_of_elements. done.
Qed.

(** X2. When [build_state] returns, the vector has exactly [n] characters;
    position [k] is 'G' exactly when some index of [greens] denotes it
    (negative indices counting from the end) and no index of [force_red]
    does, and it is 'r' otherwise.  So a forced-red link is red even when it
    is also in [greens], and no other character ever appears. *)
Theorem X2_build_state_vector (len : nat) (greens force_red : gset Z) st :
  build_state len greens force_red = Some st ->
  String.length st = len /\
  forall k, (k < len)%nat ->
    (String.get k st = Some sig_G <->
       denotes len greens k /\ ~ denotes len force_red k) /\
    (String.get k st = Some sig_r <->
       ~ denotes len greens k \/ denotes len force_red k).
Proof.
  unfold build_state. intros H.
  destruct (set_items _ (elements greens) _) as [s|] eqn:Hs; [|done].
  destruct (set_items s (elements force_red) _) as [s'|] eqn:Hs'; [|done].
  injection H as <-.
  pose proof (set_items_length _ _ _ _ Hs) as Hl. rewrite length_replicate in Hl.
  pose proof (set_items_length _ _ _ _ Hs') as Hl'.
  split; [rewrite string_length_of_list; congruence|].
  intros k Hk. rewrite string_get_of_list, !denotes_elements.
  assert (s' !! k = Some sig_G /\
            Exists (fun i => py_index len i = Some k) (elements greens) /\
            ~ Exists (fun i => py_index len i = Some k) (elements force_red) \/
          s' !! k = Some sig_r /\
            (~ Exists (fun i => py_index len i = Some k) (elements greens) \/
             Exists (fun i => py_index len i = Some k) (elements force_red))) as Hcase.
  { destruct (decide (Exists (fun i => py_index len i = Some k) (elements force_red)))
      as [Hr|Hr].
    - right. split; [|by right]. apply Exists_exists in Hr as (i & Hi & Hik).
      eapply set_items_hit; eauto. by rewrite Hl.
    - assert (s' !! k = s !! k) as ->.
      { eapply set_items_miss; eauto. intros i Hi Hik. apply Hr, Exists_exists.
        exists i. by rewrite <- Hl. }
      destruct (decide (Exists (fun i => py_index len i = Some k) (elements greens)))
        as [Hg|Hg].
      + left. split; [|done]. apply Exists_exists in Hg as (i & Hi & Hik).
        eapply set_items_hit; eauto. by rewrite length_replicate.
      + right. split; [|by left].
        rewrite (set_items_miss _ _ _ _ k Hs).
        * by apply lookup_replicate_2.
        * intros i Hi Hik. apply Hg, Exists_exists. exists i.
          by rewrite length_replicate in Hik. }
  destruct Hcase as [(E & Hg & Hr)|(E & Hor)]; rewrite E; (split; split);
    try done; try (intros Hq; discriminate Hq); tauto.
Qed.

Lemma X2_witness :
  build_state 4 {[ 2; -1 ]} {[ 3 ]} = Some "rrGr"%string /\
  String.length "rrGr" = 4%nat /\
  forall k, (k < 4)%nat ->
    (String.get k "rrGr" = Some sig_G <->
       denotes 4 {[ 2; -1 ]} k /\ ~ denotes 4 {[ 3 ]} k) /\
    (String.get k "rrGr" = Some sig_r <->
       ~ denotes 4 {[ 2; -1 ]} k \/ denotes 4 {[ 3 ]} k).
Proof.
  split; [vm_compute; reflexivity|].
  apply (X2_build_state_vector 4 {[ 2; -1 ]} {[ 3 ]} "rrGr").
  vm_compute; reflexivity.
Defined.

(** ** analyze_tls *)

Section ClassifierMore.
Variable net : network.

Lemma analyze_link_None idx triples acc :
  analyze_link net idx triples acc = None <-> triples = [].
Proof.
  unfold analyze_link. destruct acc as [[rail road] inc].
  destruct triples as [|[[lane ?] ?] ?]; [done|].
  destruct (String.prefix _ _); split; intros [=].
Qed.

Lemma analyze_links_None ctrl : forall idx acc,
  analyze_links net idx ctrl acc = None <-> [] ∈ ctrl.
Proof.
  induction ctrl as [|tr ctrl IH]; intros idx acc; cbn [analyze_links].
  - split; [done|]. intros H. by apply elem_of_nil in H.
  - rewrite elem_of_cons.
    destruct (analyze_link net idx tr acc) as [acc'|] eqn:E.
    + rewrite IH. split; [auto|]. intros [Heq|?]; [|done]. subst tr.
      assert (analyze_link net idx [] acc = None) as E' by by apply analyze_link_None.
      congruence.
    + apply analyze_link_None in E as ->. split; auto.
Qed.

(** What the loop adds to the three accumulators, link by link. *)
Lemma analyze_links_groups ctrl : forall idx rail road inc rail' road' inc',
  analyze_links net idx ctrl (rail, road, inc) = Some (rail', road', inc') ->
  (forall i, i ∈ rail' <->
     i ∈ rail \/ exists j, i = Z.of_nat (idx + j) /\ link_class net ctrl j true) /\
  (forall i, i ∈ road' <->
     i ∈ road \/ exists j, i = Z.of_nat (idx + j) /\ link_class net ctrl j false) /\
  (forall e i, edge_lists inc' e i <->
     edge_lists inc e i \/
     exists j, i = Z.of_nat (idx + j) /\ road_link_of net ctrl j e).
Proof.
  unfold link_class, road_link_of.
  induction ctrl as [|tr ctrl IH]; cbn [analyze_links];
    intros idx rail road inc rail' road' inc' H.
  - injection H as <- <- <-. split_and!; intros; (split; [auto|]);
      intros [?|(j & _ & tr & Hj & _)]; auto; by rewrite lookup_nil in Hj.
  - destruct (analyze_link net idx tr (rail, road, inc)) as [[[r1 d1] i1]|] eqn:E; [|done].
    destruct (IH _ _ _ _ _ _ _ H) as (I1 & I2 & I3). clear IH H.
    unfold analyze_link in E. destruct tr as [|[[lane x] y] rest]; [done|].
    set (tr := ((lane, x, y) :: rest)) in *.
    assert (forall (P : list (string * string * string) -> Prop) i,
              (exists j, i = Z.of_nat (idx + j) /\ exists tr', (tr :: ctrl) !! j = Some tr' /\ P tr') <->
              (i = Z.of_nat idx /\ P tr) \/
              (exists j, i = Z.of_nat (S idx + j) /\ exists tr', ctrl !! j = Some tr' /\ P tr')) as Hsplit.
    { intros P i. split.
      - intros ([|j] & -> & tr' & Hj & HP); simpl in Hj.
        + injection Hj as <-. left. split; [f_equal; lia|done].
        + right. exists j. split; [f_equal; lia|eauto].
      - intros [[-> HP]|(j & -> & tr' & Hj & HP)].
        + exists 0%nat. split; [f_equal; lia|]. exists tr. done.
        + exists (S j). split; [f_equal; lia|]. exists tr'. done. }
    destruct (String.prefix "rail_" (getEdgeID net lane)) eqn:Ep;
      injection E as <- <- <-.
    + split_and!.
      * intros i. rewrite I1, Hsplit, elem_of_union, elem_of_singleton. simpl.
        rewrite Ep. naive_solver.
      * intros i. rewrite I2, Hsplit. simpl. rewrite Ep. naive_solver.
      * intros e i. rewrite I3.
        rewrite (Hsplit (fun tr' => link_is_rail net tr' = Some false /\
                                     link_edge net tr' = Some e)).
        simpl. rewrite Ep. naive_solver.
    + split_and!.
      * intros i. rewrite I1, Hsplit. simpl. rewrite Ep. naive_solver.
      * intros i. rewrite I2, Hsplit, elem_of_union, elem_of_singleton. simpl.
        rewrite Ep. naive_solver.
      * intros e i. rewrite I3.
        rewrite (Hsplit (fun tr' => link_is_rail net tr' = Some false /\
                                     link_edge net tr' = Some e)).
        simpl. rewrite Ep.
        assert (edge_lists
                  (<[getEdgeID net lane := default [] (inc !! getEdgeID net lane)
                                           ++ [Z.of_nat idx]]> inc) e i <->
                edge_lists inc e i \/ (i = Z.of_nat idx /\ getEdgeID net lane = e)) as ->.
        { unfold edge_lists. destruct (decide (getEdgeID net lane = e)) as [<-|Hne].
          - rewrite lookup_insert_eq. split.
            + intros (l & [= <-] & Hi). apply elem_of_app in Hi as [Hi|Hi].
              * left. destruct (inc !! getEdgeID net lane) as [l0|]; simpl in Hi; [eauto|].
                by apply elem_of_nil in Hi.
              * right. by apply list_elem_of_singleton in Hi.
            + intros [(l & Hl & Hi)|[-> _]]; eexists; (split; [done|]).
              * rewrite Hl. simpl. apply elem_of_app. by left.
              * apply elem_of_app. right. by apply list_elem_of_singleton.
          - rewrite lookup_insert_ne by done. naive_solver. }
        naive_solver.
Qed.

End ClassifierMore.

Lemma analyze_tls_None net tls :
  analyze_tls net tls = None <->
  exists idx, getControlledLinks net tls !! idx = Some [].
Proof.
  unfold analyze_tls.
  destruct (analyze_links net 0 (getControlledLinks net tls) (∅, ∅, ∅))
    as [[[rail road] inc]|] eqn:E.
  - split; [done|]. intros [idx Hidx].
    assert (analyze_links net 0 (getControlledLinks net tls) (∅, ∅, ∅) = None) as E'.
    { apply analyze_links_None. apply list_elem_of_lookup. eauto. }
    congruence.
  - split; [|done]. intros _. apply analyze_links_None in E.
    by apply list_elem_of_lookup in E.
Qed.

(** X3. [analyze_tls] raises (the IndexError of [triples[0][0]]) exactly
    when some controlled link of the intersection has an empty connection
    list; edge names play no part in it. *)
Theorem X3_analyze_tls_raises_on_empty_link net tls :
  analyze_tls net tls = None <->
  exists idx, getControlledLinks net tls !! idx = Some [].
Proof. apply analyze_tls_None. Qed.

(** X4. When [analyze_tls] returns, [n] is the number of controlled links,
    the rail group is exactly the set of link indices whose first
    connection comes in over an edge whose id starts with "rail_", the road
    group is exactly the set of the other link indices, and [is_crossing]
    says whether some link is a rail link. *)
Theorem X4_analyze_tls_groups net tls m :
  analyze_tls net tls = Some m ->
  n m = length (getControlledLinks net tls) /\
  (forall i, i ∈ rail_idxs m <->
     exists idx, i = Z.of_nat idx /\ link_class net (getControlledLinks net tls) idx true) /\
  (forall i, i ∈ road_idxs m <->
     exists idx, i = Z.of_nat idx /\ link_class net (getControlledLinks net tls) idx false) /\
  (is_crossing m = true <->
     exists idx, link_class net (getControlledLinks net tls) idx true).
Proof.
  intros H. pose proof (analyze_tls_ok _ _ _ H) as Hok.
  unfold analyze_tls in H.
  destruct (analyze_links net 0 (getControlledLinks net tls) (∅, ∅, ∅))
    as [[[rail road] inc]|] eqn:E; [|done].
  injection H as <-. simpl in *.
  apply analyze_links_groups in E as (I1 & I2 & _).
  assert (forall i, i ∈ rail <->
     exists idx, i = Z.of_nat idx /\ link_class net (getControlledLinks net tls) idx true)
    as Hr.
  { intros i. rewrite I1. split.
    - intros [Hi|?]; [by apply not_elem_of_empty in Hi|done].
    - intros ?. by right. }
  split_and!; auto.
  - intros i. rewrite I2. split.
    + intros [Hi|?]; [by apply not_elem_of_empty in Hi|done].
    + intros ?. by right.
  - rewrite (crossing_rail _ Hok). simpl. setoid_rewrite Hr. naive_solver.
Qed.

Lemma X4_witness :
  analyze_tls city "X" = Some city_X /\
  n city_X = length (getControlledLinks city "X") /\
  (forall i, i ∈ rail_idxs city_X <->
     exists idx, i = Z.of_nat idx /\ link_class city (getControlledLinks city "X") idx true) /\
  (forall i, i ∈ road_idxs city_X <->
     exists idx, i = Z.of_nat idx /\ link_class city (getControlledLinks city "X") idx false) /\
  (is_crossing city_X = true <->
     exists idx, link_class city (getControlledLinks city "X") idx true).
Proof.
  split; [vm_compute; reflexivity|].
  apply (X4_analyze_tls_groups city "X" city_X). vm_compute; reflexivity.
Defined.

Section EdgeIndex.
Variable net : network.

Lemma analyze_link_edge_index idx tr rail road inc rail' road' inc' :
  analyze_link net idx tr (rail, road, inc) = Some (rail', road', inc') ->
  edge_index_below idx inc -> edge_index_below (S idx) inc'.
Proof.
  unfold analyze_link. destruct tr as [|[[lane x] y] rest]; [done|].
  intros H Hinv.
  assert (edge_index_below (S idx) inc) as Hinv'.
  { intros e l Hl. destruct (Hinv e l Hl) as (? & ? & ? & Hb). split_and!; auto.
    intros i Hi. specialize (Hb i Hi). lia. }
  destruct (String.prefix "rail_" (getEdgeID net lane)) eqn:Ep;
    injection H as <- <- <-; [done|].
  intros e l. rewrite lookup_insert. case_decide as Hd; [|apply Hinv'].
  subst e. intros [= <-].
  destruct (inc !! getEdgeID net lane) as [l0|] eqn:El0; simpl.
  - destruct (Hinv _ _ El0) as (_ & Hs & _ & Hb). split_and!; auto.
    + by destruct l0.
    + apply StronglySorted_app_2; auto.
      * intros x1 x2 H1 H2. apply list_elem_of_singleton in H2 as ->. auto.
      * repeat constructor.
    + intros i Hi. apply elem_of_app in Hi as [Hi|Hi].
      * specialize (Hb i Hi). lia.
      * apply list_elem_of_singleton in Hi as ->. lia.
  - split_and!; auto.
    + repeat constructor.
    + intros i Hi. apply list_elem_of_singleton in Hi as ->. lia.
Qed.

Lemma analyze_links_edge_index ctrl : forall idx rail road inc rail' road' inc',
  analyze_links net idx ctrl (rail, road, inc) = Some (rail', road', inc') ->
  edge_index_below idx inc -> edge_index_below (idx + length ctrl) inc'.
Proof.
  induction ctrl as [|tr ctrl IH]; cbn [analyze_links length];
    intros idx rail road inc rail' road' inc' H Hinv.
  - injection H as <- <- <-. by rewrite Nat.add_0_r.
  - destruct (analyze_link net idx tr (rail, road, inc)) as [[[r1 d1] i1]|] eqn:E; [|done].
    replace (idx + S (length ctrl))%nat with (S idx + length ctrl)%nat by lia.
    eapply IH; eauto. eapply analyze_link_edge_index; eauto.
Qed.

End EdgeIndex.

(** X5. When [analyze_tls] returns, [inc_edge_to_link_idxs] lists a link
    index under an edge exactly when that link is a road link whose first
    connection comes in over that edge; every list is non-empty and
    strictly increasing, and no key starts with "rail_" (rail approaches
    are never indexed). *)
Theorem X5_analyze_tls_edge_index net tls m :
  analyze_tls net tls = Some m ->
  (forall e i, edge_lists (inc_edge_to_link_idxs m) e i <->
     exists idx, i = Z.of_nat idx /\
                 road_link_of net (getControlledLinks net tls) idx e) /\
  (forall e l, inc_edge_to_link_idxs m !! e = Some l ->
     l <> [] /\ StronglySorted Z.lt l /\ String.prefix "rail_" e = false).
Proof.
  intros H. unfold analyze_tls in H.
  destruct (analyze_links net 0 (getControlledLinks net tls) (∅, ∅, ∅))
    as [[[rail road] inc]|] eqn:E; [|done].
  injection H as <-. simpl. split.
  - apply analyze_links_groups in E as (_ & _ & I3).
    intros e i. rewrite I3. split.
    + intros [(l & Hl & _)|?]; [by rewrite lookup_empty in Hl|done].
    + intros ?. by right.
  - apply analyze_links_edge_index in E.
    + intros e l Hl. destruct (E e l Hl) as (? & ? & ? & _). done.
    + intros e l Hl. by rewrite lookup_empty in Hl.
Qed.

Lemma X5_witness :
  analyze_tls city "X" = Some city_X /\
  (forall e i, edge_lists (inc_edge_to_link_idxs city_X) e i <->
     exists idx, i = Z.of_nat idx /\
                 road_link_of city (getControlledLinks city "X") idx e) /\
  (forall e l, inc_edge_to_link_idxs city_X !! e = Some l ->
     l <> [] /\ StronglySorted Z.lt l /\ String.prefix "rail_" e = false).
Proof.
  split; [vm_compute; reflexivity|].
  apply (X5_analyze_tls_edge_index city "X" city_X). vm_compute; reflexivity.
Defined.

(** ** Building tls_meta *)

Lemma build_tls_meta_None net ids : forall acc,
  build_tls_meta net ids acc = None <->
  exists t, t ∈ ids /\ analyze_tls net t = None.
Proof.
  induction ids as [|t0 ids IH]; intros acc; cbn [build_tls_meta].
  - split; [done|]. intros (t & Ht & _). by apply elem_of_nil in Ht.
  - setoid_rewrite elem_of_cons. destruct (analyze_tls net t0) as [m0|] eqn:E.
    + rewrite IH. split.
      * intros (t & ? & ?). eauto.
      * intros (t & [->|?] & Ht); [congruence|eauto].
    + split; [|done]. eauto.
Qed.

Lemma build_tls_meta_lookup net ids : forall acc M,
  build_tls_meta net ids acc = Some M ->
  forall t, M !! t = if decide (t ∈ ids) then analyze_tls net t else acc !! t.
Proof.
  induction ids as [|t0 ids IH]; intros acc M H t; cbn [build_tls_meta] in H.
  - injection H as <-. case_decide as Hd; [by apply elem_of_nil in Hd|done].
  - destruct (analyze_tls net t0) as [m0|] eqn:E; [|done].
    rewrite (IH _ _ H t).
    destruct (decide (t ∈ ids)) as [Hin|Hnin].
    + rewrite decide_True; [done|by right].
    + destruct (decide (t = t0)) as [->|Hne].
      * rewrite decide_True by left. by rewrite lookup_insert_eq.
      * rewrite decide_False.
        -- by rewrite lookup_insert_ne.
        -- intros Hc. apply elem_of_cons in Hc as [?|?]; done.
Qed.

(** X6. Building [tls_meta] at startup raises exactly when some listed
    traffic light has a controlled link with an empty connection list. *)
Theorem X6_startup_raises_on_empty_link net :
  startup net = None <->
  exists t idx, t ∈ tls_ids net /\ getControlledLinks net t !! idx = Some [].
Proof.
  unfold startup. rewrite build_tls_meta_None.
  setoid_rewrite analyze_tls_None. naive_solver.
Qed.

(** X7. When startup succeeds, [tls_meta] has exactly the listed traffic
    lights as keys, and each is mapped to what [analyze_tls] returns for it
    (also when an id is listed more than once). *)
Theorem X7_startup_table net M :
  startup net = Some M ->
  forall t, M !! t = if decide (t ∈ tls_ids net) then analyze_tls net t else None.
Proof.
  intros H t. rewrite (build_tls_meta_lookup _ _ _ _ H t).
  case_decide; [done|apply lookup_empty].
Qed.

Lemma X7_witness :
  startup city = Some city_meta /\
  forall t, city_meta !! t =
            if decide (t ∈ tls_ids city) then analyze_tls city t else None.
Proof.
  split; [vm_compute; reflexivity|].
  apply (X7_startup_table city city_meta). vm_compute; reflexivity.
Defined.

(** ** The command trace of a tick *)

Lemma ems_phase_cmds s vids : forall st st',
  ems_phase s vids st = Some st' ->
  forall c, c ∈ ems_cmds st' <->
    c ∈ ems_cmds st \/
    exists vid t j, vid ∈ vids /\ ems_claim s vid t j /\
      (c = SetLaneChangeMode vid 0 \/ c = SetSpeedMode vid 0).
Proof.
  induction vids as [|vid vids IH]; cbn [ems_phase]; intros st st' H c.
  - injection H as <-. split; [auto|]. intros [?|(v & ? & ? & Hv & _)]; [done|].
    by apply elem_of_nil in Hv.
  - destruct (ems_body s vid st) as [st1|] eqn:E; [|done].
    rewrite (IH _ _ H c). setoid_rewrite elem_of_cons.
    destruct (ems_body_cases _ _ _ _ E) as [[-> Hno]|(t0 & l0 & Hc & Hu & ->)].
    + split.
      * intros [?|(v & t & j & Hv & Hcl & Hcmd)]; [by left|]. right. eauto 10.
      * intros [?|(v & t & j & [-> | Hv] & Hcl & Hcmd)]; [by left| |].
        -- by destruct (Hno _ _ Hcl).
        -- right. eauto 10.
    + simpl. rewrite elem_of_app. rewrite !elem_of_cons, elem_of_nil. split.
      * intros [[? | [-> | [-> | ?]]] | (v & t & j & Hv & Hcl & Hcmd)]; try done; eauto 12.
      * intros [?|(v & t & j & [-> | Hv] & Hcl & Hcmd)]; [by left;left| |].
        -- left. right. destruct Hcmd as [-> | ->]; auto.
        -- right. eauto 10.
Qed.

Lemma apply_phase_shape meta tm (eg tg crg : gmap tls_id (gset Z)) touched :
  forall evs cs,
  apply_phase meta tm eg tg crg touched = Some (evs, cs) ->
  forall c, c ∈ cs ->
    (exists e, e ∈ evs /\ c = SetRedYellowGreenState (ev_tls e) (ev_state e)) \/
    (exists e, e ∈ evs /\ c = SetPhaseDuration (ev_tls e) PULSE).
Proof.
  induction touched as [|t touched IH]; cbn [apply_phase]; intros evs cs H c Hc.
  - injection H as <- <-. by apply elem_of_nil in Hc.
  - destruct (apply_one meta tm eg tg crg t) as [[e0 c0]|] eqn:E; [|done].
    destruct (apply_phase meta tm eg tg crg touched) as [[es cs']|] eqn:E'; [|done].
    injection H as <- <-. apply elem_of_app in Hc as [Hc|Hc].
    + apply apply_one_inv in E as (m & st & _ & _ & -> & ->).
      apply elem_of_cons in Hc as [->|Hc];
        [|apply elem_of_cons in Hc as [->|Hc]; [|by apply elem_of_nil in Hc]].
      * left. eexists. split; [left|done].
      * right. eexists. split; [left|done].
    + destruct (IH _ _ eq_refl c Hc) as [(e & He & ->)|(e & He & ->)].
      * left. exists e. split; [by right|done].
      * right. exists e. split; [by right|done].
Qed.

Section TrainCommands.
Variable meta : gmap tls_id tls_info.
Variable blocked : gset tls_id.
Variable s : snapshot.

(** Where the speed commands of step 2 come from. *)
Lemma train_phase_cmds vids : forall st st',
  train_phase meta blocked s vids st = Some st' ->
  exists ext, train_cmds st' = train_cmds st ++ ext /\
    forall c, c ∈ ext ->
      exists v t l d, v ∈ vids /\ train_at s meta v t l d /\
        Qltb d TRAIN_WARN_DIST = true /\
        ((c = SlowDown v (slow_target d) 3 /\ t ∈ blocked) \/ c = SetSpeed v (-1)).
Proof.
  induction vids as [|vid vids IH]; cbn [train_phase]; intros st st' H.
  - injection H as <-. exists []. rewrite app_nil_r. split; [done|].
    intros c Hc. by apply elem_of_nil in Hc.
  - destruct (train_body meta blocked s vid st) as [st1|] eqn:E; [|done].
    destruct (IH _ _ H) as (e2 & C2 & O2). apply train_body_step in E.
    assert (exists e1, train_cmds st1 = train_cmds st ++ e1 /\
              forall c, c ∈ e1 -> exists t l d, train_at s meta vid t l d /\
                Qltb d TRAIN_WARN_DIST = true /\
                ((c = SlowDown vid (slow_target d) 3 /\ t ∈ blocked) \/
                 c = SetSpeed vid (-1))) as (e1 & C1 & O1).
    { inversion E as [Hn|t l d Hat Hw|t l d Hat Hw Hb Hl|t l d Hat Hw Hl]; subst.
      - exists []. rewrite app_nil_r. split; [done|]. intros c Hc.
        by apply elem_of_nil in Hc.
      - exists []. rewrite app_nil_r. split; [done|]. intros c Hc.
        by apply elem_of_nil in Hc.
      - eexists. split; [reflexivity|]. intros c Hc.
        apply list_elem_of_singleton in Hc as ->. eauto 10.
      - eexists. split; [reflexivity|]. intros c Hc.
        apply list_elem_of_singleton in Hc as ->. eauto 10. }
    exists (e1 ++ e2). split; [by rewrite C2, C1, app_assoc|].
    intros c Hc. apply elem_of_app in Hc as [Hc|Hc].
    + destruct (O1 c Hc) as (t & l & d & ?). exists vid, t, l, d.
      split; [left|done].
    + destruct (O2 c Hc) as (v & t & l & d & Hv & ?). exists v, t, l, d.
      split; [by right|done].
Qed.

(** Budgets of pairs whose crossing is not EMS-claimed are not touched. *)
Lemma train_phase_unblocked_ledger vids : forall st st',
  train_phase meta blocked s vids st = Some st' ->
  forall t v, t ∉ blocked ->
    train_hold_left st' !! (t, v) = train_hold_left st !! (t, v).
Proof.
  induction vids as [|vid vids IH]; cbn [train_phase]; intros st st' H t v Hnb.
  - by injection H as <-.
  - destruct (train_body meta blocked s vid st) as [st1|] eqn:E; [|done].
    rewrite (IH _ _ H t v Hnb). apply train_body_step in E.
    inversion E as [Hn|t' l d Hat Hw|t' l d Hat Hw Hb Hl|t' l d Hat Hw Hl];
      subst; simpl; try done.
    rewrite lookup_insert_ne; [done|]. intros [= -> ->]. done.
Qed.

(** At a crossing that is not EMS-claimed, the train-green set is fed by
    every train inside the warn distance. *)
Lemma train_phase_unblocked_green vids : forall st st' t,
  train_phase meta blocked s vids st = Some st' ->
  t ∉ blocked ->
  forall j, in_green (train_green st') t j <->
    in_green (train_green st) t j \/
    exists vid, vid ∈ vids /\ train_in_warn s meta vid t j.
Proof.
  induction vids as [|vid vids IH]; cbn [train_phase]; intros st st' t H Hnb j.
  - injection H as <-. split; [auto|]. intros [?|(v & Hv & _)]; [done|].
    by apply elem_of_nil in Hv.
  - destruct (train_body meta blocked s vid st) as [st1|] eqn:E; [|done].
    rewrite (IH _ _ _ H Hnb j). setoid_rewrite elem_of_cons.
    apply train_body_step in E.
    assert (in_green (train_green st1) t j <->
            in_green (train_green st) t j \/ train_in_warn s meta vid t j) as ->.
    { inversion E as [Hn|t' l d Hat Hw|t' l d Hat Hw Hb Hl|t' l d Hat Hw Hl];
        subst; simpl.
      - split; [auto|]. intros [?|(d & Hat & _)]; [done|]. by destruct (Hn _ _ _ Hat).
      - split; [auto|]. intros [?|(d' & Hat' & Hw')]; [done|].
        destruct (train_at_fun _ _ _ _ _ _ _ _ _ Hat Hat') as (-> & -> & ->). congruence.
      - split; [auto|]. intros [?|(d' & Hat' & Hw')]; [done|].
        destruct (train_at_fun _ _ _ _ _ _ _ _ _ Hat Hat') as (-> & -> & ->). done.
      - rewrite in_green_setdefault_add. split.
        + intros [?|[-> ->]]; [by left|]. right. exists d. done.
        + intros [?|(d' & Hat' & Hw')]; [by left|].
          destruct (train_at_fun _ _ _ _ _ _ _ _ _ Hat Hat') as (-> & -> & ->). by right. }
    naive_solver.
Qed.

End TrainCommands.

Lemma apply_phase_pulses meta tm (eg tg crg : gmap tls_id (gset Z)) touched :
  forall evs cs,
  apply_phase meta tm eg tg crg touched = Some (evs, cs) ->
  forall e, e ∈ evs -> SetPhaseDuration (ev_tls e) PULSE ∈ cs.
Proof.
  induction touched as [|t touched IH]; cbn [apply_phase]; intros evs cs H e He.
  - injection H as <- <-. by apply elem_of_nil in He.
  - destruct (apply_one meta tm eg tg crg t) as [[e0 c0]|] eqn:E; [|done].
    destruct (apply_phase meta tm eg tg crg touched) as [[es cs']|] eqn:E'; [|done].
    injection H as <- <-. apply elem_of_app.
    apply elem_of_cons in He as [->|He]; [left|right; eauto].
    apply apply_one_inv in E as (m & st & _ & _ & -> & ->). simpl. right. left.
Qed.

(** The command trace of a tick, piece by piece: the mode switches of step
    1, the speed commands of step 2, the signal writes of step 4. *)
Lemma tick_trace meta ledger s o :
  tick meta ledger s = Some o ->
  exists es ts e_train cs,
    ems_phase s (getIDList s) ems_init = Some es /\
    train_phase meta (blocked_tls es) s (getIDList s)
      (TrainState ∅ ∅ ledger (ems_cmds es)) = Some ts /\
    out_cmds o = (ems_cmds es ++ e_train) ++ cs /\
    (forall c, c ∈ ems_cmds es <->
       exists vid t j, vid ∈ getIDList s /\ ems_claim s vid t j /\
         (c = SetLaneChangeMode vid 0 \/ c = SetSpeedMode vid 0)) /\
    (forall c, c ∈ e_train ->
       exists v t l d, v ∈ getIDList s /\ train_at s meta v t l d /\
         Qltb d TRAIN_WARN_DIST = true /\
         ((c = SlowDown v (slow_target d) 3 /\ ems_blocked s t) \/
          c = SetSpeed v (-1))) /\
    (forall c, c ∈ cs ->
       (exists e, e ∈ out_events o /\
                  c = SetRedYellowGreenState (ev_tls e) (ev_state e)) \/
       (exists e, e ∈ out_events o /\ c = SetPhaseDuration (ev_tls e) PULSE)) /\
    (forall e, e ∈ out_events o ->
       SetRedYellowGreenState (ev_tls e) (ev_state e) ∈ cs /\
       SetPhaseDuration (ev_tls e) PULSE ∈ cs).
Proof.
  intros H. apply tick_inv in H as (es & ts & evs & cs & E1 & E2 & E3 & ->).
  destruct (train_phase_cmds _ _ _ _ _ _ E2) as (ext & Hext & Ho). simpl in Hext.
  destruct (ems_phase_init _ _ E1) as (_ & B1 & _).
  exists es, ts, ext, cs. simpl. split_and!; auto.
  - by rewrite Hext.
  - intros c. rewrite (ems_phase_cmds _ _ _ _ E1 c). simpl. split.
    + intros [Hc|?]; [by apply elem_of_nil in Hc|done].
    + intros ?. by right.
  - intros c Hc. destruct (Ho c Hc) as (v & t & l & d & Hv & Hat & Hw & Hcase).
    exists v, t, l, d. split_and!; auto.
    destruct Hcase as [[-> Hb]| ->]; [left|by right]. split; [done|]. by apply B1.
  - eapply apply_phase_shape; eauto.
  - intros e He. split.
    + eapply apply_phase_writes; eauto.
    + eapply apply_phase_pulses; eauto.
Qed.

(** X8. In a tick, [setLaneChangeMode] and [setSpeedMode] are sent exactly
    to the listed emergency vehicles that claim their next traffic light
    (distance at most EMS_DIST), always with mode 0; no other vehicle has
    its modes changed. *)
Theorem X8_modes_switched_for_claimants_only meta ledger s o :
  tick meta ledger s = Some o ->
  forall v mode,
    (SetLaneChangeMode v mode ∈ out_cmds o <->
       mode = 0 /\ v ∈ getIDList s /\ exists t j, ems_claim s v t j) /\
    (SetSpeedMode v mode ∈ out_cmds o <->
       mode = 0 /\ v ∈ getIDList s /\ exists t j, ems_claim s v t j).
Proof.
  intros H v mode.
  destruct (tick_trace _ _ _ _ H) as (es & ts & ext & cs & _ & _ & -> & He & Ht & Hc & _).
  assert (forall c, (exists v' m', c = SetLaneChangeMode v' m' \/ c = SetSpeedMode v' m') ->
            c ∈ (ems_cmds es ++ ext) ++ cs <-> c ∈ ems_cmds es) as Hin.
  { intros c Hshape. rewrite !elem_of_app. split; [|auto].
    intros [[?|Hx]|Hx]; [done| |].
    - destruct (Ht c Hx) as (? & ? & ? & ? & _ & _ & _ & [[-> _]| ->]);
        destruct Hshape as (? & ? & [?|?]); discriminate.
    - destruct (Hc c Hx) as [(? & _ & ->)|(? & _ & ->)];
        destruct Hshape as (? & ? & [?|?]); discriminate. }
  split.
  - rewrite Hin by eauto. rewrite He. split.
    + intros (vid & t & j & Hv & Hcl & [Hq|Hq]); simplify_eq. eauto.
    + intros (-> & Hv & t & j & Hcl). eauto 10.
  - rewrite Hin by eauto. rewrite He. split.
    + intros (vid & t & j & Hv & Hcl & [Hq|Hq]); simplify_eq. eauto.
    + intros (-> & Hv & t & j & Hcl). eauto 10.
Qed.

Lemma X8_witness :
  tick city_meta ∅ snap_ems_train = Some (out_hold 11) /\
  forall v mode,
    (SetLaneChangeMode v mode ∈ out_cmds (out_hold 11) <->
       mode = 0 /\ v ∈ getIDList snap_ems_train /\
       exists t j, ems_claim snap_ems_train v t j) /\
    (SetSpeedMode v mode ∈ out_cmds (out_hold 11) <->
       mode = 0 /\ v ∈ getIDList snap_ems_train /\
       exists t j, ems_claim snap_ems_train v t j).
Proof.
  split; [vm_compute; reflexivity|].
  apply (X8_modes_switched_for_claimants_only city_meta ∅ snap_ems_train (out_hold 11)).
  vm_compute; reflexivity.
Defined.

(** X9. A tick sends a speed command ([slowDown] or [setSpeed]) only to a
    listed train that is inside the warn distance of a crossing of
    [tls_meta]: a slowdown is always the one of the train's distance band,
    over 3 s, and only at an EMS-claimed crossing; a [setSpeed] always has
    speed -1.  Emergency vehicles, other vehicles, trains beyond the warn
    distance and trains heading for a plain intersection get none. *)
Theorem X9_speed_commands_only_for_trains_in_warn meta ledger s o c v :
  tick meta ledger s = Some o ->
  c ∈ out_cmds o -> slows c v \/ frees c v ->
  v ∈ getIDList s /\
  exists t l d, train_at s meta v t l d /\ Qltb d TRAIN_WARN_DIST = true /\
    ((c = SlowDown v (slow_target d) 3 /\ ems_blocked s t) \/ c = SetSpeed v (-1)).
Proof.
  intros H Hc Hs.
  destruct (tick_trace _ _ _ _ H) as (es & ts & ext & cs & _ & _ & Ho & He & Ht & Hcs & _).
  rewrite Ho, !elem_of_app in Hc. destruct Hc as [[Hc|Hc]|Hc].
  - apply He in Hc as (? & ? & ? & _ & _ & [-> | ->]);
      destruct Hs as [(? & ? & ?)|(? & ?)]; discriminate.
  - destruct (Ht c Hc) as (v' & t & l & d & Hv & Hat & Hw & Hcase).
    assert (v' = v) as ->.
    { destruct Hcase as [[-> _]| ->]; destruct Hs as [(? & ? & ?)|(? & ?)]; congruence. }
    split; [done|]. exists t, l, d. done.
  - destruct (Hcs c Hc) as [(? & _ & ->)|(? & _ & ->)];
      destruct Hs as [(? & ? & ?)|(? & ?)]; discriminate.
Qed.

Lemma X9_witness :
  tick city_meta ∅ snap_ems_train = Some (out_hold 11) /\
  SlowDown "t1" 6 3 ∈ out_cmds (out_hold 11) /\
  (slows (SlowDown "t1" 6 3) "t1" \/ frees (SlowDown "t1" 6 3) "t1") /\
  "t1"%string ∈ getIDList snap_ems_train /\
  exists t l d, train_at snap_ems_train city_meta "t1" t l d /\
    Qltb d TRAIN_WARN_DIST = true /\
    ((SlowDown "t1" 6 3 = SlowDown "t1" (slow_target d) 3 /\ ems_blocked snap_ems_train t) \/
     SlowDown "t1" 6 3 = SetSpeed "t1" (-1)).
Proof.
  assert (tick city_meta ∅ snap_ems_train = Some (out_hold 11)) as H1
    by (vm_compute; reflexivity).
  assert (SlowDown "t1" 6 3 ∈ out_cmds (out_hold 11)) as H2
    by (unfold out_hold, ems_cmds_e1; simpl; do 2 right; left).
  assert (slows (SlowDown "t1" 6 3) "t1" \/ frees (SlowDown "t1" 6 3) "t1") as H3
    by (left; eexists _, _; reflexivity).
  split; [exact H1|]. split; [exact H2|]. split; [exact H3|].
  exact (X9_speed_commands_only_for_trains_in_warn city_meta ∅ snap_ems_train
           (out_hold 11) (SlowDown "t1" 6 3) "t1" H1 H2 H3).
Defined.

(** ** Trains at a crossing that is not EMS-claimed *)

Lemma train_phase_unblocked_release meta blocked s vids st st' t v l :
  train_phase meta blocked s vids st = Some st' ->
  t ∉ blocked -> v ∈ vids -> train_in_warn s meta v t l ->
  SetSpeed v (-1) ∈ train_cmds st'.
Proof.
  intros H Hnb Hv (d & Hat & Hw).
  apply list_elem_of_split in Hv as (l1 & l2 & ->).
  rewrite train_phase_app in H.
  destruct (train_phase meta blocked s l1 st) as [st1|] eqn:E1; [|done].
  cbn [train_phase] in H.
  destruct (train_body meta blocked s v st1) as [st2|] eqn:E; [|done].
  apply train_phase_ledger in H as (e2 & C2 & _).
  apply train_body_step in E.
  inversion E as [Hn|t' l' d' Hat' Hw'|t' l' d' Hat' Hw' Hb Hlt|t' l' d' Hat' Hw' Hlt];
    subst.
  - destruct (Hn _ _ _ Hat).
  - destruct (train_at_fun _ _ _ _ _ _ _ _ _ Hat Hat') as (-> & -> & ->). congruence.
  - destruct (train_at_fun _ _ _ _ _ _ _ _ _ Hat Hat') as (-> & -> & ->). done.
  - rewrite C2. simpl. rewrite !elem_of_app. left. right. left.
Qed.

(** X10. At a crossing that no emergency vehicle claims while some train is
    inside the warn distance, the tick logs and writes the train_request
    decision: its green set is exactly the set of links reported by the
    trains inside the warn distance, nothing is forced red, these links are
    'G' and every other link 'r' in the vector, and each of these trains is
    sent [setSpeed(v, -1)].  (Mover answers are assumed to name existing
    traffic lights and link indices.) *)
Theorem X10_train_request_when_unclaimed net meta ledger s t m :
  startup net = Some meta ->
  wf_snapshot meta s ->
  meta !! t = Some m ->
  ~ ems_blocked s t ->
  (exists vid l, vid ∈ getIDList s /\ train_in_warn s meta vid t l) ->
  exists o g st,
    tick meta ledger s = Some o /\
    (forall j, j ∈ g <-> exists vid, vid ∈ getIDList s /\ train_in_warn s meta vid t j) /\
    build_state (n m) g ∅ = Some st /\
    Event (getTime s) train_request src_train t st ∈ out_events o /\
    (forall e, e ∈ out_events o -> ev_tls e = t ->
               e = Event (getTime s) train_request src_train t st) /\
    (forall j, j ∈ g -> green_at st j) /\
    (forall i, 0 <= i < Z.of_nat (n m) -> i ∉ g -> red_at st i) /\
    (forall vid l, vid ∈ getIDList s -> train_in_warn s meta vid t l ->
                   SetSpeed vid (-1) ∈ out_cmds o).
Proof.
  intros Hst Hwf Hm Hne (v0 & l0 & Hv0 & Hw0).
  assert (forall t m, meta !! t = Some m -> meta_ok m) as Hok
    by (intros; eapply startup_ok; eauto).
  destruct (tick_ok meta ledger s Hok Hwf) as [o Ho].
  destruct (tick_view _ _ _ _ Ho) as (es & ts & cs & Ees & Ets & _ & Hc & _).
  destruct (ems_phase_init _ _ Ees) as (_ & B1 & D1 & _).
  destruct (train_phase_init _ _ _ _ _ _ Ets) as (N1 & _ & N3).
  assert (t ∉ blocked_tls es) as Hnb by (intros Hb; by apply B1 in Hb).
  assert (forall j, in_green (train_green ts) t j <->
            exists vid, vid ∈ getIDList s /\ train_in_warn s meta vid t j) as Hg.
  { intros j. rewrite (train_phase_unblocked_green _ _ _ _ _ _ t Ets Hnb j). split.
    - intros [(g & Hg' & _)|?]; [simpl in Hg'; by rewrite lookup_empty in Hg'|done].
    - intros ?. by right. }
  destruct (proj2 (Hg l0)) as (g & Etg & _); [eauto|].
  assert (ems_green es !! t = None) as Eeg.
  { apply not_elem_of_dom. intros Hd. by apply D1 in Hd. }
  assert (crossing_road_green meta (blocked_tls es) (train_near ts) !! t = None) as Ecrg.
  { apply eq_None_not_Some. intros [g' Hg'].
    apply crossing_road_green_lookup in Hg' as (? & _ & _ & _ & Hnn & _).
    apply Hnn, N1. eauto. }
  destruct (tick_touched _ _ _ _ _ _ t Ho Ees Ets) as (m' & st & Hm' & Hb & Hin).
  { unfold touched_of. rewrite !elem_of_union. left. right. apply elem_of_dom. eauto. }
  rewrite Hm in Hm'. injection Hm' as <-.
  rewrite (resolve_train m _ _ _ _ _ Eeg Etg Ecrg) in Hb, Hin. simpl in Hb, Hin.
  assert (forall j, j ∈ g <-> exists vid, vid ∈ getIDList s /\ train_in_warn s meta vid t j)
    as Hgc.
  { intros j. rewrite <- Hg. unfold in_green. rewrite Etg. naive_solver. }
  assert (forall j, j ∈ g -> 0 <= j < Z.of_nat (n m)) as Hgr.
  { intros j Hj. apply Hgc in Hj as (v & Hv & d & (_ & Hh & _) & _).
    destruct (wf_head _ _ _ _ _ _ Hwf Hv Hh) as (m' & ? & ?). by simplify_eq. }
  exists o, g, st. split_and!; auto.
  - intros e He Hte. eapply tick_event_unique; eauto.
  - intros j Hj. eapply build_state_green; [exact Hb|exact Hj|auto|].
    intros k Hk. by apply not_elem_of_empty in Hk.
  - intros i Hi Hni. eapply build_state_outside; eauto.
  - intros vid l Hv Hw. rewrite Hc. apply elem_of_app. left.
    eapply train_phase_unblocked_release; eauto.
Qed.

Lemma snap_two_trains_wf : wf_snapshot depot_meta snap_two_trains.
Proof.
  intros vid Hv.
  apply elem_of_cons in Hv as [->|Hv];
    [|apply list_elem_of_singleton in Hv as ->];
    (split; [vm_compute; eauto|]);
    intros t l d Hh; vm_compute in Hh; injection Hh as <- <- <-;
    exists depot_Y; (split; [vm_compute; reflexivity|vm_compute; split; congruence]).
Qed.

Lemma snap_two_trains_no_ems : ~ ems_blocked snap_two_trains "Y".
Proof.
  intros (ev & j & Hv & He & _).
  apply elem_of_cons in Hv as [->|Hv];
    [|apply list_elem_of_singleton in Hv as ->]; vm_compute in He; discriminate.
Qed.

Lemma snap_two_trains_in_warn :
  exists vid l, vid ∈ getIDList snap_two_trains /\
                train_in_warn snap_two_trains depot_meta vid "Y" l.
Proof.
  exists "t1"%string, 1. split; [left|]. exists 100%Q.
  split; [|vm_compute; reflexivity]. split_and!.
  - vm_compute; reflexivity.
  - vm_compute; reflexivity.
  - exists depot_Y. split; vm_compute; reflexivity.
Qed.

Lemma X10_witness :
  startup depot = Some depot_meta /\
  wf_snapshot depot_meta snap_two_trains /\
  depot_meta !! "Y"%string = Some depot_Y /\
  ~ ems_blocked snap_two_trains "Y" /\
  (exists vid l, vid ∈ getIDList snap_two_trains /\
                 train_in_warn snap_two_trains depot_meta vid "Y" l) /\
  exists o g st,
    tick depot_meta ∅ snap_two_trains = Some o /\
    (forall j, j ∈ g <-> exists vid, vid ∈ getIDList snap_two_trains /\
                                     train_in_warn snap_two_trains depot_meta vid "Y" j) /\
    build_state (n depot_Y) g ∅ = Some st /\
    Event (getTime snap_two_trains) train_request src_train "Y" st ∈ out_events o /\
    (forall e, e ∈ out_events o -> ev_tls e = "Y"%string ->
               e = Event (getTime snap_two_trains) train_request src_train "Y" st) /\
    (forall j, j ∈ g -> green_at st j) /\
    (forall i, 0 <= i < Z.of_nat (n depot_Y) -> i ∉ g -> red_at st i) /\
    (forall vid l, vid ∈ getIDList snap_two_trains ->
                   train_in_warn snap_two_trains depot_meta vid "Y" l ->
                   SetSpeed vid (-1) ∈ out_cmds o).
Proof.
  assert (startup depot = Some depot_meta) as H1 by (vm_compute; reflexivity).
  assert (depot_meta !! "Y"%string = Some depot_Y) as H3 by (vm_compute; reflexivity).
  split; [exact H1|]. split; [exact snap_two_trains_wf|]. split; [exact H3|].
  split; [exact snap_two_trains_no_ems|]. split; [exact snap_two_trains_in_warn|].
  exact (X10_train_request_when_unclaimed depot depot_meta ∅ snap_two_trains "Y" depot_Y
           H1 snap_two_trains_wf H3 snap_two_trains_no_ems snap_two_trains_in_warn).
Defined.

(** ** The ledger *)

Lemma prune_lookup_eq (s : snapshot) (l l' : gmap (tls_id * veh_id) Z) k :
  l' !! k = l !! k -> prune s l' !! k = prune s l !! k.
Proof. unfold prune. rewrite !map_lookup_filter. by intros ->. Qed.

(** X11. A tick changes hold budgets only at EMS-claimed crossings: for a
    traffic light that no emergency vehicle claims this tick, every entry
    of the ledger comes out exactly as the clean-up alone would leave it
    (kept unchanged, or dropped because its train is gone).  In particular
    a tick without any EMS claim charges nothing. *)
Theorem X11_budget_charged_only_under_ems meta ledger s o t v :
  tick meta ledger s = Some o ->
  ~ ems_blocked s t ->
  out_ledger o !! (t, v) = prune s ledger !! (t, v).
Proof.
  intros H Hne.
  destruct (tick_view _ _ _ _ H) as (es & ts & cs & Ees & Ets & -> & _).
  destruct (ems_phase_init _ _ Ees) as (_ & B1 & _).
  apply prune_lookup_eq.
  apply (train_phase_unblocked_ledger _ _ _ _ _ _ Ets t v).
  intros Hb. by apply B1 in Hb.
Qed.

Lemma snap_moved_on_no_ems : ~ ems_blocked snap_moved_on "X".
Proof.
  intros (ev & j & Hv & He & _). apply list_elem_of_singleton in Hv as ->.
  vm_compute in He. discriminate.
Qed.

Lemma X11_witness :
  tick city_meta {[ key_X_t1 := 5 ]} snap_moved_on = Some out_moved_on /\
  ~ ems_blocked snap_moved_on "X" /\
  out_ledger out_moved_on !! ("X", "t1")%string
    = prune snap_moved_on {[ key_X_t1 := 5 ]} !! ("X", "t1")%string.
Proof.
  assert (tick city_meta {[ key_X_t1 := 5 ]} snap_moved_on = Some out_moved_on) as H1
    by (vm_compute; reflexivity).
  split; [exact H1|]. split; [exact snap_moved_on_no_ems|].
  exact (X11_budget_charged_only_under_ems city_meta {[ key_X_t1 := 5 ]} snap_moved_on
           out_moved_on "X" "t1" H1 snap_moved_on_no_ems).
Defined.

Lemma train_phase_sound meta blocked s vids : forall st st',
  train_phase meta blocked s vids st = Some st' ->
  ledger_sound meta (train_hold_left st) -> ledger_sound meta (train_hold_left st').
Proof.
  induction vids as [|vid vids IH]; cbn [train_phase]; intros st st' H Hs.
  - by injection H as <-.
  - destruct (train_body meta blocked s vid st) as [st1|] eqn:E; [|done].
    apply (IH _ _ H). apply train_body_step in E.
    inversion E as [Hn|t l d Hat Hw|t l d Hat Hw Hb Hl|t l d Hat Hw Hl];
      subst; simpl; try done.
    intros t' v' x. rewrite lookup_insert. case_decide as Hd; [|apply Hs].
    injection Hd as <- <-. intros [= <-]. split.
    + unfold hold_get in *.
      destruct (train_hold_left st !! (t, vid)) as [y|] eqn:Ey; simpl in *.
      * destruct (Hs _ _ _ Ey) as [? _]. lia.
      * unfold TRAIN_HOLD_MAX. lia.
    + by destruct Hat as (_ & _ & ?).
Qed.

Lemma tick_sound meta ledger s o :
  tick meta ledger s = Some o ->
  ledger_sound meta ledger -> ledger_sound meta (out_ledger o).
Proof.
  intros H Hs.
  destruct (tick_view _ _ _ _ H) as (es & ts & cs & _ & Ets & -> & _).
  apply train_phase_sound in Ets; [|done].
  intros t v x Hx. apply prune_lookup in Hx as [Hx _]. eauto.
Qed.

Lemma run_sound meta : forall ss ledger os,
  run meta ledger ss = Some os ->
  ledger_sound meta ledger ->
  forall o, o ∈ os -> ledger_sound meta (out_ledger o).
Proof.
  induction ss as [|s ss IH]; intros ledger os H Hs o Ho; cbn [run] in H.
  - injection H as <-. by apply elem_of_nil in Ho.
  - destruct (tick meta ledger s) as [o1|] eqn:Et; [|done].
    destruct (run meta (out_ledger o1) ss) as [os'|] eqn:Er; [|done].
    injection H as <-. pose proof (tick_sound _ _ _ _ Et Hs) as Hs1.
    apply elem_of_cons in Ho as [->|Ho]; [done|]. eapply IH; eauto.
Qed.

(** X12. Starting from the empty ledger of [main], after every tick of any
    run every ledger entry has a budget between 0 and TRAIN_HOLD_MAX - 1
    (never negative, never the full 12) and its key names a crossing of
    [tls_meta]: entries are only ever created for trains held before a
    crossing. *)
Theorem X12_ledger_entries_in_range meta ss os o t v x :
  run meta ∅ ss = Some os -> o ∈ os ->
  out_ledger o !! (t, v) = Some x ->
  0 <= x < TRAIN_HOLD_MAX /\
  exists m, meta !! t = Some m /\ is_crossing m = true.
Proof.
  intros H Ho Hx.
  assert (ledger_sound meta ∅) as H0 by (intros ? ? ? Hl; by rewrite lookup_empty in Hl).
  exact (run_sound meta ss ∅ os H H0 o Ho t v x Hx).
Qed.

Lemma X12_witness :
  run city_meta ∅ run13 = Some outs13 /\ out_hold 11 ∈ outs13 /\
  out_ledger (out_hold 11) !! ("X", "t1")%string = Some 11 /\
  0 <= 11 < TRAIN_HOLD_MAX /\
  exists m, city_meta !! "X"%string = Some m /\ is_crossing m = true.
Proof.
  assert (run city_meta ∅ run13 = Some outs13) as H1 by (vm_compute; reflexivity).
  assert (out_hold 11 ∈ outs13) as H2 by left.
  assert (out_ledger (out_hold 11) !! ("X", "t1")%string = Some 11) as H3
    by (vm_compute; reflexivity).
  split; [exact H1|]. split; [exact H2|]. split; [exact H3|].
  exact (X12_ledger_entries_in_range city_meta run13 outs13 (out_hold 11) "X" "t1" 11
           H1 H2 H3).
Defined.

Lemma tick_routed_budget meta ledger s o t v :
  tick meta ledger s = Some o -> is_Some (next_head s v) ->
  hold_get (out_ledger o) (t, v) <= hold_get ledger (t, v).
Proof.
  intros H [h Hh].
  destruct (tick_view _ _ _ _ H) as (es & ts & cs & _ & Ets & -> & _).
  apply train_phase_ledger in Ets as (_ & _ & _ & _ & K & _). simpl in K.
  assert (prune s (train_hold_left ts) !! (t, v) = train_hold_left ts !! (t, v)) as Hp.
  { destruct (train_hold_left ts !! (t, v)) as [x|] eqn:Ex.
    - apply prune_lookup. eauto.
    - apply eq_None_not_Some. intros [x Hx]. apply prune_lookup in Hx as [Hx _].
      congruence. }
  unfold hold_get at 1. rewrite Hp.
  destruct (K (t, v)) as [E|(x & E & Hx)].
  - rewrite E. unfold hold_get. lia.
  - rewrite E. simpl. lia.
Qed.

Lemma run_held_count meta t v : forall ss ledger os,
  run meta ledger ss = Some os ->
  ledger_ok ledger ->
  Forall (fun s => is_Some (next_head s v)) ss ->
  Z.of_nat (held_count (held_flags ss os t v)) <= hold_get ledger (t, v).
Proof.
  induction ss as [|s ss IH]; intros ledger os H Hok Hr; cbn [run] in H.
  - injection H as <-. simpl. pose proof (hold_get_bounds ledger (t, v) Hok).
    unfold held_count. simpl. lia.
  - destruct (tick meta ledger s) as [o|] eqn:Et; [|done].
    destruct (run meta (out_ledger o) ss) as [os'|] eqn:Er; [|done].
    injection H as <-. cbn [held_flags].
    apply Forall_cons in Hr as [Hr1 Hr].
    destruct (tick_ledger _ _ _ _ Et) as [Hok' Hdec].
    specialize (IH _ _ Er (Hok' Hok) Hr).
    pose proof (tick_routed_budget _ _ _ _ t v Et Hr1) as Hle.
    unfold held_count in *.
    destruct (heldb s o t v) eqn:Eh.
    + specialize (Hdec t v Eh). rewrite filter_cons_True by done. simpl length. lia.
    + rewrite filter_cons_False by (intros []). lia.
Qed.

(** X13. The hold budget is not refilled by a pause: from the empty ledger,
    over any run in which the train reports an upcoming traffic light in
    every tick (so the clean-up never drops its entries), the total number
    of ticks in which it is slowed down for a given intersection, whether
    consecutive or not, is at most TRAIN_HOLD_MAX. *)
Theorem X13_total_holds_bounded_while_routed meta ss os t v :
  run meta ∅ ss = Some os ->
  Forall (fun s => is_Some (next_head s v)) ss ->
  Z.of_nat (held_count (held_flags ss os t v)) <= TRAIN_HOLD_MAX.
Proof.
  intros H Hr.
  assert (ledger_ok ∅) as H0 by (intros k x Hk; by rewrite lookup_empty in Hk).
  pose proof (run_held_count meta t v ss ∅ os H H0 Hr) as Hc.
  unfold hold_get in Hc. rewrite lookup_empty in Hc. exact Hc.
Qed.

Lemma X13_witness :
  run city_meta ∅ run13 = Some outs13 /\
  Forall (fun s => is_Some (next_head s "t1")) run13 /\
  Z.of_nat (held_count (held_flags run13 outs13 "X" "t1")) <= TRAIN_HOLD_MAX.
Proof.
  assert (run city_meta ∅ run13 = Some outs13) as H1 by (vm_compute; reflexivity).
  assert (Forall (fun s => is_Some (next_head s "t1")) run13) as H2
    by (apply Forall_replicate; vm_compute; eauto).
  split; [exact H1|]. split; [exact H2|].
  exact (X13_total_holds_bounded_while_routed city_meta run13 outs13 "X" "t1" H1 H2).
Defined.

(** ** Which intersections are written, and how *)

(** X14. In every tick each crossing of [tls_meta] gets a decision (the base
    signal programme never runs a crossing on its own), and which one is
    fixed by the traffic: ems_preempt exactly when an emergency vehicle
    claims it, otherwise train_request exactly when some train is inside
    the warn distance, otherwise road_keep_green.  (Mover answers are
    assumed to name existing traffic lights and link indices.) *)
Theorem X14_every_crossing_is_written net meta ledger s t m :
  startup net = Some meta ->
  wf_snapshot meta s ->
  meta !! t = Some m -> is_crossing m = true ->
  exists o e,
    tick meta ledger s = Some o /\ e ∈ out_events o /\ ev_tls e = t /\
    (ev_type e = ems_preempt <-> ems_blocked s t) /\
    (ev_type e = train_request <->
       ~ ems_blocked s t /\
       exists vid l, vid ∈ getIDList s /\ train_in_warn s meta vid t l) /\
    (ev_type e = road_keep_green <->
       ~ ems_blocked s t /\
       ~ exists vid l, vid ∈ getIDList s /\ train_in_warn s meta vid t l).
Proof.
  intros Hst Hwf Hm Hc.
  assert (forall t m, meta !! t = Some m -> meta_ok m) as Hok
    by (intros; eapply startup_ok; eauto).
  destruct (tick_ok meta ledger s Hok Hwf) as [o Ho].
  destruct (tick_view _ _ _ _ Ho) as (es & ts & cs & Ees & Ets & _).
  destruct (ems_phase_init _ _ Ees) as (_ & B1 & D1 & _).
  destruct (train_phase_init _ _ _ _ _ _ Ets) as (N1 & _ & N3).
  set (crg := crossing_road_green meta (blocked_tls es) (train_near ts)) in *.
  exists o.
  destruct (decide (t ∈ blocked_tls es)) as [Hb|Hnb].
  - assert (t ∈ dom (ems_green es)) as Hd by (by apply D1, B1).
    destruct (tick_touched _ _ _ _ _ _ t Ho Ees Ets) as (m' & st & _ & _ & Hin).
    { unfold touched_of. rewrite !elem_of_union. auto. }
    apply elem_of_dom in Hd as [g Hg].
    rewrite (resolve_ems m' _ _ _ _ _ Hg) in Hin. simpl in Hin.
    apply B1 in Hb. eexists. split_and!; [done|exact Hin|done|..]; simpl.
    + done.
    + split; [done|]. intros [? _]. done.
    + split; [done|]. intros [? _]. done.
  - assert (~ ems_blocked s t) as Hne by (intros Hb; by apply B1 in Hb).
    assert (ems_green es !! t = None) as Eeg.
    { apply not_elem_of_dom. intros Hd. by apply D1 in Hd. }
    destruct (decide (t ∈ train_near ts)) as [Hn|Hnn].
    + pose proof Hn as Hn'. apply N1 in Hn' as (v0 & l0 & Hv0 & Hw0).
      assert (in_green (train_green ts) t l0) as (g & Etg & _).
      { apply (train_phase_unblocked_green _ _ _ _ _ _ t Ets Hnb l0). right. eauto. }
      assert (crg !! t = None) as Ecrg.
      { apply eq_None_not_Some. intros [g' Hg'].
        apply crossing_road_green_lookup in Hg' as (? & _ & _ & _ & Hx & _). done. }
      destruct (tick_touched _ _ _ _ _ _ t Ho Ees Ets) as (m' & st & _ & _ & Hin).
      { unfold touched_of. rewrite !elem_of_union. left. right. apply elem_of_dom. eauto. }
      fold crg in Hin. rewrite (resolve_train m' _ _ _ _ _ Eeg Etg Ecrg) in Hin.
      simpl in Hin. eexists. split_and!; [done|exact Hin|done|..]; simpl.
      * split; [done|]. intros ?. done.
      * split; [intros _|done]. split; [done|]. eauto.
      * split; [done|]. intros [_ Hx]. destruct Hx. eauto.
    + assert (~ exists vid l, vid ∈ getIDList s /\ train_in_warn s meta vid t l) as Hnw.
      { intros Hx. by apply N1 in Hx. }
      assert (train_green ts !! t = None) as Etg.
      { apply not_elem_of_dom. intros Hd. by apply N3 in Hd. }
      assert (crg !! t = Some (road_idxs m)) as Ecrg.
      { apply crossing_road_green_lookup. exists m. done. }
      destruct (tick_touched _ _ _ _ _ _ t Ho Ees Ets) as (m' & st & _ & _ & Hin).
      { unfold touched_of. rewrite !elem_of_union. right. apply elem_of_dom. eauto. }
      fold crg in Hin. rewrite (resolve_road m' _ _ _ _ _ Eeg Etg Ecrg) in Hin.
      simpl in Hin. eexists. split_and!; [done|exact Hin|done|..]; simpl.
      * split; [done|]. intros ?. done.
      * split; [done|]. intros [_ ?]. done.
      * split; [intros _|done]. done.
Qed.

Lemma X14_witness :
  startup city = Some city_meta /\
  wf_snapshot city_meta snap_ems_train /\
  city_meta !! "X"%string = Some city_X /\ is_crossing city_X = true /\
  exists o e,
    tick city_meta ∅ snap_ems_train = Some o /\ e ∈ out_events o /\
    ev_tls e = "X"%string /\
    (ev_type e = ems_preempt <-> ems_blocked snap_ems_train "X") /\
    (ev_type e = train_request <->
       ~ ems_blocked snap_ems_train "X" /\
       exists vid l, vid ∈ getIDList snap_ems_train /\
                     train_in_warn snap_ems_train city_meta vid "X" l) /\
    (ev_type e = road_keep_green <->
       ~ ems_blocked snap_ems_train "X" /\
       ~ exists vid l, vid ∈ getIDList snap_ems_train /\
                       train_in_warn snap_ems_train city_meta vid "X" l).
Proof.
  assert (startup city = Some city_meta) as H1 by (vm_compute; reflexivity).
  assert (city_meta !! "X"%string = Some city_X) as H3 by (vm_compute; reflexivity).
  assert (is_crossing city_X = true) as H4 by reflexivity.
  split; [exact H1|]. split; [exact snap_ems_train_wf|]. split; [exact H3|].
  split; [exact H4|].
  exact (X14_every_crossing_is_written city city_meta ∅ snap_ems_train "X" city_X
           H1 snap_ems_train_wf H3 H4).
Defined.

(** X15. An intersection without rail links is only ever overridden for an
    emergency vehicle: every event a tick logs for a non-crossing
    intersection is an ems_preempt of an intersection that some emergency
    vehicle claims this tick.  Trains and the anti-starvation fallback never
    touch it. *)
Theorem X15_plain_intersection_only_for_ems meta ledger s o e m :
  tick meta ledger s = Some o -> e ∈ out_events o ->
  meta !! ev_tls e = Some m -> is_crossing m = false ->
  ev_type e = ems_preempt /\ ev_source e = src_ems /\ ems_blocked s (ev_tls e).
Proof.
  intros H He Hm Hc.
  destruct (tick_view _ _ _ _ H) as (es & ts & cs & Ees & Ets & _ & _ & _ & _ & Hev).
  destruct (ems_phase_init _ _ Ees) as (_ & _ & D1 & _).
  destruct (train_phase_init _ _ _ _ _ _ Ets) as (N1 & _ & N3).
  apply Hev in He as (t & m' & st & Ht & Hm' & _ & ->). simpl in *.
  rewrite Hm in Hm'. injection Hm' as <-.
  unfold touched_of in Ht. rewrite !elem_of_union in Ht.
  destruct Ht as [[Hd|Hd]|Hd].
  - pose proof Hd as Hd'. apply elem_of_dom in Hd' as [g Hg].
    rewrite (resolve_ems m _ _ _ _ _ Hg). simpl. split_and!; auto. by apply D1.
  - apply N3, N1 in Hd as (v & l & _ & d & (_ & _ & m' & Hm' & Hc') & _).
    rewrite Hm in Hm'. injection Hm' as <-. congruence.
  - apply elem_of_dom in Hd as [g Hg].
    apply crossing_road_green_lookup in Hg as (m' & Hm' & Hc' & _).
    rewrite Hm in Hm'. injection Hm' as <-. congruence.
Qed.

Lemma X15_witness :
  tick plain_meta ∅ snap_ems_plain = Some out_ems_plain /\
  Event 1 ems_preempt src_ems "P" "rG" ∈ out_events out_ems_plain /\
  plain_meta !! "P"%string = Some plain_P /\
  is_crossing plain_P = false /\
  ems_preempt = ems_preempt /\ src_ems = src_ems /\ ems_blocked snap_ems_plain "P".
Proof.
  assert (tick plain_meta ∅ snap_ems_plain = Some out_ems_plain) as H1
    by (vm_compute; reflexivity).
  assert (Event 1 ems_preempt src_ems "P" "rG" ∈ out_events out_ems_plain) as H2 by left.
  assert (plain_meta !! "P"%string = Some plain_P) as H3 by (vm_compute; reflexivity).
  assert (is_crossing plain_P = false) as H4 by reflexivity.
  split; [exact H1|]. split; [exact H2|]. split; [exact H3|]. split; [exact H4|].
  exact (X15_plain_intersection_only_for_ems plain_meta ∅ snap_ems_plain out_ems_plain
           (Event 1 ems_preempt src_ems "P" "rG") plain_P H1 H2 H3 H4).
Defined.

(** ** The event log against the signal writes *)

(** X16. The event log of a tick is a complete record of its signal writes:
    a state vector is written to a traffic light exactly when an event with
    that traffic light and that vector is logged, and a phase duration is
    set exactly for the traffic lights with an event, always to PULSE. *)
Theorem X16_events_record_all_signal_writes meta ledger s o :
  tick meta ledger s = Some o ->
  forall t,
    (forall st, SetRedYellowGreenState t st ∈ out_cmds o <->
       exists e, e ∈ out_events o /\ ev_tls e = t /\ ev_state e = st) /\
    (forall d, SetPhaseDuration t d ∈ out_cmds o <->
       d = PULSE /\ exists e, e ∈ out_events o /\ ev_tls e = t).
Proof.
  intros H.
  destruct (tick_trace _ _ _ _ H)
    as (es & ts & ext & cs & _ & _ & Ho & He & Ht & Hc & Hw).
  intros t. rewrite Ho. clear Ho.
  assert (forall c, signal_write c \/ (exists t d, c = SetPhaseDuration t d) ->
            c ∈ (ems_cmds es ++ ext) ++ cs <-> c ∈ cs) as Hin.
  { intros c Hshape. rewrite !elem_of_app. split; [|auto].
    intros [[Hx|Hx]|?]; [| |done]; exfalso.
    - apply He in Hx as (? & ? & ? & _ & _ & [-> | ->]);
        destruct Hshape as [[(? & ? & ?)|(? & ?)]|(? & ? & ?)]; discriminate.
    - destruct (Ht c Hx) as (? & ? & ? & ? & _ & _ & _ & [[-> _]| ->]);
        destruct Hshape as [[(? & ? & ?)|(? & ?)]|(? & ? & ?)]; discriminate. }
  split.
  - intros st. rewrite Hin by (left; left; eauto). split.
    + intros Hx. destruct (Hc _ Hx) as [(e & Hev & Heq)|(e & _ & Heq)];
        [|discriminate]. injection Heq as -> ->. eauto.
    + intros (e & Hev & <- & <-). by apply Hw.
  - intros d. rewrite Hin by (right; eauto). split.
    + intros Hx. destruct (Hc _ Hx) as [(e & _ & Heq)|(e & Hev & Heq)];
        [discriminate|]. injection Heq as -> ->. eauto.
    + intros (-> & e & Hev & <-). by apply Hw.
Qed.

Lemma X16_witness :
  tick city_meta ∅ snap_idle = Some out_idle /\
  forall t,
    (forall st, SetRedYellowGreenState t st ∈ out_cmds out_idle <->
       exists e, e ∈ out_events out_idle /\ ev_tls e = t /\ ev_state e = st) /\
    (forall d, SetPhaseDuration t d ∈ out_cmds out_idle <->
       d = PULSE /\ exists e, e ∈ out_events out_idle /\ ev_tls e = t).
Proof.
  split; [vm_compute; reflexivity|].
  apply (X16_events_record_all_signal_writes city_meta ∅ snap_idle out_idle).
  vm_compute; reflexivity.
Defined.

Lemma build_state_length (len : nat) (greens force_red : gset Z) st :
  build_state len greens force_red = Some st -> String.length st = len.
Proof.
  unfold build_state. intros H.
  destruct (set_items _ (elements greens) _) as [s|] eqn:Hs; [|done].
  destruct (set_items s (elements force_red) _) as [s'|] eqn:Hs'; [|done].
  injection H as <-. rewrite string_length_of_list.
  rewrite (set_items_length _ _ _ _ Hs'), (set_items_length _ _ _ _ Hs).
  apply length_replicate.
Qed.

(** X17. Every event a tick logs is well formed: its traffic light is a key
    of [tls_meta], its state vector has one character per controlled link,
    its time stamp is the tick's simulation time, and its source column is
    fixed by its type (ems for ems_preempt, train for train_request,
    controller for road_keep_green). *)
Theorem X17_events_are_well_formed meta ledger s o e :
  tick meta ledger s = Some o -> e ∈ out_events o ->
  exists m, meta !! ev_tls e = Some m /\
    String.length (ev_state e) = n m /\
    ev_time e = getTime s /\
    (ev_type e = ems_preempt /\ ev_source e = src_ems \/
     ev_type e = train_request /\ ev_source e = src_train \/
     ev_type e = road_keep_green /\ ev_source e = src_controller).
Proof.
  intros H He.
  apply tick_view in H as (es & ts & cs & _ & _ & _ & _ & _ & _ & Hev).
  apply Hev in He as (t & m & st & Ht & Hm & Hb & ->). simpl in *.
  exists m. split_and!; auto.
  - eapply build_state_length; eauto.
  - pose proof (resolve_not_other m _ _ _ _ Ht) as Hno. revert Hno.
    unfold resolve.
    destruct (ems_green es !! t), (train_green ts !! t),
      (crossing_road_green meta (blocked_tls es) (train_near ts) !! t); simpl; auto.
    intros []. done.
Qed.

Lemma X17_witness :
  tick city_meta ∅ snap_idle = Some out_idle /\
  Event 1 road_keep_green src_controller "X" "GrG" ∈ out_events out_idle /\
  exists m, city_meta !! "X"%string = Some m /\
    String.length "GrG" = n m /\
    1%Q = getTime snap_idle /\
    (road_keep_green = ems_preempt /\ src_controller = src_ems \/
     road_keep_green = train_request /\ src_controller = src_train \/
     road_keep_green = road_keep_green /\ src_controller = src_controller).
Proof.
  assert (tick city_meta ∅ snap_idle = Some out_idle) as H1 by (vm_compute; reflexivity).
  assert (Event 1 road_keep_green src_controller "X" "GrG" ∈ out_events out_idle) as H2
    by left.
  split; [exact H1|]. split; [exact H2|].
  exact (X17_events_are_well_formed city_meta ∅ snap_idle out_idle
           (Event 1 road_keep_green src_controller "X" "GrG") H1 H2).
Defined.

(** ** The trip log *)

Example trip_run_rows : snd (trip_run trip_init trip_ticks) = trip_rows_expected.
Proof. vm_compute. reflexivity. Qed.

Lemma od_get_None (d : list (veh_id * float)) k :
  od_get d k = None <-> k ∉ (fst <$> d).
Proof.
  induction d as [|[k' a] d IH]; simpl.
  - split; [intros _ H; by apply elem_of_nil in H|done].
  - rewrite not_elem_of_cons. case_bool_decide as Hk.
    + split; [done|]. intros [Hne _]. by destruct Hne.
    + rewrite IH. split; [intros ?; split; [congruence|done]|intros [_ ?]; done].
Qed.

Lemma od_get_snoc (d : list (veh_id * float)) k a k' :
  od_get (d ++ [(k, a)]) k' =
  match od_get d k' with
  | Some x => Some x
  | None => if bool_decide (k = k') then Some a else None
  end.
Proof.
  induction d as [|[k0 a0] d IH]; simpl; [done|].
  destruct (bool_decide (k0 = k')); [done|apply IH].
Qed.

Lemma first_listing_snoc pre s q vid :
  first_listing (pre ++ [(s, q)]) vid =
  match first_listing pre vid with
  | Some x => Some x
  | None =>
      if bool_decide (vid ∈ getIDList s)
      then Some (clock q, default "unknown"%string (type_query q vid),
                 default "unknown"%string (getRouteID q vid))
      else None
  end.
Proof.
  induction pre as [|[s0 q0] pre IH]; simpl; [done|].
  destruct (bool_decide (vid ∈ getIDList s0)); [done|apply IH].
Qed.

Section TripStep.
Variable s : snapshot.
Variable q : telemetry.

Lemma first_seen_upto pre seen st vid :
  departures_upto s q pre seen st ->
  departures_upto s q pre (seen ++ [vid]) (first_seen s q st vid).
Proof.
  intros [Hrec Hnd]. unfold first_seen.
  assert (forall v, v <> vid ->
            bool_decide (v ∈ seen ++ [vid]) = bool_decide (v ∈ seen)) as Hother.
  { intros v Hne. apply bool_decide_ext.
    rewrite elem_of_app, list_elem_of_singleton. naive_solver. }
  assert (bool_decide (vid ∈ seen ++ [vid]) = true) as Hself.
  { apply bool_decide_eq_true_2, elem_of_app. right. left. }
  destruct (od_get (depart_times st) vid) as [t0|] eqn:E.
  - split; [|done]. intros v. rewrite Hrec.
    destruct (decide (v = vid)) as [->|Hne]; [|by rewrite Hother].
    specialize (Hrec vid). unfold trip_record in Hrec. rewrite E in Hrec.
    rewrite Hself. destruct (first_listing pre vid); [done|].
    by destruct (bool_decide (vid ∈ seen)).
  - split.
    + intros v. unfold trip_record. simpl. rewrite od_get_snoc.
      specialize (Hrec v). unfold trip_record in Hrec.
      destruct (decide (v = vid)) as [->|Hne].
      * rewrite E in Hrec |- *. rewrite bool_decide_eq_true_2 by done.
        rewrite !lookup_insert_eq, Hself. simpl.
        destruct (first_listing pre vid); [done|]. done.
      * rewrite !lookup_insert_ne by done.
        rewrite (bool_decide_eq_false_2 (vid = v)) by congruence.
        rewrite Hother by done.
        destruct (od_get (depart_times st) v); exact Hrec.
    + simpl. rewrite fmap_app. simpl. apply NoDup_app. split_and!; [done| |].
      * intros x Hx Hx'. apply list_elem_of_singleton in Hx' as ->.
        by apply od_get_None in E.
      * apply NoDup_singleton.
Qed.

Lemma record_departures_upto pre ids : forall seen st,
  departures_upto s q pre seen st ->
  departures_upto s q pre (seen ++ ids) (foldl (first_seen s q) st ids).
Proof.
  induction ids as [|vid ids IH]; intros seen st H; simpl.
  - by rewrite app_nil_r.
  - replace (seen ++ vid :: ids) with ((seen ++ [vid]) ++ ids)
      by (by rewrite <- app_assoc).
    apply IH. by apply first_seen_upto.
Qed.

Lemma record_departures_arrived ids : forall st,
  arrived (foldl (first_seen s q) st ids) = arrived st.
Proof.
  induction ids as [|vid ids IH]; intros st; simpl; [done|].
  rewrite IH. unfold first_seen. by destruct (od_get _ _).
Qed.

Lemma record_departures_inv pre st :
  trip_inv pre st ->
  trip_inv (pre ++ [(s, q)]) (record_departures s q st) /\
  arrived (record_departures s q st) = arrived st.
Proof.
  intros [Hrec Hnd]. split; [|apply record_departures_arrived].
  destruct (record_departures_upto pre (getIDList s) [] st) as [Hr' Hn'].
  { split; [|done]. intros v. rewrite Hrec.
    destruct (first_listing pre v); [done|].
    rewrite bool_decide_eq_false_2; [done|]. intros Hx. by apply elem_of_nil in Hx. }
  split; [|done]. intros v. rewrite first_listing_snoc. apply Hr'.
Qed.

End TripStep.

Section TripArrivals.
Variable s : snapshot.
Variable q : telemetry.
Variable st : trip_state.

Lemma log_arrival_fold ks : forall A R A' R',
  foldl (log_arrival s q st) (A, R) ks = (A', R') ->
  exists new, R' = R ++ new /\
    (forall vid, vid ∈ A' <-> vid ∈ A \/ (vid ∈ ks /\ vid ∉ getIDList s)) /\
    (forall r, r ∈ new ->
       (tr_veh r ∈ ks) /\ (tr_veh r ∉ getIDList s) /\ (tr_veh r ∉ A) /\
       r = arrival_row q st (tr_veh r)) /\
    NoDup (tr_veh <$> new) /\
    (forall vid, vid ∈ ks -> vid ∉ getIDList s -> vid ∉ A ->
       exists r, r ∈ new /\ tr_veh r = vid).
Proof.
  induction ks as [|k ks IH]; intros A R A' R' H; simpl in H.
  - injection H as <- <-. exists []. rewrite app_nil_r. split_and!; auto.
    + intros vid. split; [auto|]. intros [?|[Hk _]]; [done|]. by apply elem_of_nil in Hk.
    + intros r Hr. by apply elem_of_nil in Hr.
    + constructor.
    + intros vid Hk. by apply elem_of_nil in Hk.
  - destruct (bool_decide (k ∉ getIDList s) && bool_decide (k ∉ A)) eqn:Ec.
    + apply andb_true_iff in Ec as [E1 E2].
      apply bool_decide_eq_true in E1. apply bool_decide_eq_true in E2.
      destruct (IH _ _ _ _ H) as (new & -> & Hm & Hr & Hnd & Hc).
      exists (arrival_row q st k :: new). split_and!.
      * by rewrite <- app_assoc.
      * intros vid. rewrite Hm, elem_of_union, elem_of_singleton, elem_of_cons.
        naive_solver.
      * intros r Hr'. apply elem_of_cons in Hr' as [->|Hr'].
        -- simpl. split_and!; auto. left.
        -- destruct (Hr r Hr') as (? & ? & Hn & ?). split_and!; auto; [by right|].
           intros Hx. apply Hn, elem_of_union. by left.
      * simpl. apply NoDup_cons. split; [|done]. intros Hin.
        apply list_elem_of_fmap in Hin as (r & Hk & Hr').
        destruct (Hr r Hr') as (_ & _ & Hn & _). apply Hn.
        rewrite <- Hk. apply elem_of_union. right. by apply elem_of_singleton.
      * intros vid Hk Hi Ha. apply elem_of_cons in Hk as [->|Hk].
        -- exists (arrival_row q st k). split; [left|done].
        -- destruct (decide (vid = k)) as [->|Hne].
           ++ exists (arrival_row q st k). split; [left|done].
           ++ destruct (Hc vid Hk Hi) as (r & ? & ?).
              { rewrite elem_of_union, elem_of_singleton. naive_solver. }
              exists r. split; [by right|done].
    + apply andb_false_iff in Ec.
      assert (k ∈ getIDList s \/ k ∈ A) as Hk.
      { destruct Ec as [Ec|Ec]; apply bool_decide_eq_false in Ec.
        - left. destruct (decide (k ∈ getIDList s)); [done|]. by destruct Ec.
        - right. destruct (decide (k ∈ A)); [done|]. by destruct Ec. }
      destruct (IH _ _ _ _ H) as (new & -> & Hm & Hr & Hnd & Hc).
      exists new. split_and!; auto.
      * intros vid. rewrite Hm, elem_of_cons. naive_solver.
      * intros r Hr'. destruct (Hr r Hr') as (? & ? & ? & ?). split_and!; auto.
        by right.
      * intros vid Hk' Hi Ha. apply elem_of_cons in Hk' as [->|Hk']; [|eauto].
        destruct Hk; done.
Qed.

End TripArrivals.

Lemma trip_record_keys st vid :
  vid ∈ (fst <$> depart_times st) <-> is_Some (trip_record st vid).
Proof.
  unfold trip_record. destruct (od_get (depart_times st) vid) as [t|] eqn:E.
  - split; [eauto|]. intros _. destruct (decide (vid ∈ (fst <$> depart_times st)));
      [done|]. apply od_get_None in n0. congruence.
  - apply od_get_None in E. split; [done|]. intros [? [=]].
Qed.

(** What the trip part of one tick does. *)
Lemma trip_step_spec s q pre st st' rows :
  trip_inv pre st ->
  trip_step s q st = (st', rows) ->
  trip_inv (pre ++ [(s, q)]) st' /\
  (forall vid, vid ∈ arrived st' <->
     vid ∈ arrived st \/ (is_Some (first_listing pre vid) /\ vid ∉ getIDList s)) /\
  (forall r, r ∈ rows ->
     (tr_veh r ∉ getIDList s) /\ (tr_veh r ∉ arrived st) /\
     first_listing pre (tr_veh r) = Some (tr_depart r, tr_type r, tr_route r) /\
     tr_arrival r = clock q /\
     tr_travel r = (tr_arrival r - tr_depart r)%float) /\
  NoDup (tr_veh <$> rows) /\
  (forall vid, is_Some (first_listing pre vid) -> vid ∉ getIDList s ->
     vid ∉ arrived st -> exists r, r ∈ rows /\ tr_veh r = vid).
Proof.
  intros Hinv H. unfold trip_step, log_arrivals in H.
  destruct (record_departures_inv s q pre st Hinv) as [[Hrec Hnd] Harr].
  set (st1 := record_departures s q st) in *.
  destruct (foldl (log_arrival s q st1) (arrived st1, []) (fst <$> depart_times st1))
    as [A R] eqn:Ef.
  injection H as <- <-.
  apply log_arrival_fold in Ef as (new & -> & Hm & Hr & Hnd' & Hc). simpl in *.
  assert (forall vid, vid ∉ getIDList s ->
            first_listing (pre ++ [(s, q)]) vid = first_listing pre vid) as Hsame.
  { intros vid Hi. rewrite first_listing_snoc.
    destruct (first_listing pre vid); [done|]. by rewrite bool_decide_eq_false_2. }
  assert (forall vid, vid ∉ getIDList s ->
            vid ∈ (fst <$> depart_times st1) <-> is_Some (first_listing pre vid)) as Hkeys.
  { intros vid Hi. by rewrite trip_record_keys, Hrec, Hsame. }
  split_and!.
  - split; [|done]. intros vid. apply (Hrec vid).
  - intros vid. rewrite Hm, Harr. split.
    + intros [?|[Hk Hi]]; [by left|]. right. split; [by apply Hkeys|done].
    + intros [?|[Hk Hi]]; [by left|]. right. split; [by apply Hkeys|done].
  - intros r Hr'. destruct (Hr r Hr') as (Hk & Hi & Ha & Heq).
    rewrite Harr in Ha. split_and!; auto.
    + rewrite <- (Hsame _ Hi), <- Hrec. rewrite Heq at 2 3 4. simpl.
      unfold trip_record.
      apply trip_record_keys in Hk as [x Hx]. unfold trip_record in Hx.
      destruct (od_get (depart_times st1) (tr_veh r)); [done|discriminate].
    + by rewrite Heq.
    + by rewrite Heq.
  - done.
  - intros vid Hf Hi Ha. apply Hc; auto; [by apply Hkeys|by rewrite Harr].
Qed.

Lemma trip_run_spec : forall ticks pre st st' rowss,
  trip_inv pre st ->
  trip_run st ticks = (st', rowss) ->
  NoDup (tr_veh <$> concat rowss) /\
  (forall r, r ∈ concat rowss -> tr_veh r ∉ arrived st) /\
  (forall k rows r, rowss !! k = Some rows -> r ∈ rows ->
     exists s q, ticks !! k = Some (s, q) /\
       (tr_veh r ∉ getIDList s) /\
       first_listing (pre ++ take k ticks) (tr_veh r)
         = Some (tr_depart r, tr_type r, tr_route r) /\
       tr_arrival r = clock q /\
       tr_travel r = (tr_arrival r - tr_depart r)%float) /\
  (forall k s q vid, ticks !! k = Some (s, q) ->
     is_Some (first_listing (pre ++ take k ticks) vid) ->
     vid ∉ getIDList s ->
     vid ∈ arrived st \/
     exists j rows r, (j <= k)%nat /\ rowss !! j = Some rows /\ r ∈ rows /\ tr_veh r = vid).
Proof.
  induction ticks as [|[s q] ticks IH]; intros pre st st' rowss Hinv H; cbn [trip_run] in H.
  - injection H as <- <-. simpl. split_and!.
    + constructor.
    + intros r Hr. by apply elem_of_nil in Hr.
    + intros k rows r Hk. by rewrite lookup_nil in Hk.
    + intros k s q vid Hk. by rewrite lookup_nil in Hk.
  - destruct (trip_step s q st) as [st1 rows] eqn:Es.
    destruct (trip_run st1 ticks) as [st2 rowss'] eqn:Er.
    injection H as <- <-.
    destruct (trip_step_spec _ _ _ _ _ _ Hinv Es) as (Hinv1 & Harr & Hrows & Hnd & Hlive).
    destruct (IH _ _ _ _ Hinv1 Er) as (I1 & I2 & I3 & I4). clear IH.
    assert (forall r, r ∈ rows -> tr_veh r ∈ arrived st1) as Hin1.
    { intros r Hr. destruct (Hrows r Hr) as (Hi & _ & Hf & _).
      apply Harr. right. split; [by rewrite Hf|done]. }
    simpl. split_and!.
    + rewrite fmap_app. apply NoDup_app. split_and!; auto.
      intros x Hx Hx'. apply list_elem_of_fmap in Hx as (r & -> & Hr).
      apply list_elem_of_fmap in Hx' as (r' & Heq & Hr').
      apply (I2 r' Hr'). rewrite <- Heq. auto.
    + intros r Hr. apply elem_of_app in Hr as [Hr|Hr].
      * by destruct (Hrows r Hr) as (_ & ? & _).
      * intros Ha. apply (I2 r Hr), Harr. by left.
    + intros [|k] rows' r Hk Hr; simpl in Hk.
      * injection Hk as <-. exists s, q. rewrite app_nil_r.
        destruct (Hrows r Hr) as (? & _ & ? & ? & ?). done.
      * destruct (I3 k rows' r Hk Hr) as (s' & q' & ? & ? & Hf & ? & ?).
        exists s', q'. split_and!; auto. simpl.
        by rewrite cons_middle, app_assoc.
    + intros [|k] s' q' vid Hk Hf Hi; simpl in Hk.
      * injection Hk as <- <-. simpl in Hf. rewrite app_nil_r in Hf.
        destruct (decide (vid ∈ arrived st)) as [?|Hna]; [by left|]. right.
        destruct (Hlive vid Hf Hi Hna) as (r & Hr & Hv).
        exists 0%nat, rows, r. split_and!; auto.
      * simpl in Hf. rewrite cons_middle, app_assoc in Hf.
        destruct (I4 k s' q' vid Hk Hf Hi) as [Ha|(j & rows' & r & Hj & Hl & Hr & Hv)].
        -- apply Harr in Ha as [?|[Hf0 Hi0]]; [by left|].
           destruct (decide (vid ∈ arrived st)) as [?|Hna]; [by left|]. right.
           destruct (Hlive vid Hf0 Hi0 Hna) as (r & Hr & Hv).
           exists 0%nat, rows, r. split_and!; auto. lia.
        -- right. exists (S j), rows', r. split_and!; auto. lia.
Qed.

Lemma trip_inv_init : trip_inv [] trip_init.
Proof. split; [done|]. constructor. Qed.

(** X18. Over any run of the loop started with empty trip tables, a vehicle
    id appears in at most one row of trip_log.csv: an arrival is logged
    once, also when the id shows up again later. *)
Theorem X18_one_trip_row_per_vehicle ticks st' rowss :
  trip_run trip_init ticks = (st', rowss) ->
  NoDup (tr_veh <$> concat rowss).
Proof.
  intros H. by destruct (trip_run_spec ticks [] _ _ _ trip_inv_init H) as (? & _).
Qed.

Lemma X18_witness :
  trip_run trip_init trip_ticks
    = (fst (trip_run trip_init trip_ticks), trip_rows_expected) /\
  NoDup (tr_veh <$> concat trip_rows_expected).
Proof.
  assert (trip_run trip_init trip_ticks
          = (fst (trip_run trip_init trip_ticks), trip_rows_expected)) as H
    by (vm_compute; reflexivity).
  split; [exact H|].
  exact (X18_one_trip_row_per_vehicle trip_ticks _ trip_rows_expected H).
Defined.

(** X19. Every trip row is written in a tick that does not list the
    vehicle, and describes its first sighting: depart_time, type and route
    are those recorded in the first earlier tick of the run that listed the
    vehicle ("unknown" where the query raised then), arrival_time is the
    time of the writing tick and travel_time is the double-precision
    difference [arrival_time - depart_time] (rounded as the subtraction of
    two doubles is, so 0.4 - 0.1 is logged as 0.30000000000000004). *)
Theorem X19_trip_row_content ticks st' rowss k rows r :
  trip_run trip_init ticks = (st', rowss) ->
  rowss !! k = Some rows -> r ∈ rows ->
  exists s q, ticks !! k = Some (s, q) /\
    (tr_veh r ∉ getIDList s) /\
    first_listing (take k ticks) (tr_veh r)
      = Some (tr_depart r, tr_type r, tr_route r) /\
    tr_arrival r = clock q /\
    tr_travel r = (tr_arrival r - tr_depart r)%float.
Proof.
  intros H Hk Hr.
  destruct (trip_run_spec ticks [] _ _ _ trip_inv_init H) as (_ & _ & I3 & _).
  exact (I3 k rows r Hk Hr).
Qed.

Lemma X19_witness :
  trip_run trip_init trip_ticks
    = (fst (trip_run trip_init trip_ticks), trip_rows_expected) /\
  trip_rows_expected !! 2%nat = Some [trip_row_c1] /\
  trip_row_c1 ∈ [trip_row_c1] /\
  exists s q, trip_ticks !! 2%nat = Some (s, q) /\
    (tr_veh trip_row_c1 ∉ getIDList s) /\
    first_listing (take 2 trip_ticks) (tr_veh trip_row_c1)
      = Some (tr_depart trip_row_c1, tr_type trip_row_c1, tr_route trip_row_c1) /\
    tr_arrival trip_row_c1 = clock q /\
    tr_travel trip_row_c1 = (tr_arrival trip_row_c1 - tr_depart trip_row_c1)%float.
Proof.
  assert (trip_run trip_init trip_ticks
          = (fst (trip_run trip_init trip_ticks), trip_rows_expected)) as H1
    by (vm_compute; reflexivity).
  assert (trip_rows_expected !! 2%nat = Some [trip_row_c1]) as H2 by reflexivity.
  assert (trip_row_c1 ∈ [trip_row_c1]) as H3 by left.
  split; [exact H1|]. split; [exact H2|]. split; [exact H3|].
  exact (X19_trip_row_content trip_ticks _ trip_rows_expected 2 _ _ H1 H2 H3).
Defined.

(** The travel time logged for c1 is not the decimal 0.3. *)
Example trip_row_c1_rounding :
  tr_travel trip_row_c1 = (0.4 - 0.1)%float /\
  (tr_travel trip_row_c1 =? 0.3)%float = false.
Proof. split; vm_compute; reflexivity. Qed.

(** X20. No finished trip is missed: if a tick does not list a vehicle that
    an earlier tick of the run listed, then a trip row for that vehicle has
    been written in that tick or before. *)
Theorem X20_absent_vehicle_is_logged ticks st' rowss k s q vid :
  trip_run trip_init ticks = (st', rowss) ->
  ticks !! k = Some (s, q) ->
  is_Some (first_listing (take k ticks) vid) ->
  vid ∉ getIDList s ->
  exists j rows r, (j <= k)%nat /\ rowss !! j = Some rows /\ r ∈ rows /\ tr_veh r = vid.
Proof.
  intros H Hk Hf Hi.
  destruct (trip_run_spec ticks [] _ _ _ trip_inv_init H) as (_ & _ & _ & I4).
  destruct (I4 k s q vid Hk Hf Hi) as [Ha|?]; [|done].
  simpl in Ha. by apply not_elem_of_empty in Ha.
Qed.

Lemma X20_witness :
  trip_run trip_init trip_ticks
    = (fst (trip_run trip_init trip_ticks), trip_rows_expected) /\
  (exists s q, trip_ticks !! 3%nat = Some (s, q) /\
     is_Some (first_listing (take 3 trip_ticks) "c1") /\
     "c1"%string ∉ getIDList s) /\
  exists j rows r, (j <= 3)%nat /\ trip_rows_expected !! j = Some rows /\
                   r ∈ rows /\ tr_veh r = "c1"%string.
Proof.
  assert (trip_run trip_init trip_ticks
          = (fst (trip_run trip_init trip_ticks), trip_rows_expected)) as H1
    by (vm_compute; reflexivity).
  assert (is_Some (first_listing (take 3 trip_ticks) "c1")) as H3
    by (vm_compute; eauto).
  assert ("c1"%string ∉ getIDList (car_list (5 # 10) [])) as H4
    by (intros Hx; by apply elem_of_nil in Hx).
  split; [exact H1|]. split.
  - eexists _, _. split; [reflexivity|]. split; [exact H3|exact H4].
  - exact (X20_absent_vehicle_is_logged trip_ticks _ trip_rows_expected 3 _ _ "c1"
             H1 eq_refl H3 H4).
Defined.

(** ** The preempt_until table *)

Lemma preempt_marks t ks : forall (p : gmap tls_id float) k,
  foldl (preempt_mark t) p ks !! k =
  if decide (k ∈ ks) then Some (t + PULSE_double + 0.1)%float else p !! k.
Proof.
  induction ks as [|k0 ks IH]; intros p k; cbn [foldl].
  - rewrite decide_False; [done|]. intros H. by apply elem_of_nil in H.
  - rewrite IH. unfold preempt_mark.
    destruct (decide (k ∈ ks)) as [Hin|Hnin].
    + rewrite decide_True; [done|by right].
    + destruct (decide (k = k0)) as [->|Hne].
      * rewrite decide_True by left. by rewrite lookup_insert_eq.
      * rewrite decide_False; [by rewrite lookup_insert_ne|].
        intros Hc. apply elem_of_cons in Hc as [?|?]; done.
Qed.

(** X21. After steps 4 and 5 of a tick at time [t], the preempt_until table
    holds a stamp [u] for a traffic light exactly when [t >= u] is false
    and [u] is: the double [t + PULSE + 0.1] if the traffic light has an
    event this tick (whatever stamp it had before), its old stamp
    otherwise.  So an older stamp survives the tick only if it is still
    after [t], and the fresh stamp itself is dropped at once when the
    rounded sum is not above [t]. *)
Theorem X21_preempt_until_after_tick (t : float) (evs : list event)
    (p : gmap tls_id float) k u :
  preempt_step t evs p !! k = Some u <->
  (u <=? t)%float = false /\
  ((k ∈ (ev_tls <$> evs) /\ u = (t + PULSE_double + 0.1)%float) \/
   ((k ∉ (ev_tls <$> evs)) /\ p !! k = Some u)).
Proof.
  unfold preempt_step. rewrite map_lookup_filter_Some, preempt_marks.
  unfold preempt_live. simpl. case_decide as Hk; split.
  - intros [[= <-] Hl]. split; [done|]. by left.
  - intros [Hl [[_ ->]|[Hn _]]]; [|done]. done.
  - intros [Hp Hl]. split; [done|]. right. done.
  - intros [Hl [[? _]|[_ Hp]]]; [done|]. done.
Qed.

(** The stamp written at 0.9 is 1.8000000000000003, so the entry is still
    there after the tick at 1.8, where a stamp of exactly 1.8 would have
    been popped; and for a clock so large that adding 0.9 is lost in
    rounding, the fresh stamp does not outlive its own tick. *)
Example preempt_rounding :
  preempt_step 0.9 [event_P] ∅ = preempt_P /\
  preempt_step 1.8 [] preempt_P = preempt_P /\
  preempt_step 1.8 [] preempt_P_exact = ∅ /\
  preempt_step 1e17 [event_P] ∅ = ∅.
Proof. split_and!; vm_compute; reflexivity. Qed.

(** ** Hold or release *)

(** X22. With vehicle ids listed once, a train inside the warn distance of a
    crossing gets exactly one speed command in the tick, by this rule: if
    the crossing is EMS-claimed and the pair still has budget (an absent
    entry counting as TRAIN_HOLD_MAX), the slowdown of its distance band,
    and the ledger then holds the budget minus one; otherwise
    [setSpeed(v, -1)], and the pair's ledger entry is left as it was. *)
Theorem X22_hold_or_release meta ledger s o t v l d :
  NoDup (getIDList s) -> v ∈ getIDList s ->
  train_at s meta v t l d -> Qltb d TRAIN_WARN_DIST = true ->
  tick meta ledger s = Some o ->
  exists c,
    c ∈ out_cmds o /\
    (forall c', c' ∈ out_cmds o -> slows c' v \/ frees c' v -> c' = c) /\
    ((ems_blocked s t /\ 0 < hold_get ledger (t, v) /\
      c = SlowDown v (slow_target d) 3 /\
      out_ledger o !! (t, v) = Some (hold_get ledger (t, v) - 1)) \/
     ((~ ems_blocked s t \/ hold_get ledger (t, v) <= 0) /\
      c = SetSpeed v (-1) /\
      out_ledger o !! (t, v) = ledger !! (t, v))).
Proof.
  intros Hnd Hv Hat Hw H.
  destruct (tick_train_in_warn _ _ _ _ _ _ _ _ Hnd Hv Hat Hw H)
    as (es & ts & c & Ees & _ & Hc & Hu & Hcase).
  destruct (ems_phase_init _ _ Ees) as (_ & B1 & _).
  exists c. split_and!; auto.
  destruct Hcase as [(Hb & Hpos & -> & Hl)|(Hor & -> & Hl & _)].
  - left. split_and!; auto. by apply B1.
  - right. split_and!; auto. destruct Hor as [Hnb|?]; [left|by right].
    intros Hb. by apply Hnb, B1.
Qed.

Lemma snap_ems_train_t1 : train_at snap_ems_train city_meta "t1" "X" 1 100.
Proof.
  split_and!.
  - vm_compute; reflexivity.
  - vm_compute; reflexivity.
  - exists city_X. split; vm_compute; reflexivity.
Qed.

Lemma X22_witness :
  NoDup (getIDList snap_ems_train) /\ "t1"%string ∈ getIDList snap_ems_train /\
  train_at snap_ems_train city_meta "t1" "X" 1 100 /\
  Qltb 100 TRAIN_WARN_DIST = true /\
  tick city_meta ∅ snap_ems_train = Some (out_hold 11) /\
  exists c,
    c ∈ out_cmds (out_hold 11) /\
    (forall c', c' ∈ out_cmds (out_hold 11) -> slows c' "t1" \/ frees c' "t1" -> c' = c) /\
    ((ems_blocked snap_ems_train "X" /\ 0 < hold_get ∅ ("X", "t1")%string /\
      c = SlowDown "t1" (slow_target 100) 3 /\
      out_ledger (out_hold 11) !! ("X", "t1")%string
        = Some (hold_get ∅ ("X", "t1")%string - 1)) \/
     ((~ ems_blocked snap_ems_train "X" \/ hold_get ∅ ("X", "t1")%string <= 0) /\
      c = SetSpeed "t1" (-1) /\
      out_ledger (out_hold 11) !! ("X", "t1")%string
        = (∅ : gmap (tls_id * veh_id) Z) !! ("X", "t1")%string)).
Proof.
  destruct snap_ems_train_scene as (H1 & H2 & _).
  assert (Qltb 100 TRAIN_WARN_DIST = true) as H4 by reflexivity.
  assert (tick city_meta ∅ snap_ems_train = Some (out_hold 11)) as H5
    by (vm_compute; reflexivity).
  split; [exact H1|]. split; [exact H2|]. split; [exact snap_ems_train_t1|].
  split; [exact H4|]. split; [exact H5|].
  exact (X22_hold_or_release city_meta ∅ snap_ems_train (out_hold 11) "X" "t1" 1 100
           H1 H2 snap_ems_train_t1 H4 H5).
Defined.

Lemma Qltb_true x y : Qltb x y = true <-> (x < y)%Q.
Proof.
  unfold Qltb. rewrite negb_true_iff. split.
  - intros E. apply Qnot_le_lt. intros Hle. apply Qle_bool_iff in Hle. congruence.
  - intros Hlt. destruct (Qle_bool y x) eqn:E; [|done].
    apply Qle_bool_iff in E. lra.
Qed.

Lemma Qltb_false x y : Qltb x y = false <-> (y <= x)%Q.
Proof.
  unfold Qltb. rewrite negb_false_iff. apply Qle_bool_iff.
Qed.

(** X23. The slowdown is graduated: the target speed of a held train never
    increases as the train gets closer to the stop line, it is never above
    6, and it is never below 0.1, so a held train is never told to stop
    completely.  (Distances are rationals here.) *)
Theorem X23_slowdown_is_graduated (d d' : Q) :
  (d <= d')%Q ->
  (1 # 10 <= slow_target d)%Q /\
  (slow_target d <= slow_target d')%Q /\
  (slow_target d' <= 6)%Q.
Proof.
  intros Hle. unfold slow_target.
  destruct (Qltb d 25) eqn:E1; [apply Qltb_true in E1|apply Qltb_false in E1];
  (destruct (Qltb d 70) eqn:E2; [apply Qltb_true in E2|apply Qltb_false in E2]);
  (destruct (Qltb d' 25) eqn:E3; [apply Qltb_true in E3|apply Qltb_false in E3]);
  (destruct (Qltb d' 70) eqn:E4; [apply Qltb_true in E4|apply Qltb_false in E4]);
  split_and!; try done; try lra.
Qed.

Lemma X23_witness :
  (20 <= 60)%Q /\
  (1 # 10 <= slow_target 20)%Q /\
  (slow_target 20 <= slow_target 60)%Q /\
  (slow_target 60 <= 6)%Q.
Proof.
  assert (20 <= 60)%Q as H1 by lra.
  split; [exact H1|].
  exact (X23_slowdown_is_graduated 20 60 H1).
Defined.
